(** * Ethos ingestion pipeline: a shallow embedding and its properties

    The development follows [backend/src/services/ingestion.ts] (the
    ingestion and regeneration orchestrators) and
    [backend/src/services/openrouter.ts] (the analysis client: retry wrapper
    and response parsing).

    Conventions of the embedding.
    - JavaScript strings are [string]s; a character is one code unit of the
      Latin-1 range, which is closed under [toLowerCase], [\s] and [trim].
    - [async] functions are sequential: every [await] is a call.  A function
      that may throw returns a [Result]; the database tables, the worker
      state and nothing else are threaded through as explicit state.
    - The upstream feed, the language model, the embedding endpoint and the
      vector index are oracles collected in the record [Env.t].
    - The clock reads the same time throughout one run.
    - The database answers every query.  [create] and [update] are its
      answers for rows whose values fit the column types of the tables;
      the properties that depend on it say so ([storyFits],
      [commentFits]).
    - [console.log], [console.error] and the pacing [setTimeout]s have no
      effect on the state and are left out. *)

From Stdlib Require Import ZArith NArith QArith.QArith_base String Ascii List Bool Lia.
From stdpp Require Import base tactics option list gmap strings pretty sorting.

Open Scope string_scope.
Open Scope list_scope.
Open Scope Z_scope.

(** ** JavaScript string primitives used by the sources *)

Module Js.

Definition chars (s : string) : list ascii := list_ascii_of_string s.
Definition str (l : list ascii) : string := string_of_list_ascii l.

Definition code (c : ascii) : N := N_of_ascii c.

Definition dquote : ascii := ascii_of_N 34.

(** [\s] of a regular expression, and the characters [trim] strips:
    TAB, LF, VT, FF, CR, SPACE and NO-BREAK SPACE. *)
Definition isWhiteSpace (c : ascii) : bool :=
  let n := code c in
  ((9 <=? n)%N && (n <=? 13)%N) || (n =? 32)%N || (n =? 160)%N.

(** [String.prototype.toLowerCase] on one code unit: A-Z, and the
    Latin-1 capitals U+00C0..U+00DE without the multiplication sign. *)
Definition lowerChar (c : ascii) : ascii :=
  let n := code c in
  if ((65 <=? n)%N && (n <=? 90)%N)
     || ((192 <=? n)%N && (n <=? 222)%N && negb (n =? 215)%N)
  then ascii_of_N (n + 32) else c.

Definition toLowerCaseL (l : list ascii) : list ascii := map lowerChar l.

(** [s.replace(/_/g, " ")] *)
Definition underscoresToSpacesL (l : list ascii) : list ascii :=
  map (fun c => if Ascii.eqb c "_" then " "%char else c) l.

(** [s.replace(/\s+/g, " ")]: every maximal run of white space becomes
    one space.  [inRun] tells that the previous character was white. *)
Fixpoint collapseFrom (inRun : bool) (l : list ascii) : list ascii :=
  match l with
  | [] => []
  | c :: r =>
      if isWhiteSpace c
      then (if inRun then collapseFrom true r
            else " "%char :: collapseFrom true r)
      else c :: collapseFrom false r
  end.

Definition collapseWhiteSpaceL (l : list ascii) : list ascii :=
  collapseFrom false l.

Fixpoint trimStartL (l : list ascii) : list ascii :=
  match l with
  | [] => []
  | c :: r => if isWhiteSpace c then trimStartL r else l
  end.

Definition trimEndL (l : list ascii) : list ascii :=
  rev (trimStartL (rev l)).

Definition trimL (l : list ascii) : list ascii := trimEndL (trimStartL l).

(** [s.replace(/<[^>]*>/g, " ")].  [buf] holds, reversed, the characters
    read since an opening [<] that has not met its [>] yet; at the end of
    the input they were no match and are given back. *)
Fixpoint stripTagsFrom (buf : option (list ascii)) (l : list ascii)
  : list ascii :=
  match l with
  | [] => match buf with Some b => rev b | None => [] end
  | c :: r =>
      match buf with
      | None =>
          if Ascii.eqb c "<" then stripTagsFrom (Some [c]) r
          else c :: stripTagsFrom None r
      | Some b =>
          if Ascii.eqb c ">" then " "%char :: stripTagsFrom None r
          else stripTagsFrom (Some (c :: b)) r
      end
  end.

Fixpoint isPrefixL (p l : list ascii) : bool :=
  match p, l with
  | [], _ => true
  | a :: p', b :: l' => Ascii.eqb a b && isPrefixL p' l'
  | _ :: _, [] => false
  end.

(** [s.replace(/pat/g, rep)] for a literal, non-empty [pat]: matches are
    taken left to right and do not overlap; [skip] counts the characters
    of the current match that are still to be passed over. *)
Fixpoint replaceAllFrom (pat rep : list ascii) (skip : nat) (l : list ascii)
  : list ascii :=
  match l with
  | [] => []
  | c :: r =>
      match skip with
      | S k => replaceAllFrom pat rep k r
      | O =>
          if isPrefixL pat l
          then rep ++ replaceAllFrom pat rep (length pat - 1) r
          else c :: replaceAllFrom pat rep O r
      end
  end.

Definition replaceAllL (pat rep : string) (l : list ascii) : list ascii :=
  replaceAllFrom (chars pat) (chars rep) O l.

Definition toLowerCase (s : string) : string := str (toLowerCaseL (chars s)).
Definition trim (s : string) : string := str (trimL (chars s)).

(** [a || b] on strings: the empty string is falsy. *)
Definition orElse (a b : string) : string :=
  if String.eqb a EmptyString then b else a.

(** [a || b] where [a] may be [undefined] or [null]. *)
Definition optOrElse (a : option string) (b : string) : string :=
  match a with Some s => orElse s b | None => b end.

(** [a || null] keeps a non-empty string. *)
Definition orNull (a : option string) : option string :=
  match a with
  | Some s => if String.eqb s EmptyString then None else Some s
  | None => None
  end.

(** [a || b] on numbers: [0] and [undefined] are falsy. *)
Definition numOrElse (a : option Z) (b : Z) : Z :=
  match a with
  | Some n => if (n =? 0)%Z then b else n
  | None => b
  end.

(** [xs.join(sep)] *)
Fixpoint join (sep : string) (xs : list string) : string :=
  match xs with
  | [] => EmptyString
  | [x] => x
  | x :: r => x +:+ sep +:+ join sep r
  end.

(** Template-literal rendering of an integer. *)
Definition ofNumber (n : Z) : string := pretty n.

(** A number as the retry wrapper computes with it: an integer, or [NaN],
    which [parseInt] returns for a text that does not start with one. *)
Inductive num : Set :=
| Int (n : Z)
| NaN.

(** [a * k] *)
Definition timesNum (a : num) (k : Z) : num :=
  match a with
  | Int n => Int (n * k)
  | NaN => NaN
  end.

(** [Math.max(a, b)], which is [NaN] as soon as one argument is. *)
Definition maxNum (a b : num) : num :=
  match a, b with
  | Int x, Int y => Int (Z.max x y)
  | _, _ => NaN
  end.

(** The milliseconds that [setTimeout(r, delay)] waits in Node.js: a delay
    that is not a number from 1 to 2147483647 is set to 1. *)
Definition timeoutMs (delay : num) : Z :=
  match delay with
  | Int d => if (1 <=? d) && (d <=? 2147483647) then d else 1
  | NaN => 1
  end.

End Js.

(** ** The text normalizers of [ingestion.ts] *)

Definition stripHtml (html : option string) : string :=
  match html with
  | None => EmptyString
  | Some h =>
      if String.eqb h EmptyString then EmptyString
      else
        Js.str
          (Js.trimL
             (Js.collapseWhiteSpaceL
                (Js.replaceAllL "&#x2F;" "/"
                   (Js.replaceAllL "&#x27;" "'"
                      (Js.replaceAllL "&quot;" (String Js.dquote EmptyString)
                         (Js.replaceAllL "&gt;" ">"
                            (Js.replaceAllL "&lt;" "<"
                               (Js.replaceAllL "&amp;" "&"
                                  (Js.stripTagsFrom None (Js.chars h))))))))))
  end.

Definition normalizeConcept (c : string) : string :=
  Js.str
    (Js.trimL
       (Js.collapseWhiteSpaceL
          (Js.underscoresToSpacesL (Js.toLowerCaseL (Js.chars c))))).

Definition normalizeConcepts (concepts : list string) : list string :=
  filter (fun c => (0 < String.length c)%nat) (map normalizeConcept concepts).

(** ** Exceptions *)

(** The part of an HTTP error response that the retry wrapper reads:
    [response.status], [response.data.error.metadata.provider_name], and
    what [parseInt] reads from the [retry-after] header: [None] for a header
    that is absent or empty (the wrapper reads ["0"] in its place), the
    integer for a header that starts with one (a number of seconds), [NaN]
    for any other header (an HTTP date). *)
Module HttpResponse.
Record t := mk {
  status : Z;
  provider_name : option string;
  retry_after : option Js.num
}.
End HttpResponse.

Module Error.
(** A thrown JavaScript error: its [name], its [message] and, for an
    [AxiosError] that carries one, the HTTP [response]. *)
Record t := mk {
  name : string;
  message : string;
  response : option HttpResponse.t
}.
End Error.

Inductive Result (A : Type) : Type :=
| Ok (a : A)
| Throw (e : Error.t).
Arguments Ok {A} a.
Arguments Throw {A} e.

Definition SequelizeUniqueConstraintError : Error.t :=
  Error.mk "SequelizeUniqueConstraintError" "Validation error" None.

(** ** The analysis client: retry wrapper *)

Module Retry.

(** The [if] chain of the [catch] block of [withRetry], in source order:
    the value of [delay] before the next attempt, or [None] when the error
    is rethrown. *)
Definition retryDelay (error : Error.t) (attempt maxRetries : nat)
  : option Js.num :=
  let status := HttpResponse.status <$> Error.response error in
  let provider :=
    Error.response error ≫= HttpResponse.provider_name in
  let retryAfterHeader :=
    default (Js.Int 0) (Error.response error ≫= HttpResponse.retry_after) in
  if bool_decide (status = Some 400)
     && bool_decide (is_Some provider ∧ provider ≠ Some EmptyString)
     && (attempt <? maxRetries)%nat
  then Some (Js.Int (2000 * (Z.of_nat attempt + 1)))
  else if bool_decide (status = Some 429) && (attempt <? maxRetries)%nat
  then Some (Js.maxNum (Js.timesNum retryAfterHeader 1000)
                       (Js.Int (3000 * 2 ^ Z.of_nat attempt)))
  else if (attempt <? maxRetries)%nat
          && match status with
             | Some st => negb (st =? 0) && (500 <=? st)
             | None => false
             end
  then Some (Js.Int (2000 * 2 ^ Z.of_nat attempt))
  else None.

Definition maxRetriesExceeded : Error.t :=
  Error.mk "Error" "Max retries exceeded" None.

(** The [for] loop of [withRetry].  [fn k] is the outcome of the call made
    at attempt [k]; [remaining] counts the iterations left, so the loop
    condition [attempt <= maxRetries] is [remaining > 0].  The result
    comes with the milliseconds waited by the timers, in order. *)
Fixpoint withRetryFrom {T} (fn : nat -> Result T) (maxRetries : nat)
         (remaining attempt : nat) : Result T * list Z :=
  match remaining with
  | O => (Throw maxRetriesExceeded, [])
  | S remaining' =>
      match fn attempt with
      | Ok v => (Ok v, [])
      | Throw error =>
          match retryDelay error attempt maxRetries with
          | Some delay =>
              let '(r, delays) :=
                withRetryFrom fn maxRetries remaining' (S attempt) in
              (r, Js.timeoutMs delay :: delays)
          | None => (Throw error, [])
          end
      end
  end.

Definition withRetry {T} (fn : nat -> Result T) (maxRetries : nat)
  : Result T * list Z :=
  withRetryFrom fn maxRetries (S maxRetries) O.

(** The default of the parameter [maxRetries]. *)
Definition defaultMaxRetries : nat := 4.

(** *** The decision table

    The table of the specification, with the two points at which the code
    differs from its wording written out: the class of server errors is
    every status of 500 or more, and a wait is what the timer makes of the
    delay, so that a [Retry-After] header that [parseInt] cannot read gives
    a wait of 1 ms. *)

Inductive ErrorKind : Set :=
| RateLimited          (* HTTP 429 *)
| ServerError          (* a status of 500 or more *)
| ProviderBadRequest   (* HTTP 400 naming an upstream sub-provider *)
| OtherError.

Definition classify (error : Error.t) : ErrorKind :=
  match Error.response error with
  | None => OtherError
  | Some resp =>
      let st := HttpResponse.status resp in
      if st =? 429 then RateLimited
      else if 500 <=? st then ServerError
      else if (st =? 400)
              && match HttpResponse.provider_name resp with
                 | Some name => negb (String.eqb name EmptyString)
                 | None => false
                 end
      then ProviderBadRequest
      else OtherError
  end.

Inductive Verdict : Set :=
| RetryAfter (wait : Z)
| FailFast.

(** The server's [Retry-After], in milliseconds. *)
Definition serverRetryAfterMs (error : Error.t) : Js.num :=
  Js.timesNum
    (default (Js.Int 0) (Error.response error ≫= HttpResponse.retry_after))
    1000.

Definition table (kind : ErrorKind) (serverRetryAfter : Js.num)
           (attempt : nat) : Verdict :=
  match kind with
  | RateLimited =>
      RetryAfter
        (Js.timeoutMs
           (Js.maxNum serverRetryAfter (Js.Int (3000 * 2 ^ Z.of_nat attempt))))
  | ServerError =>
      RetryAfter (Js.timeoutMs (Js.Int (2000 * 2 ^ Z.of_nat attempt)))
  | ProviderBadRequest =>
      RetryAfter (Js.timeoutMs (Js.Int (2000 * (Z.of_nat attempt + 1))))
  | OtherError => FailFast
  end.

(** Retry as the table says while fewer than [cap] retries were made;
    otherwise, and on [FailFast], hand the error to the caller.
    [remaining] is the number of retries still allowed. *)
Fixpoint tableRetryFrom {T} (fn : nat -> Result T)
         (remaining attempt : nat) : Result T * list Z :=
  match fn attempt with
  | Ok v => (Ok v, [])
  | Throw error =>
      match remaining with
      | O => (Throw error, [])
      | S remaining' =>
          match table (classify error) (serverRetryAfterMs error) attempt with
          | RetryAfter wait =>
              let '(r, delays) :=
                tableRetryFrom fn remaining' (S attempt) in
              (r, wait :: delays)
          | FailFast => (Throw error, [])
          end
      end
  end.

Definition tableRetry {T} (fn : nat -> Result T) (cap : nat)
  : Result T * list Z :=
  tableRetryFrom fn cap O.

(** The wait that the specification words for a 429:
    [max(serverRetryAfter, base * 2^attempt)], with the server's value in
    seconds and the base of 3000 ms. *)
Definition specWait429 (retryAfterSeconds : Z) (attempt : nat) : Z :=
  Z.max (retryAfterSeconds * 1000) (3000 * 2 ^ Z.of_nat attempt).

End Retry.

(** ** The analysis client: response parsing *)

(** [JSON.parse]: a recursive-descent reader of the JSON grammar (ECMA-404).
    It accepts exactly the texts of the grammar; the value it returns keeps
    number and string lexemes as they are written. *)
Module Json.

#[warnings="-register-all"]
Inductive value : Type :=
| Null
| Bool (b : bool)
| Number (lexeme : string)
| Str (raw : string)
| Array (elements : list value)
| Object (members : list (string * value)).

Definition isWs (c : ascii) : bool :=
  let n := Js.code c in
  (n =? 32)%N || (n =? 9)%N || (n =? 10)%N || (n =? 13)%N.

Definition isDigit (c : ascii) : bool :=
  let n := Js.code c in (48 <=? n)%N && (n <=? 57)%N.

Definition isHex (c : ascii) : bool :=
  let n := Js.code c in
  isDigit c || ((65 <=? n)%N && (n <=? 70)%N)
  || ((97 <=? n)%N && (n <=? 102)%N).

Fixpoint skipWs (l : list ascii) : list ascii :=
  match l with
  | c :: r => if isWs c then skipWs r else l
  | [] => []
  end.

Fixpoint digits (l : list ascii) : list ascii * list ascii :=
  match l with
  | c :: r =>
      if isDigit c then let '(d, rest) := digits r in (c :: d, rest)
      else ([], l)
  | [] => ([], [])
  end.

Definition isSimpleEscape (c : ascii) : bool :=
  existsb (Ascii.eqb c)
          [Js.dquote; "\"%char; "/"%char; "b"%char; "f"%char; "n"%char;
           "r"%char; "t"%char].

(** The characters of a string after its opening quote, up to the closing
    one; [acc] holds what was read, reversed. *)
Fixpoint stringBody (acc l : list ascii) : option (list ascii * list ascii) :=
  match l with
  | [] => None
  | c :: r =>
      if Ascii.eqb c Js.dquote then Some (rev acc, r)
      else if Ascii.eqb c "\" then
        match r with
        | e :: r' =>
            if isSimpleEscape e then stringBody (e :: c :: acc) r'
            else if Ascii.eqb e "u" then
              match r' with
              | h1 :: h2 :: h3 :: h4 :: r'' =>
                  if isHex h1 && isHex h2 && isHex h3 && isHex h4
                  then stringBody (h4 :: h3 :: h2 :: h1 :: e :: c :: acc) r''
                  else None
              | _ => None
              end
            else None
        | [] => None
        end
      else if (Js.code c <? 32)%N then None
      else stringBody (c :: acc) r
  end.

Definition fraction (l : list ascii) : option (list ascii * list ascii) :=
  match l with
  | "."%char :: r =>
      match digits r with
      | ([], _) => None
      | (d, rest) => Some ("."%char :: d, rest)
      end
  | _ => Some ([], l)
  end.

Definition exponent (l : list ascii) : option (list ascii * list ascii) :=
  match l with
  | c :: r =>
      if Ascii.eqb c "e" || Ascii.eqb c "E" then
        let '(sign, r1) :=
          match r with
          | s :: r' =>
              if Ascii.eqb s "+" || Ascii.eqb s "-" then ([s], r')
              else ([], r)
          | [] => ([], r)
          end in
        match digits r1 with
        | ([], _) => None
        | (d, rest) => Some (c :: sign ++ d, rest)
        end
      else Some ([], l)
  | [] => Some ([], l)
  end.

Definition number (l : list ascii) : option (list ascii * list ascii) :=
  let '(sign, r0) :=
    match l with
    | "-"%char :: r => (["-"%char], r)
    | _ => ([], l)
    end in
  let int :=
    match r0 with
    | "0"%char :: r => Some (["0"%char], r)
    | _ => match digits r0 with
           | ([], _) => None
           | (d, rest) => Some (d, rest)
           end
    end in
  match int with
  | None => None
  | Some (i, r1) =>
      match fraction r1 with
      | None => None
      | Some (f, r2) =>
          match exponent r2 with
          | None => None
          | Some (e, r3) => Some (sign ++ i ++ f ++ e, r3)
          end
      end
  end.

Definition literal (word : string) (v : value) (l : list ascii)
  : option (value * list ascii) :=
  if Js.isPrefixL (Js.chars word) l
  then Some (v, drop (String.length word) l) else None.

(** One value; the elements of an array from some element on; the members
    of an object from some member on.  Each starts after leading white
    space and returns the text that follows what it read.  [fuel] bounds
    the depth of the calls: a call hands fuel down at most twice for one
    character read, so twice the length of the text is enough. *)
Fixpoint parseValue (fuel : nat) (l : list ascii)
  : option (value * list ascii) :=
  match fuel with
  | O => None
  | S fuel' =>
      match skipWs l with
      | [] => None
      | c :: r =>
          if Ascii.eqb c "{" then
            match skipWs r with
            | "}"%char :: r' => Some (Object [], r')
            | _ =>
                match parseMembers fuel' r with
                | Some (ms, r') => Some (Object ms, r')
                | None => None
                end
            end
          else if Ascii.eqb c "[" then
            match skipWs r with
            | "]"%char :: r' => Some (Array [], r')
            | _ =>
                match parseElements fuel' r with
                | Some (vs, r') => Some (Array vs, r')
                | None => None
                end
            end
          else if Ascii.eqb c Js.dquote then
            match stringBody [] r with
            | Some (body, r') => Some (Str (Js.str body), r')
            | None => None
            end
          else if Ascii.eqb c "t" then literal "true" (Bool true) (c :: r)
          else if Ascii.eqb c "f" then literal "false" (Bool false) (c :: r)
          else if Ascii.eqb c "n" then literal "null" Null (c :: r)
          else
            match number (c :: r) with
            | Some (lexeme, r') => Some (Number (Js.str lexeme), r')
            | None => None
            end
      end
  end
with parseElements (fuel : nat) (l : list ascii)
  : option (list value * list ascii) :=
  match fuel with
  | O => None
  | S fuel' =>
      match parseValue fuel' l with
      | None => None
      | Some (v, r) =>
          match skipWs r with
          | ","%char :: r' =>
              match parseElements fuel' r' with
              | Some (vs, r'') => Some (v :: vs, r'')
              | None => None
              end
          | "]"%char :: r' => Some ([v], r')
          | _ => None
          end
      end
  end
with parseMembers (fuel : nat) (l : list ascii)
  : option (list (string * value) * list ascii) :=
  match fuel with
  | O => None
  | S fuel' =>
      match skipWs l with
      | q :: r =>
          if Ascii.eqb q Js.dquote then
            match stringBody [] r with
            | None => None
            | Some (key, r1) =>
                match skipWs r1 with
                | ":"%char :: r2 =>
                    match parseValue fuel' r2 with
                    | None => None
                    | Some (v, r3) =>
                        match skipWs r3 with
                        | ","%char :: r4 =>
                            match parseMembers fuel' r4 with
                            | Some (ms, r5) =>
                                Some ((Js.str key, v) :: ms, r5)
                            | None => None
                            end
                        | "}"%char :: r4 => Some ([(Js.str key, v)], r4)
                        | _ => None
                        end
                    end
                | _ => None
                end
            end
          else None
      | [] => None
      end
  end.

(** [JSON.parse(text)]: one value, white space around it, nothing else.
    [None] stands for the [SyntaxError]. *)
Definition parse (text : string) : option value :=
  let l := Js.chars text in
  match parseValue (2 * length l + 2) l with
  | Some (v, rest) =>
      match skipWs rest with
      | [] => Some v
      | _ :: _ => None
      end
  | None => None
  end.

End Json.

Module OpenRouter.

(** The longest prefix of [l] that ends in a closing brace: what
    [[\s\S]*\}] matches, by greedy matching. *)
Fixpoint throughLastClose (l : list ascii) : option (list ascii) :=
  match l with
  | [] => None
  | c :: r =>
      match throughLastClose r with
      | Some p => Some (c :: p)
      | None => if Ascii.eqb c "}" then Some [c] else None
      end
  end.

(** [content.match(/\{[\s\S]*\}/)]: the leftmost opening brace, and
    from there as far as the regular expression can reach. *)
Fixpoint matchObject (l : list ascii) : option (list ascii) :=
  match l with
  | [] => None
  | c :: r =>
      if Ascii.eqb c "{"
      then match throughLastClose r with
           | Some p => Some (c :: p)
           | None => None
           end
      else matchObject r
  end.

Definition syntaxError : Error.t :=
  Error.mk "SyntaxError" "Unexpected token in JSON" None.

(** [content.slice(0, 200)] *)
Definition slice200 (content : string) : string :=
  Js.str (take 200 (Js.chars content)).

Definition parseFailure (content : string) : Error.t :=
  Error.mk "Error"
           ("Failed to parse JSON from response: " +:+ slice200 content)
           None.

(** Parse JSON robustly: handles extra text before or after the JSON. *)
Definition parseJsonResponse (content : string) : Result Json.value :=
  match Json.parse content with
  | Some v => Ok v
  | None =>
      match matchObject (Js.chars content) with
      | Some m =>
          match Json.parse (Js.str m) with
          | Some v => Ok v
          | None => Throw syntaxError
          end
      | None => Throw (parseFailure content)
      end
  end.

(** The two chat calls, [analyzeStory] and [analyzeComment]:
    [withRetry(async () => parseJsonResponse((await client.post(...))
    .data.choices[0].message.content))].  [post k] is the content of the
    reply to the request of attempt [k], or the error it raised. *)
Definition chatCompletion (post : nat -> Result string)
  : Result Json.value * list Z :=
  Retry.withRetry
    (fun attempt =>
       match post attempt with
       | Ok content => parseJsonResponse content
       | Throw e => Throw e
       end)
    Retry.defaultMaxRetries.

(** [generateEmbedding]: [withRetry(async () => (await client.post(...))
    .data.data[0].embedding)]. *)
Definition embeddingCall {V} (post : nat -> Result V) : Result V * list Z :=
  Retry.withRetry post Retry.defaultMaxRetries.

(** *** The scan as the specification words it *)

(** From just after an opening brace at depth [depth]: the text up to the
    brace that closes it. *)
Fixpoint balancedFrom (depth : nat) (l : list ascii) : option (list ascii) :=
  match l with
  | [] => None
  | c :: r =>
      if Ascii.eqb c "{" then
        option_map (cons c) (balancedFrom (S depth) r)
      else if Ascii.eqb c "}" then
        match depth with
        | O => Some [c]
        | S d => option_map (cons c) (balancedFrom d r)
        end
      else option_map (cons c) (balancedFrom depth r)
  end.

(** The first balanced [{...}] substring of the text. *)
Fixpoint firstBalanced (l : list ascii) : option (list ascii) :=
  match l with
  | [] => None
  | c :: r =>
      if Ascii.eqb c "{"
      then match balancedFrom O r with
           | Some p => Some (c :: p)
           | None => firstBalanced r
           end
      else firstBalanced r
  end.

End OpenRouter.

(** ** Data model *)

(** An item of the upstream feed ([hn.HNItem]); optional fields are
    [undefined] when absent. *)
Module HNItem.
Record t := mk {
  id : Z;
  type : string;
  by_ : option string;
  time : Z;
  text : option string;
  url : option string;
  title : option string;
  score : option Z;
  descendants : option Z;
  kids : option (list Z);
  parent : option Z;
  deleted : bool;
  dead : bool
}.
End HNItem.

(** [openrouter.StoryAnalysis] *)
Module StoryAnalysis.
Record t := mk {
  core_idea : string;
  concepts : list string;
  technologies : list string;
  entities : list string;
  community_angle : string;
  sentiment : string;
  sentiment_score : Q;
  controversy_potential : string;
  intellectual_depth : string
}.
End StoryAnalysis.

(** [openrouter.CommentAnalysis] *)
Module CommentAnalysis.
Record t := mk {
  argument_summary : string;
  concepts : list string;
  technologies : list string;
  entities : list string;
  comment_type : string;
  sentiment : string;
  sentiment_score : Q
}.
End CommentAnalysis.

(** A row of the [stories] table ([models/Story.ts]).  The surrogate key
    [id] and the ORM time stamps are not read by the orchestrator and are
    left out; a model instance denotes the first row with its [hnId]. *)
Module Story.
Record t := mk {
  hnId : Z;
  title : string;
  url : option string;
  text : option string;
  by_ : string;
  score : Z;
  time : Z;
  descendants : Z;
  coreIdea : option string;
  concepts : option (list string);
  technologies : option (list string);
  entities : option (list string);
  communityAngle : option string;
  sentiment : option string;
  sentimentScore : option Q;
  controversyPotential : option string;
  intellectualDepth : option string;
  analysisVersion : option string;
  embedded : bool;
  processedAt : option Z
}.

(** The argument of [instance.update({...})]: a field is [Some v] when
    the object literal has the key, [None] when it has not. *)
Record Patch := mkPatch {
  p_score : option Z;
  p_descendants : option Z;
  p_coreIdea : option string;
  p_concepts : option (list string);
  p_technologies : option (list string);
  p_entities : option (list string);
  p_communityAngle : option string;
  p_sentiment : option string;
  p_sentimentScore : option Q;
  p_controversyPotential : option string;
  p_intellectualDepth : option string;
  p_analysisVersion : option string;
  p_embedded : option bool;
  p_processedAt : option Z
}.

(** A written nullable column takes the new value, an unwritten one
    keeps the old one. *)
Definition setCol {A} (new : option A) (old : option A) : option A :=
  match new with Some v => Some v | None => old end.

Definition applyPatch (p : Patch) (s : t) : t :=
  mk (hnId s) (title s) (url s) (text s) (by_ s)
     (default (score s) (p_score p))
     (time s)
     (default (descendants s) (p_descendants p))
     (setCol (p_coreIdea p) (coreIdea s))
     (setCol (p_concepts p) (concepts s))
     (setCol (p_technologies p) (technologies s))
     (setCol (p_entities p) (entities s))
     (setCol (p_communityAngle p) (communityAngle s))
     (setCol (p_sentiment p) (sentiment s))
     (setCol (p_sentimentScore p) (sentimentScore s))
     (setCol (p_controversyPotential p) (controversyPotential s))
     (setCol (p_intellectualDepth p) (intellectualDepth s))
     (setCol (p_analysisVersion p) (analysisVersion s))
     (default (embedded s) (p_embedded p))
     (setCol (p_processedAt p) (processedAt s)).
End Story.

(** A row of the [comments] table ([models/Comment.ts]). *)
Module Comment.
Record t := mk {
  hnId : Z;
  storyHnId : Z;
  parentHnId : option Z;
  text : option string;
  by_ : option string;
  time : Z;
  argumentSummary : option string;
  concepts : option (list string);
  technologies : option (list string);
  entities : option (list string);
  commentType : option string;
  sentiment : option string;
  sentimentScore : option Q;
  analysisVersion : option string;
  embedded : bool;
  processedAt : option Z
}.

Record Patch := mkPatch {
  p_argumentSummary : option string;
  p_concepts : option (list string);
  p_technologies : option (list string);
  p_entities : option (list string);
  p_commentType : option string;
  p_sentiment : option string;
  p_sentimentScore : option Q;
  p_analysisVersion : option string;
  p_embedded : option bool;
  p_processedAt : option Z
}.

Definition setCol {A} (new : option A) (old : option A) : option A :=
  match new with Some v => Some v | None => old end.

Definition applyPatch (p : Patch) (c : t) : t :=
  mk (hnId c) (storyHnId c) (parentHnId c) (text c) (by_ c) (time c)
     (setCol (p_argumentSummary p) (argumentSummary c))
     (setCol (p_concepts p) (concepts c))
     (setCol (p_technologies p) (technologies c))
     (setCol (p_entities p) (entities c))
     (setCol (p_commentType p) (commentType c))
     (setCol (p_sentiment p) (sentiment c))
     (setCol (p_sentimentScore p) (sentimentScore c))
     (setCol (p_analysisVersion p) (analysisVersion c))
     (default (embedded c) (p_embedded p))
     (setCol (p_processedAt p) (processedAt c)).
End Comment.

(** The result summary of one cycle ([workerState.lastRunResult]). *)
Module CycleResult.
Record t := mk {
  ingested : Z;
  skipped : Z;
  tooOld : Z;
  errors : Z;
  commentsProcessed : Z;
  newComments : Z
}.
End CycleResult.

(** [workerState] *)
Module WorkerState.
Record t := mk {
  running : bool;
  lastRunAt : option Z;
  lastRunResult : option CycleResult.t;
  totalProcessed : Z;
  totalEmbedded : Z;
  currentlyProcessing : option string;
  cycleStartedAt : option Z;
  cycleTotal : Z;
  cycleCurrent : Z;
  cyclePhase : option string;
  errors : list string
}.

Definition initial : t :=
  mk false None None 0 0 None None 0 0 None [].

Definition setCurrentlyProcessing (v : option string) (s : t) : t :=
  mk (running s) (lastRunAt s) (lastRunResult s) (totalProcessed s)
     (totalEmbedded s) v (cycleStartedAt s) (cycleTotal s) (cycleCurrent s)
     (cyclePhase s) (errors s).

Definition incrTotalProcessed (s : t) : t :=
  mk (running s) (lastRunAt s) (lastRunResult s) (totalProcessed s + 1)
     (totalEmbedded s) (currentlyProcessing s) (cycleStartedAt s)
     (cycleTotal s) (cycleCurrent s) (cyclePhase s) (errors s).

Definition incrTotalEmbedded (s : t) : t :=
  mk (running s) (lastRunAt s) (lastRunResult s) (totalProcessed s)
     (totalEmbedded s + 1) (currentlyProcessing s) (cycleStartedAt s)
     (cycleTotal s) (cycleCurrent s) (cyclePhase s) (errors s).

Definition startCycle (total : Z) (s : t) : t :=
  mk (running s) (lastRunAt s) (lastRunResult s) (totalProcessed s)
     (totalEmbedded s) (currentlyProcessing s) (cycleStartedAt s)
     total 0 (Some "stories+comments") (errors s).

Definition incrCycleCurrent (s : t) : t :=
  mk (running s) (lastRunAt s) (lastRunResult s) (totalProcessed s)
     (totalEmbedded s) (currentlyProcessing s) (cycleStartedAt s)
     (cycleTotal s) (cycleCurrent s + 1) (cyclePhase s) (errors s).

(** [errors.push(msg); if (errors.length > 50) errors.shift();] *)
Definition ringPush (msg : string) (errs : list string) : list string :=
  let pushed := errs ++ [msg] in
  if (50 <? length pushed)%nat then tail pushed else pushed.

Definition pushError (msg : string) (s : t) : t :=
  mk (running s) (lastRunAt s) (lastRunResult s) (totalProcessed s)
     (totalEmbedded s) (currentlyProcessing s) (cycleStartedAt s)
     (cycleTotal s) (cycleCurrent s) (cyclePhase s)
     (ringPush msg (errors s)).
End WorkerState.

(** Everything the orchestrators read and write: the two tables and the
    worker state. *)
Module World.
Record t := mk {
  stories : list Story.t;
  comments : list Comment.t;
  workerState : WorkerState.t
}.

Definition empty : t := mk [] [] WorkerState.initial.

Definition withStories (f : list Story.t -> list Story.t) (w : t) : t :=
  mk (f (stories w)) (comments w) (workerState w).
Definition withComments (f : list Comment.t -> list Comment.t) (w : t) : t :=
  mk (stories w) (f (comments w)) (workerState w).
Definition withWorker (f : WorkerState.t -> WorkerState.t) (w : t) : t :=
  mk (stories w) (comments w) (f (workerState w)).
End World.

(** The environment variables read at module load. *)
Module Config.
Record t := mk {
  MAX_AGE_HOURS : Z;
  MAX_STORIES : Z;
  MAX_COMMENTS_PER_STORY : Z;
  NEW_COMMENTS_BATCH : Z
}.

(** The values taken when the variables are unset. *)
Definition defaults : t := mk 8 0 0 10.
End Config.

(** [openrouter.ANALYSIS_VERSION] *)
Definition ANALYSIS_VERSION : string := "6".

(** An embedding vector; its content is opaque to the orchestrator. *)
Definition Embedding : Type := list Q.

(** The metadata object stored with the vector of a story (the third
    argument of [chroma.addStoryEmbedding]).  [concepts] is the list whose
    [JSON.stringify] text is stored. *)
Module StoryMetadata.
Record t := mk {
  hnId : Z;
  title : string;
  coreIdea : string;
  sentiment : string;
  controversyPotential : string;
  intellectualDepth : string;
  concepts : list string;
  time : Z;
  score : Z
}.
End StoryMetadata.

(** The metadata object stored with the vector of a comment. *)
Module CommentMetadata.
Record t := mk {
  hnId : Z;
  storyHnId : Z;
  by_ : string;
  commentType : string;
  sentiment : string;
  concepts : list string;
  time : Z
}.
End CommentMetadata.

(** The collaborators: the clock, the upstream client [hn], the analysis
    client [openrouter] and the vector index client [chroma]. *)
Module Env.
Record t := mk {
  now : Z;
  fetchTopStoryIds : Result (list Z);
  fetchNewStoryIds : Result (list Z);
  fetchItem : Z -> Result (option HNItem.t);
  fetchItems : list Z -> Result (list (option HNItem.t));
  analyzeStory : string -> string -> option string -> Result StoryAnalysis.t;
  analyzeComment :
    string -> string -> option string -> Result CommentAnalysis.t;
  generateEmbedding : string -> Result Embedding;
  addStoryEmbedding : Z -> Embedding -> StoryMetadata.t -> Result unit;
  addCommentEmbedding : Z -> Embedding -> CommentMetadata.t -> Result unit
}.
End Env.

(** ** A state-and-exception monad for the [async] functions *)

Definition M (A : Type) : Type := World.t -> Result A * World.t.

Definition ret {A} (a : A) : M A := fun w => (Ok a, w).

Definition throw {A} (e : Error.t) : M A := fun w => (Throw e, w).

Definition bind {A B} (m : M A) (k : A -> M B) : M B :=
  fun w =>
    match m w with
    | (Ok a, w') => k a w'
    | (Throw e, w') => (Throw e, w')
    end.

(** [try { m } catch (err) { h err }] *)
Definition tryCatch {A} (m : M A) (h : Error.t -> M A) : M A :=
  fun w =>
    match m w with
    | (Ok a, w') => (Ok a, w')
    | (Throw e, w') => h e w'
    end.

(** Awaiting a collaborator's answer. *)
Definition await {A} (r : Result A) : M A := fun w => (r, w).

Definition get : M World.t := fun w => (Ok w, w).

Definition modify (f : World.t -> World.t) : M unit := fun w => (Ok tt, f w).

Notation "'let*' x ':=' m 'in' k" := (bind m (fun x => k))
  (at level 10, x pattern, m at level 100, k at level 200).
Notation "m ';;;' k" := (bind m (fun _ => k))
  (at level 100, k at level 200, right associativity).

(** ** Table operations (the Sequelize calls of the orchestrator) *)

Module Stories.
(** [Story.findOne({ where: { hnId } })] *)
Definition findOne (hnId : Z) : M (option Story.t) :=
  fun w => (Ok (find (fun s => Story.hnId s =? hnId) (World.stories w)), w).

(** The row inserted by [Story.create]: unset columns take their
    defaults. *)
Definition fresh (hnId : Z) (title : string) (url text : option string)
           (by_ : string) (score time descendants : Z) : Story.t :=
  Story.mk hnId title url text by_ score time descendants
           None None None None None None None None None None false None.

(** [Story.create({...})]: the unique index on [hnId] rejects a second
    row with the same identifier.  This is the database's answer for a row
    whose values fit their columns; a row with a value that does not fit
    (an [INTEGER] column takes a signed 32-bit number only) is rejected
    too, which [storyFits] below is there to exclude. *)
Definition create (row : Story.t) : M Story.t :=
  fun w =>
    if existsb (fun s => Story.hnId s =? Story.hnId row) (World.stories w)
    then (Throw SequelizeUniqueConstraintError, w)
    else (Ok row, World.withStories (fun l => l ++ [row]) w).
End Stories.

Module Comments.
(** [Comment.findOne({ where: { hnId } })] *)
Definition findOne (hnId : Z) : M (option Comment.t) :=
  fun w =>
    (Ok (find (fun c => Comment.hnId c =? hnId) (World.comments w)), w).

(** [Comment.findAll({ where: { hnId: { [Op.in]: ids } } })] *)
Definition findAllIn (ids : list Z) : M (list Comment.t) :=
  fun w =>
    (Ok (filter (fun c => Comment.hnId c ∈ ids) (World.comments w)), w).

Definition fresh (hnId storyHnId : Z) (parentHnId : option Z)
           (text by_ : option string) (time : Z) : Comment.t :=
  Comment.mk hnId storyHnId parentHnId text by_ time
             None None None None None None None None false None.

(** [Comment.create({...})], for a row whose values fit their columns
    ([commentFits] below). *)
Definition create (row : Comment.t) : M Comment.t :=
  fun w =>
    if existsb (fun c => Comment.hnId c =? Comment.hnId row)
               (World.comments w)
    then (Throw SequelizeUniqueConstraintError, w)
    else (Ok row, World.withComments (fun l => l ++ [row]) w).
End Comments.

(** [instance.update(patch)]: the row the instance stands for is the first
    one that [p] holds of. *)
Fixpoint updateFirst {A} (p : A -> bool) (f : A -> A) (l : list A) : list A :=
  match l with
  | [] => []
  | x :: r => if p x then f x :: r else x :: updateFirst p f r
  end.

Definition updateStory (instance : Story.t) (p : Story.Patch) : M unit :=
  modify (World.withStories
            (updateFirst (fun s => Story.hnId s =? Story.hnId instance)
                         (Story.applyPatch p))).

Definition updateComment (instance : Comment.t) (p : Comment.Patch) : M unit :=
  modify (World.withComments
            (updateFirst (fun c => Comment.hnId c =? Comment.hnId instance)
                         (Comment.applyPatch p))).

(** ** The ingestion orchestrator *)

(** The classification returned by [processStoryOnly]:
    ["new" | "cached" | "too_old" | "error"]. *)
Inductive StoryResult : Set := New | Cached | TooOld | ErrorResult.

Section Ingestion.
Variable cfg : Config.t.
Variable env : Env.t.

Definition isRecent (unixTime : Z) : bool :=
  let ageMs := Env.now env - unixTime * 1000 in
  ageMs <=? Config.MAX_AGE_HOURS cfg * 60 * 60 * 1000.

(** [`${err?.message || "unknown"}`] *)
Definition messageOr (e : Error.t) (dflt : string) : string :=
  Js.orElse (Error.message e) dflt.

Definition storyEmbeddingText (analysis : StoryAnalysis.t)
           (concepts : list string) : string :=
  Js.orElse (StoryAnalysis.core_idea analysis) EmptyString
  +:+ ". Concepts: " +:+ Js.join ", " concepts
  +:+ ". " +:+ Js.orElse (StoryAnalysis.community_angle analysis) EmptyString
  +:+ ". Entities: " +:+ Js.join ", " (StoryAnalysis.entities analysis).

(** The object literal of lines 91-104. *)
Definition storyAnalysisPatch (analysis : StoryAnalysis.t)
           (concepts : list string) : Story.Patch :=
  Story.mkPatch
    None None
    (Some (Js.orElse (StoryAnalysis.core_idea analysis) EmptyString))
    (Some concepts)
    (Some (StoryAnalysis.technologies analysis))
    (Some (StoryAnalysis.entities analysis))
    (Some (Js.orElse (StoryAnalysis.community_angle analysis) EmptyString))
    (Some (StoryAnalysis.sentiment analysis))
    (Some (StoryAnalysis.sentiment_score analysis))
    (Some (StoryAnalysis.controversy_potential analysis))
    (Some (StoryAnalysis.intellectual_depth analysis))
    (Some ANALYSIS_VERSION)
    (Some true)
    (Some (Env.now env)).

(** The object literal of lines 105-115.  Its [concepts] are
    [analysis.concepts] as the analysis returned them, not the normalized
    list that goes to the table. *)
Definition storyMetadata (item : HNItem.t) (analysis : StoryAnalysis.t)
  : StoryMetadata.t :=
  StoryMetadata.mk
    (HNItem.id item)
    (Js.optOrElse (HNItem.title item) EmptyString)
    (StoryAnalysis.core_idea analysis)
    (StoryAnalysis.sentiment analysis)
    (StoryAnalysis.controversy_potential analysis)
    (StoryAnalysis.intellectual_depth analysis)
    (StoryAnalysis.concepts analysis)
    (HNItem.time item)
    (Js.numOrElse (HNItem.score item) 0).

(** The body of the [try] block of lines 83-119. *)
Definition analyzeNewStory (item : HNItem.t) (story : Story.t)
           (rawText : string) : M unit :=
  let* analysis :=
    await (Env.analyzeStory env (Js.optOrElse (HNItem.title item) EmptyString)
                            rawText (Js.orNull (HNItem.url item))) in
  let concepts := normalizeConcepts (StoryAnalysis.concepts analysis) in
  let* embedding :=
    await (Env.generateEmbedding env (storyEmbeddingText analysis concepts)) in
  updateStory story (storyAnalysisPatch analysis concepts) ;;;
  await (Env.addStoryEmbedding env (HNItem.id item) embedding
                               (storyMetadata item analysis)) ;;;
  modify (World.withWorker WorkerState.incrTotalEmbedded).

(** The object literal of lines 132-135. *)
Definition refreshPatch (item : HNItem.t) (existing : Story.t)
  : Story.Patch :=
  Story.mkPatch
    (Some (Js.numOrElse (HNItem.score item) (Story.score existing)))
    (Some (Js.numOrElse (HNItem.descendants item)
                        (Story.descendants existing)))
    None None None None None None None None None None None None.

(** The argument of [Story.create] (lines 69-78). *)
Definition newStoryRow (item : HNItem.t) : Story.t :=
  Stories.fresh
    (HNItem.id item)
    (Js.optOrElse (HNItem.title item) EmptyString)
    (Js.orNull (HNItem.url item))
    (Js.orNull (HNItem.text item))
    (Js.optOrElse (HNItem.by_ item) "unknown")
    (Js.numOrElse (HNItem.score item) 0)
    (HNItem.time item)
    (Js.numOrElse (HNItem.descendants item) 0).

(** [existing ? "cached" : "error"] *)
Definition cachedOrError (existing : option Story.t) : StoryResult :=
  match existing with Some _ => Cached | None => ErrorResult end.

(** Pass 1: ingest or update a story (no comment processing). *)
Definition processStoryOnly (hnId : Z)
  : M (StoryResult * option HNItem.t) :=
  let* existing := Stories.findOne hnId in
  let* fetched := await (Env.fetchItem env hnId) in
  match fetched with
  | None => ret (cachedOrError existing, None)
  | Some item =>
      if negb (String.eqb (HNItem.type item) "story")
      then ret (cachedOrError existing, None)
      else if negb (isRecent (HNItem.time item))
      then ret (TooOld, Some item)
      else
        match existing with
        | None =>
            modify (World.withWorker
                      (WorkerState.setCurrentlyProcessing
                         (Some (Js.optOrElse (HNItem.title item)
                                             ("story " +:+ Js.ofNumber hnId))))) ;;;
            let* story := Stories.create (newStoryRow item) in
            let rawText := stripHtml (HNItem.text item) in
            let textForAnalysis :=
              Js.trim (Js.optOrElse (HNItem.title item) EmptyString
                       +:+ " " +:+ rawText) in
            (if (0 <? String.length textForAnalysis)%nat
             then
               tryCatch
                 (analyzeNewStory item story rawText)
                 (fun err =>
                    modify (World.withWorker
                              (WorkerState.pushError
                                 ("story " +:+ Js.ofNumber hnId +:+ ": "
                                  +:+ messageOr err "unknown"))))
             else ret tt) ;;;
            modify (World.withWorker WorkerState.incrTotalProcessed) ;;;
            ret (New, Some item)
        | Some ex =>
            updateStory ex (refreshPatch item ex) ;;;
            ret (Cached, Some item)
        end
  end.

Definition commentEmbeddingText (analysis : CommentAnalysis.t)
           (concepts : list string) : string :=
  Js.orElse (CommentAnalysis.argument_summary analysis) EmptyString
  +:+ ". Concepts: " +:+ Js.join ", " concepts.

(** The object literal of lines 220-231. *)
Definition commentAnalysisPatch (analysis : CommentAnalysis.t)
           (concepts : list string) : Comment.Patch :=
  Comment.mkPatch
    (Some (Js.orElse (CommentAnalysis.argument_summary analysis) EmptyString))
    (Some concepts)
    (Some (CommentAnalysis.technologies analysis))
    (Some (CommentAnalysis.entities analysis))
    (Some (Js.orElse (CommentAnalysis.comment_type analysis)
                     "meta_commentary"))
    (Some (CommentAnalysis.sentiment analysis))
    (Some (CommentAnalysis.sentiment_score analysis))
    (Some ANALYSIS_VERSION)
    (Some true)
    (Some (Env.now env)).

(** The object literal of lines 233-241. *)
Definition commentMetadata (ci : HNItem.t) (storyHnId : Z)
           (analysis : CommentAnalysis.t) (concepts : list string)
  : CommentMetadata.t :=
  CommentMetadata.mk
    (HNItem.id ci)
    storyHnId
    (Js.optOrElse (HNItem.by_ ci) "unknown")
    (Js.orElse (CommentAnalysis.comment_type analysis) "meta_commentary")
    (CommentAnalysis.sentiment analysis)
    concepts
    (HNItem.time ci).

(** The body of the inner [try] block of lines 214-244. *)
Definition analyzeNewComment (ci : HNItem.t) (storyHnId : Z)
           (comment : Comment.t)
           (commentText storyTitle : string) (parentContext : option string)
  : M bool :=
  let* analysis :=
    await (Env.analyzeComment env commentText storyTitle parentContext) in
  let concepts := normalizeConcepts (CommentAnalysis.concepts analysis) in
  let* embedding :=
    await (Env.generateEmbedding env
             (commentEmbeddingText analysis concepts)) in
  updateComment comment (commentAnalysisPatch analysis concepts) ;;;
  await (Env.addCommentEmbedding env (HNItem.id ci) embedding
                                 (commentMetadata ci storyHnId analysis
                                                  concepts)) ;;;
  modify (World.withWorker WorkerState.incrTotalEmbedded) ;;;
  ret true.

(** [ci.parent || null] *)
Definition parentOrNull (p : option Z) : option Z :=
  match p with
  | Some n => if n =? 0 then None else Some n
  | None => None
  end.

(** The argument of [Comment.create] (lines 203-210). *)
Definition newCommentRow (ci : HNItem.t) (storyHnId : Z) : Comment.t :=
  Comments.fresh (HNItem.id ci) storyHnId
                 (parentOrNull (HNItem.parent ci))
                 (Js.orNull (HNItem.text ci))
                 (Js.orNull (HNItem.by_ ci))
                 (HNItem.time ci).

Definition processComment (ci : HNItem.t) (storyHnId : Z)
           (storyTitle : string) (parentContext : option string) : M bool :=
  tryCatch
    (let* comment := Comments.create (newCommentRow ci storyHnId) in
     let commentText := stripHtml (HNItem.text ci) in
     if (30 <? String.length commentText)%nat
     then
       tryCatch
         (analyzeNewComment ci storyHnId comment commentText storyTitle
                            parentContext)
         (fun _ => ret false)
     else ret false)
    (fun err =>
       if String.eqb (Error.name err) "SequelizeUniqueConstraintError"
       then ret false
       else ret false).

(** The type guard of [validComments]. *)
Definition isValidComment (c : option HNItem.t) : option HNItem.t :=
  match c with
  | Some ci =>
      if String.eqb (HNItem.type ci) "comment"
         && negb (HNItem.deleted ci) && negb (HNItem.dead ci)
      then Some ci else None
  | None => None
  end.

(** [xs.slice(0, n)] for an integer [n > 0]. *)
Definition sliceTo {A} (n : Z) (xs : list A) : list A := take (Z.to_nat n) xs.

(** The summaries loaded from the table before the loop (lines 163-167). *)
Definition summariesOf (rows : list Comment.t) : gmap Z string :=
  foldl (fun m ec =>
           match Js.orNull (Comment.argumentSummary ec) with
           | Some summary => <[Comment.hnId ec := summary]> m
           | None => m
           end) ∅ rows.

(** The loop of lines 170-192.  The counters and the summary map are the
    loop's local variables; [break] ends the recursion. *)
Fixpoint commentLoop (item : HNItem.t) (existingSet : gset Z)
         (todo : list HNItem.t) (parentSummaryMap : gmap Z string)
         (commentsProcessed newComments : Z) : M (Z * Z) :=
  match todo with
  | [] => ret (commentsProcessed, newComments)
  | ci :: rest =>
      if decide (HNItem.id ci ∈ existingSet)
      then commentLoop item existingSet rest parentSummaryMap
                       (commentsProcessed + 1) newComments
      else if (0 <? Config.NEW_COMMENTS_BATCH cfg)
              && (Config.NEW_COMMENTS_BATCH cfg <=? newComments)
      then ret (commentsProcessed, newComments)
      else
        let parentContext :=
          match parentOrNull (HNItem.parent ci) with
          | Some p => parentSummaryMap !! p
          | None => None
          end in
        let* ok :=
          processComment ci (HNItem.id item)
                         (Js.optOrElse (HNItem.title item) EmptyString)
                         parentContext in
        if ok
        then
          let* newComment := Comments.findOne (HNItem.id ci) in
          let map' :=
            match newComment with
            | Some nc =>
                match Js.orNull (Comment.argumentSummary nc) with
                | Some summary => <[HNItem.id ci := summary]> parentSummaryMap
                | None => parentSummaryMap
                end
            | None => parentSummaryMap
            end in
          commentLoop item existingSet rest map'
                      (commentsProcessed + 1) (newComments + 1)
        else
          commentLoop item existingSet rest parentSummaryMap
                      (commentsProcessed + 1) newComments
  end.

(** Process comments for a story: only the direct children are fetched,
    and the new analyses per cycle are limited. *)
Definition processStoryComments (item : HNItem.t) : M (Z * Z) :=
  match HNItem.kids item with
  | None => ret (0, 0)
  | Some [] => ret (0, 0)
  | Some kids =>
      let* topLevelItems := await (Env.fetchItems env kids) in
      let validComments := omap isValidComment topLevelItems in
      let toProcess :=
        if 0 <? Config.MAX_COMMENTS_PER_STORY cfg
        then sliceTo (Config.MAX_COMMENTS_PER_STORY cfg) validComments
        else validComments in
      let* existingComments :=
        Comments.findAllIn (map HNItem.id toProcess) in
      let parentSummaryMap := summariesOf existingComments in
      let existingSet : gset Z :=
        list_to_set (map Comment.hnId existingComments) in
      commentLoop item existingSet toProcess parentSummaryMap 0 0
  end.

(** [[...new Set(ids)]]: the first occurrence of each identifier, in
    order. *)
Fixpoint uniqueFrom (seen : gset Z) (ids : list Z) : list Z :=
  match ids with
  | [] => []
  | x :: r =>
      if decide (x ∈ seen) then uniqueFrom seen r
      else x :: uniqueFrom ({[x]} ∪ seen) r
  end.

Definition uniqueIds (topIds newIds : list Z) : list Z :=
  uniqueFrom ∅ (topIds ++ newIds).

Definition candidates (topIds newIds : list Z) : list Z :=
  if 0 <? Config.MAX_STORIES cfg
  then sliceTo (Config.MAX_STORIES cfg) (uniqueIds topIds newIds)
  else uniqueIds topIds newIds.

Definition countResult (result : StoryResult) (acc : CycleResult.t)
  : CycleResult.t :=
  match result with
  | New =>
      CycleResult.mk (CycleResult.ingested acc + 1) (CycleResult.skipped acc)
        (CycleResult.tooOld acc) (CycleResult.errors acc)
        (CycleResult.commentsProcessed acc) (CycleResult.newComments acc)
  | Cached =>
      CycleResult.mk (CycleResult.ingested acc) (CycleResult.skipped acc + 1)
        (CycleResult.tooOld acc) (CycleResult.errors acc)
        (CycleResult.commentsProcessed acc) (CycleResult.newComments acc)
  | TooOld =>
      CycleResult.mk (CycleResult.ingested acc) (CycleResult.skipped acc)
        (CycleResult.tooOld acc + 1) (CycleResult.errors acc)
        (CycleResult.commentsProcessed acc) (CycleResult.newComments acc)
  | ErrorResult =>
      CycleResult.mk (CycleResult.ingested acc) (CycleResult.skipped acc)
        (CycleResult.tooOld acc) (CycleResult.errors acc + 1)
        (CycleResult.commentsProcessed acc) (CycleResult.newComments acc)
  end.

Definition addComments (processed new : Z) (acc : CycleResult.t)
  : CycleResult.t :=
  CycleResult.mk (CycleResult.ingested acc) (CycleResult.skipped acc)
    (CycleResult.tooOld acc) (CycleResult.errors acc)
    (CycleResult.commentsProcessed acc + processed)
    (CycleResult.newComments acc + new).

(** The inner [try] of lines 307-314: the comments of the story. *)
Definition commentPhase (item : HNItem.t) (acc : CycleResult.t)
  : M CycleResult.t :=
  tryCatch
    (modify (World.withWorker
               (WorkerState.setCurrentlyProcessing
                  (Some ("comments for: "
                         +:+ Js.optOrElse (HNItem.title item)
                               ("story " +:+ Js.ofNumber (HNItem.id item)))))) ;;;
     let* (commentsProcessed, newComments) := processStoryComments item in
     ret (addComments commentsProcessed newComments acc))
    (fun _ => ret acc).

(** The body of the outer [try] of one iteration (lines 285-320). *)
Definition storyTurn (hnId : Z) (acc : CycleResult.t) : M CycleResult.t :=
  let* (result, item) := processStoryOnly hnId in
  let acc1 := countResult result acc in
  modify (World.withWorker WorkerState.incrTotalProcessed) ;;;
  match item, result with
  | Some it, (New | Cached) => commentPhase it acc1
  | _, _ => ret acc1
  end.

(** One iteration of the loop of lines 281-326. *)
Definition cycleStep (hnId : Z) (acc : CycleResult.t) : M CycleResult.t :=
  modify (World.withWorker WorkerState.incrCycleCurrent) ;;;
  tryCatch
    (storyTurn hnId acc)
    (fun _ =>
       modify (World.withWorker WorkerState.incrTotalProcessed) ;;;
       ret (countResult ErrorResult acc)).

Fixpoint cycleLoop (toProcess : list Z) (acc : CycleResult.t)
  : M CycleResult.t :=
  match toProcess with
  | [] => ret acc
  | hnId :: rest =>
      let* acc' := cycleStep hnId acc in
      cycleLoop rest acc'
  end.

(** [runIngestionCycle] (lines 257-329).  The two listings are requested
    together ([Promise.all]); both are answers of the feed that do not
    depend on the store, and when both fail the error of the first one is
    taken. *)
Definition runIngestionCycle : M CycleResult.t :=
  let* topIds := await (Env.fetchTopStoryIds env) in
  let* newIds := await (Env.fetchNewStoryIds env) in
  let toProcess := candidates topIds newIds in
  modify (World.withWorker
            (WorkerState.startCycle (Z.of_nat (length toProcess)))) ;;;
  cycleLoop toProcess (CycleResult.mk 0 0 0 0 0 0).
End Ingestion.

(** ** The regeneration orchestrator *)

(** The options of [runRegeneration].  [since] and [until] are the bounds
    already converted to Unix seconds.  [maxItems] goes to the [limit] of
    [findAll] as it is; it is taken to be a natural number, the only kind
    of value for which the query is answered. *)
Module RegenOptions.
Record t := mk {
  targetVersion : option string;
  maxItems : option nat;
  type : option string;
  since : option Z;
  until : option Z
}.
End RegenOptions.

(** What a regeneration run has counted when it ends (the three local
    variables it logs). *)
Module RegenReport.
Record t := mk {
  storiesRegenerated : Z;
  commentsRegenerated : Z;
  errors : list string
}.
End RegenReport.

(** [{ analysisVersion: { [Op.ne]: v } }]: SQL's [<>] is not satisfied by a
    NULL column. *)
Definition versionNe (stored : option string) (v : string) : bool :=
  match stored with
  | Some s => negb (String.eqb s v)
  | None => false
  end.

(** [{ analysisVersion: null }] *)
Definition versionIsNull (stored : option string) : bool :=
  match stored with Some _ => false | None => true end.

(** [Object.keys(timeFilters)] (line 416).  [timeFilters] starts as [{}] and
    gets its bounds under the keys [Op.gte] and [Op.lte] (lines 414-415),
    which are symbols; [Object.keys] lists the string keys of an object, so
    it lists none, whatever [since] and [until] are. *)
Definition timeFilterKeys (since until : option Z) : list string := [].

(** The condition on the column [time] that [timeWhere] adds to the [where]
    clauses: [{ time: timeFilters }] when [Object.keys(timeFilters)] is not
    empty, none ([{}]) otherwise. *)
Definition timeWhere (since until : option Z) (time : Z) : bool :=
  if (0 <? length (timeFilterKeys since until))%nat
  then match since with Some lo => lo <=? time | None => true end
       && match until with Some hi => time <=? hi | None => true end
  else true.

(** The [where] clause shared by the two [findAll] calls. *)
Definition staleWhere (versionFilter : string) (since until : option Z)
           (embedded : bool) (analysisVersion : option string) (time : Z)
  : bool :=
  embedded
  && (versionNe analysisVersion versionFilter || versionIsNull analysisVersion)
  && timeWhere since until time.

(** The order of [order: [["time", "DESC"]]]: most recent first. *)
Definition storyNewerEq (a b : Story.t) : Prop := Story.time b <= Story.time a.
Definition commentNewerEq (a b : Comment.t) : Prop :=
  Comment.time b <= Comment.time a.

#[global] Instance storyNewerEq_dec : RelDecision storyNewerEq.
Proof. intros a b. unfold storyNewerEq. apply _. Defined.

#[global] Instance commentNewerEq_dec : RelDecision commentNewerEq.
Proof. intros a b. unfold commentNewerEq. apply _. Defined.

Section Regeneration.
Variable env : Env.t.

(** [order: [["time", "DESC"]]] then [limit].  Rows with the same [time]
    come in the order the sort leaves them; the database fixes none. *)
Definition storiesToRegen (versionFilter : string) (since until : option Z)
           (limit : nat) (rows : list Story.t) : list Story.t :=
  take limit
    (merge_sort storyNewerEq
       (filter (fun s =>
                  staleWhere versionFilter since until (Story.embedded s)
                             (Story.analysisVersion s) (Story.time s) = true)
               rows)).

Definition commentsToRegen (versionFilter : string) (since until : option Z)
           (limit : nat) (rows : list Comment.t) : list Comment.t :=
  take limit
    (merge_sort commentNewerEq
       (filter (fun c =>
                  staleWhere versionFilter since until (Comment.embedded c)
                             (Comment.analysisVersion c) (Comment.time c)
                  = true)
               rows)).

Definition regenStoryEmbeddingText (analysis : StoryAnalysis.t)
           (concepts : list string) : string :=
  StoryAnalysis.core_idea analysis
  +:+ ". Concepts: " +:+ Js.join ", " concepts
  +:+ ". " +:+ StoryAnalysis.community_angle analysis
  +:+ ". Entities: " +:+ Js.join ", " (StoryAnalysis.entities analysis).

(** The object literal of lines 446-458. *)
Definition regenStoryPatch (analysis : StoryAnalysis.t)
           (concepts : list string) (versionFilter : string) : Story.Patch :=
  Story.mkPatch
    None None
    (Some (StoryAnalysis.core_idea analysis))
    (Some concepts)
    (Some (StoryAnalysis.technologies analysis))
    (Some (StoryAnalysis.entities analysis))
    (Some (StoryAnalysis.community_angle analysis))
    (Some (StoryAnalysis.sentiment analysis))
    (Some (StoryAnalysis.sentiment_score analysis))
    (Some (StoryAnalysis.controversy_potential analysis))
    (Some (StoryAnalysis.intellectual_depth analysis))
    (Some versionFilter)
    None
    (Some (Env.now env)).

(** The object literal of lines 460-470. *)
Definition regenStoryMetadata (story : Story.t) (analysis : StoryAnalysis.t)
           (concepts : list string) : StoryMetadata.t :=
  StoryMetadata.mk
    (Story.hnId story)
    (Story.title story)
    (StoryAnalysis.core_idea analysis)
    (StoryAnalysis.sentiment analysis)
    (StoryAnalysis.controversy_potential analysis)
    (StoryAnalysis.intellectual_depth analysis)
    concepts
    (Story.time story)
    (Story.score story).

(** The body of the [try] block of lines 440-473. *)
Definition regenerateStory (versionFilter : string) (story : Story.t)
  : M unit :=
  let rawText := stripHtml (Story.text story) in
  let* analysis :=
    await (Env.analyzeStory env (Story.title story) rawText
                            (Story.url story)) in
  let concepts := normalizeConcepts (StoryAnalysis.concepts analysis) in
  let* embedding :=
    await (Env.generateEmbedding env
             (regenStoryEmbeddingText analysis concepts)) in
  updateStory story (regenStoryPatch analysis concepts versionFilter) ;;;
  await (Env.addStoryEmbedding env (Story.hnId story) embedding
                               (regenStoryMetadata story analysis concepts)).

Fixpoint regenStoriesLoop (versionFilter : string) (todo : list Story.t)
         (report : RegenReport.t) : M RegenReport.t :=
  match todo with
  | [] => ret report
  | story :: rest =>
      let* report' :=
        tryCatch
          (regenerateStory versionFilter story ;;;
           ret (RegenReport.mk (RegenReport.storiesRegenerated report + 1)
                               (RegenReport.commentsRegenerated report)
                               (RegenReport.errors report)))
          (fun err =>
             ret (RegenReport.mk
                    (RegenReport.storiesRegenerated report)
                    (RegenReport.commentsRegenerated report)
                    (RegenReport.errors report
                     ++ ["story " +:+ Js.ofNumber (Story.hnId story)
                         +:+ ": " +:+ Error.message err]))) in
      regenStoriesLoop versionFilter rest report'
  end.

Definition regenCommentEmbeddingText (analysis : CommentAnalysis.t)
           (concepts : list string) : string :=
  CommentAnalysis.argument_summary analysis
  +:+ ". Concepts: " +:+ Js.join ", " concepts.

(** The object literal of lines 514-524. *)
Definition regenCommentPatch (analysis : CommentAnalysis.t)
           (concepts : list string) (versionFilter : string)
  : Comment.Patch :=
  Comment.mkPatch
    (Some (CommentAnalysis.argument_summary analysis))
    (Some concepts)
    (Some (CommentAnalysis.technologies analysis))
    (Some (CommentAnalysis.entities analysis))
    (Some (CommentAnalysis.comment_type analysis))
    (Some (CommentAnalysis.sentiment analysis))
    (Some (CommentAnalysis.sentiment_score analysis))
    (Some versionFilter)
    None
    (Some (Env.now env)).

(** The object literal of lines 526-534. *)
Definition regenCommentMetadata (comment : Comment.t)
           (analysis : CommentAnalysis.t) (concepts : list string)
  : CommentMetadata.t :=
  CommentMetadata.mk
    (Comment.hnId comment)
    (Comment.storyHnId comment)
    (Js.optOrElse (Comment.by_ comment) "unknown")
    (CommentAnalysis.comment_type analysis)
    (CommentAnalysis.sentiment analysis)
    concepts
    (Comment.time comment).

(** The body of the [try] block of lines 496-537; the result tells
    whether the comment was regenerated ([false] is the [continue]). *)
Definition regenerateComment (versionFilter : string) (comment : Comment.t)
  : M bool :=
  let commentText := stripHtml (Comment.text comment) in
  if (String.length commentText <=? 30)%nat then ret false
  else
    let* story := Stories.findOne (Comment.storyHnId comment) in
    let storyTitle :=
      Js.optOrElse (Story.title <$> story) "Unknown Story" in
    let* parentContext :=
      match parentOrNull (Comment.parentHnId comment) with
      | Some p =>
          let* parent := Comments.findOne p in
          ret (Js.orNull (parent ≫= Comment.argumentSummary))
      | None => ret None
      end in
    let* analysis :=
      await (Env.analyzeComment env commentText storyTitle parentContext) in
    let concepts := normalizeConcepts (CommentAnalysis.concepts analysis) in
    let* embedding :=
      await (Env.generateEmbedding env
               (regenCommentEmbeddingText analysis concepts)) in
    updateComment comment
                  (regenCommentPatch analysis concepts versionFilter) ;;;
    await (Env.addCommentEmbedding env (Comment.hnId comment) embedding
                                   (regenCommentMetadata comment analysis
                                                         concepts)) ;;;
    ret true.

Fixpoint regenCommentsLoop (versionFilter : string) (todo : list Comment.t)
         (report : RegenReport.t) : M RegenReport.t :=
  match todo with
  | [] => ret report
  | comment :: rest =>
      let* report' :=
        tryCatch
          (let* done := regenerateComment versionFilter comment in
           ret (if done : bool
                then RegenReport.mk
                       (RegenReport.storiesRegenerated report)
                       (RegenReport.commentsRegenerated report + 1)
                       (RegenReport.errors report)
                else report))
          (fun err =>
             ret (RegenReport.mk
                    (RegenReport.storiesRegenerated report)
                    (RegenReport.commentsRegenerated report)
                    (RegenReport.errors report
                     ++ ["comment " +:+ Js.ofNumber (Comment.hnId comment)
                         +:+ ": " +:+ Error.message err]))) in
      regenCommentsLoop versionFilter rest report'
  end.

Definition runRegeneration (options : RegenOptions.t) : M RegenReport.t :=
  let maxItems := default 50%nat (RegenOptions.maxItems options) in
  let type := default "all" (RegenOptions.type options) in
  let since := RegenOptions.since options in
  let until := RegenOptions.until options in
  let versionFilter :=
    Js.optOrElse (RegenOptions.targetVersion options) ANALYSIS_VERSION in
  let* report1 :=
    if String.eqb type "all" || String.eqb type "stories"
    then
      let* w := get in
      regenStoriesLoop versionFilter
        (storiesToRegen versionFilter since until maxItems (World.stories w))
        (RegenReport.mk 0 0 [])
    else ret (RegenReport.mk 0 0 []) in
  if String.eqb type "all" || String.eqb type "comments"
  then
    let* w := get in
    regenCommentsLoop versionFilter
      (commentsToRegen versionFilter since until maxItems (World.comments w))
      report1
  else ret report1.
End Regeneration.

(** ** The upstream client ([services/hn.ts]) *)

Module Hn.

Definition BATCH_SIZE : nat := 20.

(** [status === 429 || (status && status >= 500)] *)
Definition shouldRetry (error : Error.t) : bool :=
  match HttpResponse.status <$> Error.response error with
  | Some st => (st =? 429) || (negb (st =? 0) && (500 <=? st))
  | None => false
  end.

(** [fetchItem(id)].  [get k] is the outcome of the [k]-th request for the
    item: the body of the reply ([null] for an item the feed does not
    have), or the error raised.  The result comes with the number of
    requests made. *)
Definition fetchItem (get : nat -> Result (option HNItem.t))
  : option HNItem.t * nat :=
  match get 0%nat with
  | Ok data => (data, 1%nat)
  | Throw error =>
      if shouldRetry error
      then match get 1%nat with
           | Ok data => (data, 2%nat)
           | Throw _ => (None, 2%nat)
           end
      else (None, 1%nat)
  end.

(** The loop of [fetchItems]: [i] is the loop index, [results] the array
    built so far, [fuel] bounds the number of iterations. *)
Fixpoint fetchItemsLoop (fetch : Z -> option HNItem.t) (ids : list Z)
         (fuel i : nat) (results : list (option HNItem.t))
  : list (option HNItem.t) :=
  match fuel with
  | O => results
  | S fuel' =>
      if (i <? length ids)%nat
      then
        let batch := take BATCH_SIZE (drop i ids) in
        fetchItemsLoop fetch ids fuel' (i + BATCH_SIZE)
                       (results ++ map fetch batch)
      else results
  end.

(** Fetch multiple items concurrently in batches. *)
Definition fetchItems (fetch : Z -> option HNItem.t) (ids : list Z)
  : list (option HNItem.t) :=
  fetchItemsLoop fetch ids (length ids) 0 [].


(** [item.kids && item.kids.length > 0 ? item.kids : []] for each comment
    kept, in order: the identifiers of the next level. *)
Definition childKids (comments : list HNItem.t) : list Z :=
  concat (map (fun c => default [] (HNItem.kids c)) comments).

(** [fetchAllComments(kids)]: the valid comments level by level.  The
    recursion goes as deep as the replies do; [fuel] bounds the number of
    levels, and [None] is a run that needs more. *)
Fixpoint fetchAllComments (fetch : Z -> option HNItem.t) (fuel : nat)
         (kids : list Z) : option (list HNItem.t) :=
  match fuel with
  | O => None
  | S fuel' =>
      match kids with
      | [] => Some []
      | _ =>
          let items := fetchItems fetch kids in
          let comments := omap isValidComment items in
          match childKids comments with
          | [] => Some comments
          | next =>
              match fetchAllComments fetch fuel' next with
              | Some childComments => Some (comments ++ childComments)
              | None => None
              end
          end
      end
  end.
End Hn.

(** ** The cycle runner ([services/ingestion.ts], lines 351-378) *)

Module Worker.

(** The store together with the module variable [cycleRunning]. *)
Record t := mk {
  world : World.t;
  cycleRunning : bool
}.

(** [workerState.cycleStartedAt = startTime] *)
Definition setCycleStartedAt (startTime : Z) (s : WorkerState.t)
  : WorkerState.t :=
  WorkerState.mk
    (WorkerState.running s) (WorkerState.lastRunAt s)
    (WorkerState.lastRunResult s) (WorkerState.totalProcessed s)
    (WorkerState.totalEmbedded s) (WorkerState.currentlyProcessing s)
    (Some startTime) (WorkerState.cycleTotal s)
    (WorkerState.cycleCurrent s) (WorkerState.cyclePhase s)
    (WorkerState.errors s).

(** The four assignments after a cycle that returned (lines 363-366). *)
Definition cycleDone (endTime : Z) (result : CycleResult.t)
           (s : WorkerState.t) : WorkerState.t :=
  WorkerState.mk
    (WorkerState.running s) (Some endTime) (Some result)
    (WorkerState.totalProcessed s) (WorkerState.totalEmbedded s)
    None (WorkerState.cycleStartedAt s) (WorkerState.cycleTotal s)
    (WorkerState.cycleCurrent s) None (WorkerState.errors s).

(** The [catch] block (lines 369-373). *)
Definition cycleFailed (err : Error.t) (s : WorkerState.t) : WorkerState.t :=
  WorkerState.pushError
    ("cycle: " +:+ Js.orElse (Error.message err) "unknown")
    (WorkerState.mk
       (WorkerState.running s) (WorkerState.lastRunAt s)
       (WorkerState.lastRunResult s) (WorkerState.totalProcessed s)
       (WorkerState.totalEmbedded s) None (WorkerState.cycleStartedAt s)
       (WorkerState.cycleTotal s) (WorkerState.cycleCurrent s) None
       (WorkerState.errors s)).

(** The statements before the [try]: the cycle is marked as running. *)
Definition enter (startTime : Z) (p : t) : t :=
  mk (World.withWorker (setCycleStartedAt startTime) (world p)) true.

(** The [try] and [catch] blocks.  [endTime] is the clock when the cycle
    returns. *)
Definition body (cfg : Config.t) (env : Env.t) (endTime : Z) (p : t) : t :=
  match runIngestionCycle cfg env (world p) with
  | (Ok result, w) =>
      mk (World.withWorker (cycleDone endTime result) w) (cycleRunning p)
  | (Throw err, w) =>
      mk (World.withWorker (cycleFailed err) w) (cycleRunning p)
  end.

(** The [finally] block. *)
Definition leave (p : t) : t := mk (world p) false.

(** [runCycle()], called by the timer. *)
Definition runCycle (cfg : Config.t) (env : Env.t) (startTime endTime : Z)
           (p : t) : t :=
  if cycleRunning p then p
  else leave (body cfg env endTime (enter startTime p)).

End Worker.

(** ** The administration routes ([routes/admin.ts]) *)

Module Admin.

(** [s.analysisVersion || "1"] *)
Definition versionOr1 (v : option string) : string := Js.optOrElse v "1".

(** [Story.findAll({ where: { embedded: true } })] *)
Definition embeddedStories (w : World.t) : list Story.t :=
  filter (fun s => Story.embedded s = true) (World.stories w).

Definition embeddedComments (w : World.t) : list Comment.t :=
  filter (fun c => Comment.embedded c = true) (World.comments w).

(** [storiesNeedingUpdate] *)
Definition storiesNeedingUpdate (w : World.t) : nat :=
  length (filter (fun s => versionOr1 (Story.analysisVersion s)
                           <> ANALYSIS_VERSION)
                 (embeddedStories w)).

(** [commentsNeedingUpdate] *)
Definition commentsNeedingUpdate (w : World.t) : nat :=
  length (filter (fun c => versionOr1 (Comment.analysisVersion c)
                           <> ANALYSIS_VERSION)
                 (embeddedComments w)).

(** [pendingStories: storyCount - embeddedStories] *)
Definition pendingStories (w : World.t) : Z :=
  Z.of_nat (length (World.stories w))
  - Z.of_nat (length (embeddedStories w)).

Definition pendingComments (w : World.t) : Z :=
  Z.of_nat (length (World.comments w))
  - Z.of_nat (length (embeddedComments w)).

End Admin.

(** ** Semantic search ([services/ingestion.ts], lines 550-598) *)

Module Chroma.
(** The answer of [collection.query] to one query embedding.  Of each
    metadata only the field [hnId] is read; the index stores it with every
    embedding. *)
Record QueryResult := mk {
  ids : option (list (list string));
  metadatas : list (list Z);
  distances : option (list (list (option Q)))
}.
End Chroma.

Module Search.

(** The collaborators of a search. *)
Record Env := mkEnv {
  generateEmbedding : string -> Result Embedding;
  searchSimilarStories : Embedding -> Z -> Result Chroma.QueryResult;
  searchSimilarComments : Embedding -> Z -> Result Chroma.QueryResult
}.

(** The error of [results.metadatas[0].map] when the answer has no
    metadata list. *)
Definition typeError : Error.t :=
  Error.mk "TypeError"
           "Cannot read properties of undefined (reading 'map')" None.

(** [!results.ids || results.ids.length === 0 ||
     results.ids[0].length === 0] *)
Definition noHits (results : Chroma.QueryResult) : bool :=
  match Chroma.ids results with
  | None => true
  | Some [] => true
  | Some ([] :: _) => true
  | Some ((_ :: _) :: _) => false
  end.

(** [results.distances?.[0]?.[i] != null ? 1 - results.distances[0][i]
     : null] *)
Definition similarityAt (results : Chroma.QueryResult) (i : nat)
  : option Q :=
  match Chroma.distances results with
  | Some (first :: _) =>
      match first !! i with
      | Some (Some d) => Some (1 - d)%Q
      | _ => None
      end
  | _ => None
  end.

(** [new Map(rows.map((r) => [r.hnId, r]))]: of two rows with one key the
    later one stays. *)
Definition mapOf {Row} (key : Row -> Z) (rows : list Row) : gmap Z Row :=
  foldl (fun m r => <[key r := r]> m) ∅ rows.

(** [hnIds.map((id, i) => ...).filter(Boolean)] *)
Definition hitsOf {Row} (key : Row -> Z) (results : Chroma.QueryResult)
           (hnIds : list Z) (rows : list Row) : list (Row * option Q) :=
  omap id
    (imap (fun i hnId =>
             match mapOf key rows !! hnId with
             | Some row => Some (row, similarityAt results i)
             | None => None
             end)
          hnIds).

(** The shared body of the two branches, after the index has answered. *)
Definition hitsFrom {Row} (key : Row -> Z) (table : World.t -> list Row)
           (results : Chroma.QueryResult) : M (list (Row * option Q)) :=
  if noHits results then ret []
  else
    match Chroma.metadatas results with
    | [] => throw typeError
    | hnIds :: _ =>
        let* w := get in
        let rows := filter (fun r => key r ∈ hnIds) (table w) in
        ret (hitsOf key results hnIds rows)
    end.

(** [semanticSearch(query, "stories", limit)] *)
Definition semanticSearchStories (senv : Env) (query : string) (limit : Z)
  : M (list (Story.t * option Q)) :=
  let* queryEmbedding := await (generateEmbedding senv query) in
  let* results :=
    await (searchSimilarStories senv queryEmbedding limit) in
  hitsFrom Story.hnId World.stories results.

(** [semanticSearch(query, "comments", limit)] *)
Definition semanticSearchComments (senv : Env) (query : string) (limit : Z)
  : M (list (Comment.t * option Q)) :=
  let* queryEmbedding := await (generateEmbedding senv query) in
  let* results :=
    await (searchSimilarComments senv queryEmbedding limit) in
  hitsFrom Comment.hnId World.comments results.

(** [semanticSearch(query, type, limit)]: every [type] other than
    ["stories"] searches the comments. *)
Definition semanticSearch (senv : Env) (query type : string) (limit : Z)
  : M (list (Story.t * option Q) + list (Comment.t * option Q)) :=
  if String.eqb type "stories"
  then let* hits := semanticSearchStories senv query limit in ret (inl hits)
  else let* hits := semanticSearchComments senv query limit in ret (inr hits).

End Search.

(** ** The prompts of the analysis client ([services/openrouter.ts]) *)

Module Prompt.

Definition newline : string := String (ascii_of_N 10) EmptyString.

Definition quote : string := String Js.dquote EmptyString.

(** [text.slice(0, n)] *)
Definition slice0 (n : nat) (s : string) : string := substring 0 n s.

(** [content] of [analyzeStory] (line 226). *)
Definition storyContent (title text : string) (url : option string)
  : string :=
  "Title: " +:+ title +:+ newline
  +:+ match Js.orNull url with
      | Some u => "URL: " +:+ u +:+ newline
      | None => EmptyString
      end
  +:+ (if String.eqb text EmptyString then EmptyString
       else "Content: " +:+ slice0 3000 text).

(** [userPrompt] of [analyzeStory] (line 235). *)
Definition storyUserPrompt (title text : string) (url : option string)
  : string :=
  "Analyze this Hacker News submission:" +:+ newline +:+ newline
  +:+ storyContent title text url.

(** [userPrompt] of [analyzeComment] (lines 270-274). *)
Definition commentUserPrompt (commentText storyTitle : string)
           (parentContext : option string) : string :=
  "This comment was made on the HN story " +:+ quote +:+ storyTitle
  +:+ quote
  +:+ match Js.orNull parentContext with
      | Some p =>
          newline +:+ newline +:+ "The parent comment's argument: "
          +:+ quote +:+ p +:+ quote
      | None => EmptyString
      end
  +:+ newline +:+ newline +:+ "Comment:" +:+ newline
  +:+ slice0 2000 commentText.

End Prompt.

(** ** The column types of the tables ([models/Story.ts], [models/Comment.ts])

    PostgreSQL takes a value only when it fits its column: an [INTEGER] is
    a signed 32-bit number, a [STRING] is a [VARCHAR(255)], and no text or
    JSON string has a NUL character.  [Stories.create], [Comments.create]
    and the updates are the answers of the database for rows that fit;
    [storyFits] and [commentFits] tell which rows do. *)
Module Pg.

Definition integer (n : Z) : bool :=
  (-2147483648 <=? n) && (n <=? 2147483647).

Definition noNul (s : string) : bool :=
  forallb (fun c => negb (Ascii.eqb c Ascii.zero)) (Js.chars s).

Definition text (s : string) : bool := noNul s.

Definition varchar255 (s : string) : bool :=
  (String.length s <=? 255)%nat && noNul s.

Definition jsonb (l : list string) : bool := forallb noNul l.

(** A column that allows NULL. *)
Definition nullable {A} (ok : A -> bool) (v : option A) : bool :=
  match v with
  | Some x => ok x
  | None => true
  end.

End Pg.

Definition storyFits (s : Story.t) : bool :=
  Pg.integer (Story.hnId s)
  && Pg.text (Story.title s)
  && Pg.nullable Pg.text (Story.url s)
  && Pg.nullable Pg.text (Story.text s)
  && Pg.varchar255 (Story.by_ s)
  && Pg.integer (Story.score s)
  && Pg.integer (Story.time s)
  && Pg.integer (Story.descendants s)
  && Pg.nullable Pg.text (Story.coreIdea s)
  && Pg.nullable Pg.jsonb (Story.concepts s)
  && Pg.nullable Pg.jsonb (Story.technologies s)
  && Pg.nullable Pg.jsonb (Story.entities s)
  && Pg.nullable Pg.text (Story.communityAngle s)
  && Pg.nullable Pg.varchar255 (Story.sentiment s)
  && Pg.nullable Pg.varchar255 (Story.controversyPotential s)
  && Pg.nullable Pg.varchar255 (Story.intellectualDepth s)
  && Pg.nullable Pg.varchar255 (Story.analysisVersion s).

Definition commentFits (c : Comment.t) : bool :=
  Pg.integer (Comment.hnId c)
  && Pg.integer (Comment.storyHnId c)
  && Pg.nullable Pg.integer (Comment.parentHnId c)
  && Pg.nullable Pg.text (Comment.text c)
  && Pg.nullable Pg.varchar255 (Comment.by_ c)
  && Pg.integer (Comment.time c)
  && Pg.nullable Pg.text (Comment.argumentSummary c)
  && Pg.nullable Pg.jsonb (Comment.concepts c)
  && Pg.nullable Pg.jsonb (Comment.technologies c)
  && Pg.nullable Pg.jsonb (Comment.entities c)
  && Pg.nullable Pg.varchar255 (Comment.commentType c)
  && Pg.nullable Pg.varchar255 (Comment.sentiment c)
  && Pg.nullable Pg.varchar255 (Comment.analysisVersion c).

(** * Properties

    ** What a normalized concept is *)

(** Two neighbouring white-space characters somewhere in the text. *)
Fixpoint hasWhiteRun (l : list ascii) : bool :=
  match l with
  | a :: r =>
      match r with
      | b :: _ => (Js.isWhiteSpace a && Js.isWhiteSpace b) || hasWhiteRun r
      | [] => false
      end
  | [] => false
  end.

Record NormalizedConcept (c : string) : Prop := {
  nc_lowercase : Js.toLowerCase c = c;
  nc_no_underscore : "_"%char ∉ Js.chars c;
  nc_no_white_run : hasWhiteRun (Js.chars c) = false;
  nc_trimmed : Js.trim c = c;
  nc_nonempty : c ≠ EmptyString
}.

(** A character that [toLowerCase] leaves alone and that is no underscore. *)
Definition plainChar (c : ascii) : Prop :=
  Js.lowerChar c = c ∧ c ≠ "_"%char.

(** The head of the text is no white space. *)
Definition cleanHead (l : list ascii) : bool :=
  match l with c :: _ => negb (Js.isWhiteSpace c) | [] => true end.


(** ** What the regular expression of [parseJsonResponse] matches *)

(** [BraceSpan l span]: [span] is the part of [l] from its first opening
    brace through its last closing brace, when the two come in that order,
    and there is no span otherwise. *)
Inductive BraceSpan (l : list ascii) : option (list ascii) -> Prop :=
| span_found pre mid post :
    l = pre ++ "{"%char :: mid ++ "}"%char :: post ->
    "{"%char ∉ pre ->
    "}"%char ∉ post ->
    BraceSpan l (Some ("{"%char :: mid ++ ["}"%char]))
| span_missing :
    (∀ pre post, l = pre ++ "{"%char :: post -> "{"%char ∉ pre ->
                 "}"%char ∉ post) ->
    BraceSpan l None.

(** A text with extra words between two JSON objects. *)
Definition quoted (s : string) : string :=
  String Js.dquote s +:+ String Js.dquote EmptyString.

Definition twoObjects : string :=
  "{" +:+ quoted "a" +:+ ":1} and {" +:+ quoted "b" +:+ ":2}".

Definition firstObject : string := "{" +:+ quoted "a" +:+ ":1}".

(** A reply that wraps its JSON object in prose. *)
Definition sureHereIsJson : string :=
  "Sure! Here is the JSON: {" +:+ quoted "a" +:+ ": [1,2]} hope it helps".

(** ** Sample outcomes of a call wrapped by [withRetry] *)

(** An error response whose [retry-after] header, when it has one, is a
    number of seconds. *)
Definition httpError (status : Z) (provider : option string)
           (retryAfter : option Z) : Error.t :=
  Error.mk "AxiosError" "Request failed"
           (Some (HttpResponse.mk status provider (Js.Int <$> retryAfter))).

(** A 429 whose [retry-after] header is an HTTP date, which [parseInt]
    reads as [NaN]; the call succeeds when it is made again. *)
Definition httpDateLimited (attempt : nat) : Result Z :=
  match attempt with
  | 0%nat =>
      Throw (Error.mk "AxiosError" "Request failed"
                      (Some (HttpResponse.mk 429 None (Some Js.NaN))))
  | _ => Ok 7
  end.

(** Rate limited twice (the server asks for ten seconds), then a provider
    error, then a server error, then success. *)
Definition flakyCall (attempt : nat) : Result Z :=
  match attempt with
  | 0%nat | 1%nat => Throw (httpError 429 None (Some 10))
  | 2%nat => Throw (httpError 400 (Some "deepinfra") None)
  | 3%nat => Throw (httpError 503 None None)
  | _ => Ok 7
  end.

(** ** Invariants of the item store *)

(** The unique indexes on [hnId]. *)
Definition uniqueHnIds (w : World.t) : Prop :=
  NoDup (map Story.hnId (World.stories w))
  ∧ NoDup (map Comment.hnId (World.comments w)).

(** A record is analyzed when it is [embedded] and carries an
    [analysisVersion]; the two go together. *)
Definition storyAnalyzedIff (s : Story.t) : Prop :=
  Story.embedded s = true ↔ Story.analysisVersion s ≠ None.

Definition commentAnalyzedIff (c : Comment.t) : Prop :=
  Comment.embedded c = true ↔ Comment.analysisVersion c ≠ None.

Definition analyzedIff (w : World.t) : Prop :=
  Forall storyAnalyzedIff (World.stories w)
  ∧ Forall commentAnalyzedIff (World.comments w).

Definition conceptsNormalized (concepts : option (list string)) : Prop :=
  match concepts with
  | Some cs => Forall NormalizedConcept cs
  | None => True
  end.

Definition storedConceptsNormalized (w : World.t) : Prop :=
  Forall (λ s, conceptsNormalized (Story.concepts s)) (World.stories w)
  ∧ Forall (λ c, conceptsNormalized (Comment.concepts c)) (World.comments w).

(** The number of rows of a table that carry an identifier. *)
Definition countStories (hnId : Z) (w : World.t) : nat :=
  length (filter (λ s, Story.hnId s = hnId) (World.stories w)).

Definition countComments (hnId : Z) (w : World.t) : nat :=
  length (filter (λ c, Comment.hnId c = hnId) (World.comments w)).

(** ** The writes of the orchestrators, one at a time *)

Definition patchStoryRows (instance : Story.t) (p : Story.Patch)
  : World.t -> World.t :=
  World.withStories
    (updateFirst (fun s => Story.hnId s =? Story.hnId instance)
                 (Story.applyPatch p)).

Definition patchCommentRows (instance : Comment.t) (p : Comment.Patch)
  : World.t -> World.t :=
  World.withComments
    (updateFirst (fun c => Comment.hnId c =? Comment.hnId instance)
                 (Comment.applyPatch p)).

Section Steps.
Variable cfg : Config.t.
Variable env : Env.t.

(** One write of an ingestion cycle. *)
Inductive IngestStep : World.t -> World.t -> Prop :=
| step_worker w f :
    IngestStep w (World.withWorker f w)
| step_create_story w hnId item :
    Env.fetchItem env hnId = Ok (Some item) ->
    HNItem.type item = "story" ->
    isRecent cfg env (HNItem.time item) = true ->
    Forall (λ s, Story.hnId s ≠ HNItem.id item) (World.stories w) ->
    IngestStep w (World.withStories (λ l, l ++ [newStoryRow item]) w)
| step_refresh_story w item ex :
    IngestStep w (patchStoryRows ex (refreshPatch item ex) w)
| step_analyze_story w story analysis :
    IngestStep w
      (patchStoryRows story
         (storyAnalysisPatch env analysis
            (normalizeConcepts (StoryAnalysis.concepts analysis))) w)
| step_create_comment w ci storyHnId :
    Forall (λ c, Comment.hnId c ≠ HNItem.id ci) (World.comments w) ->
    IngestStep w
      (World.withComments (λ l, l ++ [newCommentRow ci storyHnId]) w)
| step_analyze_comment w comment analysis :
    IngestStep w
      (patchCommentRows comment
         (commentAnalysisPatch env analysis
            (normalizeConcepts (CommentAnalysis.concepts analysis))) w).

(** One write of the comment phase of a story's turn. *)
Inductive CommentStep : World.t -> World.t -> Prop :=
| cstep_embedded w :
    CommentStep w (World.withWorker WorkerState.incrTotalEmbedded w)
| cstep_create w ci storyHnId :
    Forall (λ c, Comment.hnId c ≠ HNItem.id ci) (World.comments w) ->
    CommentStep w
      (World.withComments (λ l, l ++ [newCommentRow ci storyHnId]) w)
| cstep_analyze w comment analysis :
    CommentStep w
      (patchCommentRows comment
         (commentAnalysisPatch env analysis
            (normalizeConcepts (CommentAnalysis.concepts analysis))) w).

(** Where the identifiers of the story rows come from: the table at the
    start, or a recent story that the feed returned. *)
Definition storyProvenance (ids0 : list Z) (s : Story.t) : Prop :=
  Story.hnId s ∈ ids0
  ∨ ∃ hnId item,
      Env.fetchItem env hnId = Ok (Some item)
      ∧ HNItem.type item = "story"
      ∧ isRecent cfg env (HNItem.time item) = true
      ∧ Story.hnId s = HNItem.id item.

(** One write of a regeneration run started on [w0] for the version [v]:
    the instance written to was selected from [w0]. *)
Inductive RegenStep (w0 : World.t) (v : string) (since until : option Z)
  : World.t -> World.t -> Prop :=
| step_regen_story w snap analysis :
    snap ∈ World.stories w0 ->
    staleWhere v since until (Story.embedded snap)
               (Story.analysisVersion snap) (Story.time snap) = true ->
    RegenStep w0 v since until w
      (patchStoryRows snap
         (regenStoryPatch env analysis
            (normalizeConcepts (StoryAnalysis.concepts analysis)) v) w)
| step_regen_comment w snap analysis :
    snap ∈ World.comments w0 ->
    staleWhere v since until (Comment.embedded snap)
               (Comment.analysisVersion snap) (Comment.time snap) = true ->
    RegenStep w0 v since until w
      (patchCommentRows snap
         (regenCommentPatch env analysis
            (normalizeConcepts (CommentAnalysis.concepts analysis)) v) w).
End Steps.

(** Every run of [m] is a chain of steps of [R]. *)
Definition Traces (R : World.t -> World.t -> Prop) {A} (m : M A) : Prop :=
  ∀ w, rtc R w (m w).2.

(** What a regeneration run leaves of a row [s0]: the row itself, or a row
    re-analyzed at version [v] if [s0] was embedded at another version. *)
Definition storyRegenerated (v : string) (s0 s : Story.t) : Prop :=
  s = s0
  ∨ (Story.embedded s0 = true ∧ Story.analysisVersion s0 ≠ Some v
     ∧ Story.hnId s = Story.hnId s0
     ∧ Story.embedded s = true ∧ Story.analysisVersion s = Some v
     ∧ ∃ cs, Story.concepts s = Some (normalizeConcepts cs)).

Definition commentRegenerated (v : string) (c0 c : Comment.t) : Prop :=
  c = c0
  ∨ (Comment.embedded c0 = true ∧ Comment.analysisVersion c0 ≠ Some v
     ∧ Comment.hnId c = Comment.hnId c0
     ∧ Comment.embedded c = true ∧ Comment.analysisVersion c = Some v
     ∧ ∃ cs, Comment.concepts c = Some (normalizeConcepts cs)).

(** [versionFilter] of [runRegeneration]. *)
Definition versionFilterOf (options : RegenOptions.t) : string :=
  Js.optOrElse (RegenOptions.targetVersion options) ANALYSIS_VERSION.

(** ** A concrete feed

    The scenario of the specification: the candidates are story 101 (one
    hour old, with the child comment 301) and story 202 (twenty hours old);
    the maximum age is eight hours. *)
Module Scenario.

Definition now : Z := 1700000000000.

Definition secondsAgo (s : Z) : Z := now / 1000 - s.

Definition story101 : HNItem.t :=
  HNItem.mk 101 "story" (Some "alice") (secondsAgo 3600)
            (Some "<p>Why <i>open source</i> maintainers burn out</p>")
            (Some "https://example.org/burnout")
            (Some "Open source burnout")
            (Some 42) (Some 1) (Some [301]) None false false.

Definition story202 : HNItem.t :=
  HNItem.mk 202 "story" (Some "bob") (secondsAgo 72000)
            None (Some "https://example.org/older")
            (Some "An older story")
            (Some 7) (Some 0) None None false false.

Definition comment301 : HNItem.t :=
  HNItem.mk 301 "comment" (Some "carol") (secondsAgo 1800)
            (Some "I maintain a small library and the support load is the hard part.")
            None None None None None (Some 101) false false.

Definition cfg : Config.t := Config.defaults.

Definition storyAnalysis : StoryAnalysis.t :=
  StoryAnalysis.mk "maintainer burnout"
                   ["Open_Source  Sustainability"; "Burnout "]
                   ["Git"] ["GitHub"]
                   "every maintainer has felt it"
                   "negative" (-1 # 2)%Q "medium" "moderate".

Definition commentAnalysis : CommentAnalysis.t :=
  CommentAnalysis.mk "Support load, not code, exhausts maintainers."
                     ["support_burden"] [] []
                     "personal_experience" "negative" (-1 # 4)%Q.

Definition fetchItem (hnId : Z) : Result (option HNItem.t) :=
  if hnId =? 101 then Ok (Some story101)
  else if hnId =? 202 then Ok (Some story202)
  else if hnId =? 301 then Ok (Some comment301)
  else Ok None.

Definition fetchItems (ids : list Z) : Result (list (option HNItem.t)) :=
  Ok (map (λ hnId, match fetchItem hnId with
                   | Ok item => item
                   | Throw _ => None
                   end) ids).

Definition env : Env.t :=
  Env.mk now (Ok [101; 202]) (Ok [202; 101]) fetchItem fetchItems
         (λ _ _ _, Ok storyAnalysis)
         (λ _ _ _, Ok commentAnalysis)
         (λ _, Ok [(1 # 2)%Q; (1 # 3)%Q])
         (λ _ _ _, Ok tt)
         (λ _ _ _, Ok tt).

(** The analysis backend is down: every story analysis fails, as after
    the retries of [withRetry] are used up. *)
Definition analysisDown : Error.t :=
  httpError 503 None None.

Definition failingEnv : Env.t :=
  Env.mk now (Ok [101; 202]) (Ok [202; 101]) fetchItem fetchItems
         (λ _ _ _, Throw analysisDown)
         (λ _ _ _, Ok commentAnalysis)
         (λ _, Ok [(1 # 2)%Q; (1 # 3)%Q])
         (λ _ _ _, Ok tt)
         (λ _ _ _, Ok tt).

(** The store after one cycle on the empty store. *)
Definition afterCycle : World.t := (runIngestionCycle cfg env World.empty).2.

(** A store that already holds story 202, ingested when it was recent. *)
Definition holding202 : World.t :=
  World.mk
    [Story.applyPatch (refreshPatch
                         (HNItem.mk 202 "story" None 0 None None None
                                    (Some 3) (Some 0) None None false false)
                         (newStoryRow story202))
                      (newStoryRow story202)]
    [] WorkerState.initial.

(** A store whose only row was analyzed under the version ["5"]. *)
Definition analyzedAt5 : World.t :=
  World.mk
    [Story.applyPatch
       (Story.mkPatch None None (Some "an idea") (Some ["old concept"])
                      (Some []) (Some []) (Some "angle") (Some "neutral")
                      (Some (0 # 1)%Q) (Some "low") (Some "surface")
                      (Some "5") (Some true) (Some 0))
       (newStoryRow story101)]
    [] WorkerState.initial.

Definition regenAll : RegenOptions.t :=
  RegenOptions.mk None None None None None.

End Scenario.

(** ** Statements about whole runs *)

(** Every concept list of [w'] is normalized or was already stored in
    [w]. *)
Definition conceptsWritten (w w' : World.t) : Prop :=
  Forall (λ s, conceptsNormalized (Story.concepts s)
               ∨ ∃ s0, s0 ∈ World.stories w
                       ∧ Story.concepts s = Story.concepts s0)
         (World.stories w')
  ∧ Forall (λ c, conceptsNormalized (Comment.concepts c)
                 ∨ ∃ c0, c0 ∈ World.comments w
                         ∧ Comment.concepts c = Comment.concepts c0)
           (World.comments w').

(** Every embedded record carries the version [v]. *)
Definition upToDate (v : string) (w : World.t) : Prop :=
  Forall (λ s, Story.embedded s = true -> Story.analysisVersion s = Some v)
         (World.stories w)
  ∧ Forall (λ c, Comment.embedded c = true ->
                 Comment.analysisVersion c = Some v)
           (World.comments w).

(** The row changed only if it was embedded under another version. *)
Definition storyTouchedOnlyIfStale (v : string) (s0 s : Story.t) : Prop :=
  s = s0 ∨ (Story.embedded s0 = true ∧ Story.analysisVersion s0 ≠ Some v).

Definition commentTouchedOnlyIfStale (v : string) (c0 c : Comment.t) : Prop :=
  c = c0 ∨ (Comment.embedded c0 = true ∧ Comment.analysisVersion c0 ≠ Some v).

(** The feed answers a request with the item that was asked for. *)
Definition feedConsistent (env : Env.t) : Prop :=
  ∀ hnId item, Env.fetchItem env hnId = Ok (Some item) -> HNItem.id item = hnId.

(** [s] is [s0] but for its score and its descendant count. *)
Definition sameButVolatile (s0 s : Story.t) : Prop :=
  s = Story.applyPatch
        (Story.mkPatch (Some (Story.score s)) (Some (Story.descendants s))
                       None None None None None None None None None None
                       None None)
        s0.

(** The value of the counter [workerState.totalProcessed]. *)
Definition totalProcessedOf (w : World.t) : Z :=
  WorkerState.totalProcessed (World.workerState w).

(** [1] when a turn classified its story as new, [0] otherwise. *)
Definition newCount (r : Result (StoryResult * option HNItem.t)) : Z :=
  match r with
  | Ok (New, _) => 1
  | _ => 0
  end.

(** The text handed to the analysis of a new story is not empty. *)
Definition hasTextForAnalysis (item : HNItem.t) : Prop :=
  (0 < String.length
         (Js.trim (Js.optOrElse (HNItem.title item) EmptyString
                   +:+ " " +:+ stripHtml (HNItem.text item))))%nat.

(** The entry that a failed story analysis leaves in the error ring. *)
Definition storyErrorEntry (hnId : Z) (e : Error.t) : string :=
  "story " +:+ Js.ofNumber hnId +:+ ": " +:+ messageOr e "unknown".

(** * Further properties of the code

    ** Texts *)

(** The only white space in the text is the space character. *)
Definition onlySpaces (l : list ascii) : Prop :=
  Forall (λ c, Js.isWhiteSpace c = true -> c = " "%char) l.

(** A text without markup: no tag, no entity, single spaces only, no white
    space at either end. *)
Record PlainText (s : string) : Prop := {
  pt_no_tag : "<"%char ∉ Js.chars s;
  pt_no_entity : "&"%char ∉ Js.chars s;
  pt_spaces : onlySpaces (Js.chars s);
  pt_no_run : hasWhiteRun (Js.chars s) = false;
  pt_trimmed : Js.trim s = s
}.

(** ** Waiting times *)

Definition sumZ (l : list Z) : Z := foldr Z.add 0 l.

(** A rate-limited call that carries no [retry-after] header. *)
Definition alwaysRateLimited (attempt : nat) : Result Z :=
  Throw (httpError 429 None None).

(** ** Requests for one item *)

(** The first request meets a server error, the second one succeeds. *)
Definition secondTry (k : nat) : Result (option HNItem.t) :=
  match k with
  | O => Throw (httpError 503 None None)
  | _ => Ok (Some Scenario.story101)
  end.

(** ** The writes of an ingestion cycle, row by row *)

(** The writes that a cycle makes to the worker state. *)
Inductive WorkerWrite : WorkerState.t -> WorkerState.t -> Prop :=
| ww_currently v s : WorkerWrite s (WorkerState.setCurrentlyProcessing v s)
| ww_processed s : WorkerWrite s (WorkerState.incrTotalProcessed s)
| ww_embedded s : WorkerWrite s (WorkerState.incrTotalEmbedded s)
| ww_start total s : WorkerWrite s (WorkerState.startCycle total s)
| ww_current s : WorkerWrite s (WorkerState.incrCycleCurrent s)
| ww_error hnId err s :
    WorkerWrite s (WorkerState.pushError (storyErrorEntry hnId err) s).

(** [n] more records counted as embedded. *)
Definition addEmbedded (n : Z) (s : WorkerState.t) : WorkerState.t :=
  WorkerState.mk
    (WorkerState.running s) (WorkerState.lastRunAt s)
    (WorkerState.lastRunResult s) (WorkerState.totalProcessed s)
    (WorkerState.totalEmbedded s + n) (WorkerState.currentlyProcessing s)
    (WorkerState.cycleStartedAt s) (WorkerState.cycleTotal s)
    (WorkerState.cycleCurrent s) (WorkerState.cyclePhase s)
    (WorkerState.errors s).

Definition totalEmbeddedOf (w : World.t) : Z :=
  WorkerState.totalEmbedded (World.workerState w).

Section CycleWrites.
Variable env : Env.t.

(** The row of a new story once its analysis is stored. *)
Definition analyzedStoryRow (item : HNItem.t) (analysis : StoryAnalysis.t)
  : Story.t :=
  Story.applyPatch
    (storyAnalysisPatch env analysis
       (normalizeConcepts (StoryAnalysis.concepts analysis)))
    (newStoryRow item).

(** The row of a new comment once its analysis is stored. *)
Definition analyzedCommentRow (ci : HNItem.t) (storyHnId : Z)
           (analysis : CommentAnalysis.t) : Comment.t :=
  Comment.applyPatch
    (commentAnalysisPatch env analysis
       (normalizeConcepts (CommentAnalysis.concepts analysis)))
    (newCommentRow ci storyHnId).

(** A story row as a cycle leaves it: as created, or analyzed. *)
Definition ingestedStoryRow (row : Story.t) : Prop :=
  ∃ item, row = newStoryRow item
          ∨ ∃ analysis, row = analyzedStoryRow item analysis.

Definition ingestedCommentRow (row : Comment.t) : Prop :=
  ∃ ci storyHnId,
    row = newCommentRow ci storyHnId
    ∨ ∃ analysis, row = analyzedCommentRow ci storyHnId analysis.

(** One write of a cycle, where the creation of a row and the update that
    stores its analysis count as one. *)
Inductive CycleWrite : World.t -> World.t -> Prop :=
| cw_worker w f :
    (∀ s, WorkerWrite s (f s)) ->
    CycleWrite w (World.withWorker f w)
| cw_refresh w item ex :
    CycleWrite w (patchStoryRows ex (refreshPatch item ex) w)
| cw_story w row :
    Forall (λ s, Story.hnId s ≠ Story.hnId row) (World.stories w) ->
    ingestedStoryRow row ->
    CycleWrite w (World.withStories (λ l, l ++ [row]) w)
| cw_comment w row :
    Forall (λ c, Comment.hnId c ≠ Comment.hnId row) (World.comments w) ->
    ingestedCommentRow row ->
    CycleWrite w (World.withComments (λ l, l ++ [row]) w).
End CycleWrites.

(** What a cycle leaves of the tables of [w]: every stored row keeps its
    place, a stored story changes in its score and descendant count at
    most, a stored comment not at all, and the new rows come after.  A new
    story row is as it was created or analyzed, but for its score and its
    descendant count. *)
Definition grownFrom (env : Env.t) (w w' : World.t) : Prop :=
  ∃ kept addedStories addedComments,
    World.stories w' = kept ++ addedStories
    ∧ Forall2 sameButVolatile (World.stories w) kept
    ∧ Forall (λ s, ∃ s0, ingestedStoryRow env s0 ∧ sameButVolatile s0 s)
             addedStories
    ∧ World.comments w' = World.comments w ++ addedComments
    ∧ Forall (ingestedCommentRow env) addedComments.

(** The four counters of a summary that classify a candidate. *)
Definition decided (acc : CycleResult.t) : Z :=
  CycleResult.ingested acc + CycleResult.skipped acc
  + CycleResult.tooOld acc + CycleResult.errors acc.

(** The listing of the top stories cannot be fetched. *)
Definition listingDown : Env.t :=
  Env.mk Scenario.now (Throw (httpError 502 None None)) (Ok [202; 101])
         Scenario.fetchItem Scenario.fetchItems
         (λ _ _ _, Ok Scenario.storyAnalysis)
         (λ _ _ _, Ok Scenario.commentAnalysis)
         (λ _, Ok [(1 # 2)%Q; (1 # 3)%Q])
         (λ _ _ _, Ok tt)
         (λ _ _ _, Ok tt).

(** ** Jobs

    The two background jobs that write to the tables, each with the
    collaborators it meets while it runs. *)
Inductive Job : Type :=
| Ingest (cfg : Config.t) (env : Env.t)
| Regenerate (env : Env.t) (options : RegenOptions.t).

Definition runJob (w : World.t) (job : Job) : World.t :=
  match job with
  | Ingest cfg env => (runIngestionCycle cfg env w).2
  | Regenerate env options => (runRegeneration env options w).2
  end.

(** The jobs run one after the other. *)
Definition runJobs (jobs : list Job) (w : World.t) : World.t :=
  foldl runJob w jobs.

(** ** The accounts of a cycle *)

Definition cycleCurrentOf (w : World.t) : Z :=
  WorkerState.cycleCurrent (World.workerState w).

Definition cycleTotalOf (w : World.t) : Z :=
  WorkerState.cycleTotal (World.workerState w).

(** The books after [n] turns that lead from the summary [acc] and the
    store [w] to [acc'] and [w']: every turn classifies its candidate once
    and advances the progress counter; no more new comments are counted than
    comments looked at; every new comment, and at most every new story
    besides, is counted as embedded. *)
Definition turnAccounts (n : Z) (acc : CycleResult.t) (w : World.t)
           (acc' : CycleResult.t) (w' : World.t) : Prop :=
  decided acc' = decided acc + n
  ∧ cycleCurrentOf w' = cycleCurrentOf w + n
  ∧ cycleTotalOf w' = cycleTotalOf w
  ∧ 0 <= CycleResult.ingested acc' - CycleResult.ingested acc
  ∧ 0 <= CycleResult.newComments acc' - CycleResult.newComments acc
  ∧ CycleResult.newComments acc' - CycleResult.newComments acc
    <= CycleResult.commentsProcessed acc' - CycleResult.commentsProcessed acc
  ∧ CycleResult.newComments acc' - CycleResult.newComments acc
    <= totalEmbeddedOf w' - totalEmbeddedOf w
  ∧ totalEmbeddedOf w' - totalEmbeddedOf w
    <= (CycleResult.newComments acc' - CycleResult.newComments acc)
       + (CycleResult.ingested acc' - CycleResult.ingested acc).

(** ** Regeneration *)

(** The columns of a story that the feed provides, and the flag
    [embedded]. *)
Definition storyRaw (s : Story.t) :=
  (Story.hnId s, Story.title s, Story.url s, Story.text s, Story.by_ s,
   Story.score s, Story.time s, Story.descendants s, Story.embedded s).

Definition commentRaw (c : Comment.t) :=
  (Comment.hnId c, Comment.storyHnId c, Comment.parentHnId c, Comment.text c,
   Comment.by_ c, Comment.time c, Comment.embedded c).

(** [maxItems] of [runRegeneration], with its default. *)
Definition maxItemsOf (options : RegenOptions.t) : nat :=
  default 50%nat (RegenOptions.maxItems options).

(** The stale stories of a table, as the [where] clause selects them. *)
Definition staleStories (v : string) (since until : option Z)
           (rows : list Story.t) : list Story.t :=
  filter (λ s, staleWhere v since until (Story.embedded s)
                          (Story.analysisVersion s) (Story.time s) = true)
         rows.

Definition staleComments (v : string) (since until : option Z)
           (rows : list Comment.t) : list Comment.t :=
  filter (λ c, staleWhere v since until (Comment.embedded c)
                          (Comment.analysisVersion c) (Comment.time c) = true)
         rows.

(** ** The worker state over a cycle *)

(** What a cycle may do to the worker state [s]. *)
Record workerFrame (s s' : WorkerState.t) : Prop := {
  wf_running : WorkerState.running s' = WorkerState.running s;
  wf_lastRunAt : WorkerState.lastRunAt s' = WorkerState.lastRunAt s;
  wf_lastRunResult :
    WorkerState.lastRunResult s' = WorkerState.lastRunResult s;
  wf_cycleStartedAt :
    WorkerState.cycleStartedAt s' = WorkerState.cycleStartedAt s;
  wf_totalProcessed :
    WorkerState.totalProcessed s <= WorkerState.totalProcessed s';
  wf_totalEmbedded :
    WorkerState.totalEmbedded s <= WorkerState.totalEmbedded s';
  wf_errors :
    (length (WorkerState.errors s')
     <= Nat.max 50 (length (WorkerState.errors s)))%nat
}.

(** The entry that a failed cycle leaves in the error list. *)
Definition cycleErrorEntry (e : Error.t) : string :=
  "cycle: " +:+ Js.orElse (Error.message e) "unknown".

(** ** Comment trees *)

(** The valid comments among the items of one level. *)
Definition levelComments (fetch : Z -> option HNItem.t) (kids : list Z)
  : list HNItem.t :=
  omap isValidComment (map fetch kids).

(** The identifiers [depth] levels below [kids]. *)
Fixpoint levelKids (fetch : Z -> option HNItem.t) (depth : nat)
         (kids : list Z) : list Z :=
  match depth with
  | O => kids
  | S depth' =>
      levelKids fetch depth' (Hn.childKids (levelComments fetch kids))
  end.

Definition validComment (c : HNItem.t) : Prop :=
  HNItem.type c = "comment" ∧ HNItem.deleted c = false
  ∧ HNItem.dead c = false.

(** A feed with the comment 301 and one reply to it, the deleted
    comment 302. *)
Definition threadFeed (hnId : Z) : option HNItem.t :=
  if hnId =? 301
  then Some (HNItem.mk 301 "comment" (Some "carol") 1699998200
                       (Some "first") None None None None (Some [302])
                       (Some 101) false false)
  else if hnId =? 302
  then Some (HNItem.mk 302 "comment" None 1699998300 None None None None
                       None (Some [303]) (Some 301) true false)
  else None.

(** ** Search *)

(** An index that answers with the stories 202 and 101, of which the
    table of [Scenario.afterCycle] holds the second. *)
Definition sampleSearch : Search.Env :=
  Search.mkEnv
    (λ _, Ok [(1 # 2)%Q])
    (λ _ _, Ok (Chroma.mk (Some [["story_202"; "story_101"]])
                          [[202; 101]]
                          (Some [[Some (1 # 10)%Q; Some (1 # 4)%Q]])))
    (λ _ _, Ok (Chroma.mk (Some [[]]) [[]] None)).

(** ** Completeness of a cycle *)

(** The table has a story with this identifier. *)
Definition hasStory (hnId : Z) (w : World.t) : bool :=
  existsb (λ s, Story.hnId s =? hnId) (World.stories w).

(** ** Regeneration reaches every stale story *)

(** The run has a pass over the stories. *)
Definition regeneratesStories (options : RegenOptions.t) : bool :=
  let type := default "all" (RegenOptions.type options) in
  String.eqb type "all" || String.eqb type "stories".

(** The services answer every call made for a story. *)
Definition storyServicesUp (env : Env.t) : Prop :=
  (∀ title text url, ∃ analysis,
      Env.analyzeStory env title text url = Ok analysis)
  ∧ (∀ text, ∃ embedding, Env.generateEmbedding env text = Ok embedding)
  ∧ (∀ hnId embedding metadata,
       Env.addStoryEmbedding env hnId embedding metadata = Ok tt).

(** How far a run for the version [v] has brought the row [s0]: the raw
    columns are as before, the version is as before or [v], and it is [v]
    when the row's turn is [done]. *)
Definition regenProgress (v : string) (done : list Z) (s0 s : Story.t)
  : Prop :=
  storyRaw s = storyRaw s0
  ∧ (Story.analysisVersion s = Story.analysisVersion s0
     ∨ Story.analysisVersion s = Some v)
  ∧ (Story.hnId s0 ∈ done -> Story.analysisVersion s = Some v).

(** ** The turn of a new story *)

(** The label that the turn of a new story shows while it runs. *)
Definition storyLabel (hnId : Z) (item : HNItem.t) : string :=
  Js.optOrElse (HNItem.title item) ("story " +:+ Js.ofNumber hnId).

(** A recent story without title and text. *)
Definition textlessStory : HNItem.t :=
  HNItem.mk 404 "story" (Some "dave") (Scenario.secondsAgo 60)
            (Some "<p> </p>") (Some "https://example.org/empty") None
            (Some 1) (Some 0) None None false false.

Definition textlessFeed : Env.t :=
  Env.mk Scenario.now (Ok [404]) (Ok [])
         (λ hnId, if hnId =? 404 then Ok (Some textlessStory) else Ok None)
         Scenario.fetchItems
         (λ _ _ _, Ok Scenario.storyAnalysis)
         (λ _ _ _, Ok Scenario.commentAnalysis)
         (λ _, Ok [(1 # 2)%Q; (1 # 3)%Q])
         (λ _ _ _, Ok tt)
         (λ _ _ _, Ok tt).

(** ** What reaches the vector index *)

(** A concept list that [normalizeConcepts] leaves as it is. *)
Definition isNormalized (concepts : list string) : bool :=
  bool_decide (normalizeConcepts concepts = concepts).

Definition storyConceptsNormalized (metadata : StoryMetadata.t) : bool :=
  isNormalized (StoryMetadata.concepts metadata).

Definition commentConceptsNormalized (metadata : CommentMetadata.t) : bool :=
  isNormalized (CommentMetadata.concepts metadata).

Definition indexRefusal : Error.t :=
  Error.mk "Error" "metadata refused" None.

(** [env] with a vector index that looks at what it is given: it takes a
    story with the metadata that [okStory] accepts and a comment with the
    metadata that [okComment] accepts, and fails on the others.  A run that
    goes the same way whether the index checks or not, for every [env], has
    handed to the index no metadata that the checks refuse. *)
Definition withIndexCheck (okStory : StoryMetadata.t -> bool)
           (okComment : CommentMetadata.t -> bool) (env : Env.t) : Env.t :=
  Env.mk (Env.now env) (Env.fetchTopStoryIds env) (Env.fetchNewStoryIds env)
         (Env.fetchItem env) (Env.fetchItems env)
         (Env.analyzeStory env) (Env.analyzeComment env)
         (Env.generateEmbedding env)
         (λ hnId embedding metadata,
            if okStory metadata
            then Env.addStoryEmbedding env hnId embedding metadata
            else Throw indexRefusal)
         (λ hnId embedding metadata,
            if okComment metadata
            then Env.addCommentEmbedding env hnId embedding metadata
            else Throw indexRefusal).

(** ** The two fields over a whole run *)

(** [embedded] and [analysisVersion] as the creation of a row leaves them,
    or as the update that stores an analysis leaves them. *)
Definition bothOrNeither (embedded : bool) (analysisVersion : option string)
  : Prop :=
  (embedded = false ∧ analysisVersion = None)
  ∨ (embedded = true ∧ analysisVersion = Some ANALYSIS_VERSION).

(** What an ingestion cycle does to the two fields: every row stored before
    keeps both, at its place, and every row that the cycle adds has them as
    they were created or as the one update of its analysis wrote them. *)
Definition cycleWritesBoth (w w' : World.t) : Prop :=
  ∃ keptStories addedStories addedComments,
    World.stories w' = keptStories ++ addedStories
    ∧ Forall2 (λ s0 s, Story.embedded s = Story.embedded s0
                       ∧ Story.analysisVersion s = Story.analysisVersion s0)
              (World.stories w) keptStories
    ∧ Forall (λ s, bothOrNeither (Story.embedded s) (Story.analysisVersion s))
             addedStories
    ∧ World.comments w' = World.comments w ++ addedComments
    ∧ Forall (λ c, bothOrNeither (Comment.embedded c)
                                 (Comment.analysisVersion c))
             addedComments.

(** ** A candidate that is no story *)

(** A job posting, twenty hours old. *)
Definition staleJob : HNItem.t :=
  HNItem.mk 505 "job" (Some "erin") (Scenario.secondsAgo 72000)
            (Some "We are hiring.") (Some "https://example.org/jobs")
            (Some "Example Corp is hiring") (Some 1) None None None
            false false.

Definition jobFeed : Env.t :=
  Env.mk Scenario.now (Ok [505]) (Ok [])
         (λ hnId, if hnId =? 505 then Ok (Some staleJob) else Ok None)
         Scenario.fetchItems
         (λ _ _ _, Ok Scenario.storyAnalysis)
         (λ _ _ _, Ok Scenario.commentAnalysis)
         (λ _, Ok [(1 # 2)%Q; (1 # 3)%Q])
         (λ _ _ _, Ok tt)
         (λ _ _ _, Ok tt).

(** ** The candidates, position by position *)

(** The identifiers of [ids] at the positions where they occur for the
    first time, in the order of [ids]: the iteration order of
    [new Set(ids)]. *)
Definition firstOccurrencesAfter (before ids : list Z) : list Z :=
  omap id (imap (λ i x, if decide (x ∈ before ++ take i ids)
                        then None else Some x) ids).

Definition firstOccurrences (ids : list Z) : list Z :=
  firstOccurrencesAfter [] ids.

(** ** Rows that fit their columns *)

(** Every comment analysis that the service returns for this comment gives
    a row that fits the columns. *)
Definition commentAnalysesFit (env : Env.t) (ci : HNItem.t) (storyHnId : Z)
           (storyTitle : string) (parentContext : option string) : Prop :=
  ∀ analysis,
    Env.analyzeComment env (stripHtml (HNItem.text ci)) storyTitle
                       parentContext = Ok analysis ->
    commentFits (analyzedCommentRow env ci storyHnId analysis) = true.

(** * Proofs

    ** Strings *)

Example stripHtml_tags :
  stripHtml (Some "<p>Hello <b>world</b></p>") = "Hello world".
Proof. reflexivity. Qed.

Example stripHtml_collapse : stripHtml (Some "hello   world") = "hello world".
Proof. reflexivity. Qed.

Example stripHtml_entities :
  stripHtml (Some "&amp; &lt; &gt; &#x27;") = "& < > '".
Proof. reflexivity. Qed.

Example stripHtml_quote :
  stripHtml (Some "say &quot;hi&quot;") = "say " +:+ quoted "hi".
Proof. reflexivity. Qed.

Example normalizeConcepts_sample :
  normalizeConcepts ["Open_Source  Sustainability "; " _ "; "AI"]
  = ["open source sustainability"; "ai"].
Proof. reflexivity. Qed.

Lemma chars_str l : Js.chars (Js.str l) = l.
Proof. apply list_ascii_of_string_of_list_ascii. Qed.

Lemma lowerChar_idem c : Js.lowerChar (Js.lowerChar c) = Js.lowerChar c.
Proof. destruct c as [[] [] [] [] [] [] [] []]; reflexivity. Qed.

Lemma plain_space : plainChar " "%char.
Proof. split; [reflexivity | discriminate]. Qed.

Lemma plain_after_replace l :
  Forall plainChar (Js.underscoresToSpacesL (Js.toLowerCaseL l)).
Proof.
  unfold Js.underscoresToSpacesL, Js.toLowerCaseL.
  induction l as [|c l IH]; simpl; constructor; auto.
  destruct (Ascii.eqb_spec (Js.lowerChar c) "_") as [E|E].
  - apply plain_space.
  - split; [apply lowerChar_idem | exact E].
Qed.

Lemma collapseFrom_Forall (P : ascii -> Prop) b l :
  P " "%char -> Forall P l -> Forall P (Js.collapseFrom b l).
Proof.
  intros Hsp H. revert b.
  induction H as [|c l Hc Hl IH]; intros b; simpl; [constructor|].
  destruct (Js.isWhiteSpace c); [destruct b|]; auto.
Qed.

Lemma trimStartL_suffix l : ∃ p, l = p ++ Js.trimStartL l ∧ Forall (λ c, Js.isWhiteSpace c = true) p.
Proof.
  induction l as [|c l [p [E Hp]]]; simpl.
  - exists []. split; [reflexivity | constructor].
  - destruct (Js.isWhiteSpace c) eqn:W.
    + exists (c :: p). split; [simpl; congruence | constructor; assumption].
    + exists []. split; [reflexivity | constructor].
Qed.

Lemma trimEndL_prefix l : ∃ s, l = Js.trimEndL l ++ s.
Proof.
  unfold Js.trimEndL.
  destruct (trimStartL_suffix (rev l)) as [p [E _]].
  exists (rev p).
  rewrite <- rev_app_distr, <- E. symmetry. apply rev_involutive.
Qed.

Lemma trimL_infix l : ∃ p s, l = p ++ Js.trimL l ++ s.
Proof.
  unfold Js.trimL.
  destruct (trimStartL_suffix l) as [p [E _]].
  destruct (trimEndL_prefix (Js.trimStartL l)) as [s E'].
  exists p, s. rewrite <- E'. exact E.
Qed.

Lemma Forall_trimL (P : ascii -> Prop) l : Forall P l -> Forall P (Js.trimL l).
Proof.
  intros H. destruct (trimL_infix l) as [p [s E]].
  rewrite E in H. apply Forall_app in H as [_ H].
  apply Forall_app in H as [H _]. exact H.
Qed.

Lemma collapseFrom_no_run b l :
  hasWhiteRun (Js.collapseFrom b l) = false
  ∧ (b = true -> cleanHead (Js.collapseFrom b l) = true).
Proof.
  revert b. induction l as [|c l IH]; intros b; simpl; [auto|].
  destruct (Js.isWhiteSpace c) eqn:W.
  - destruct b.
    + apply IH.
    + destruct (IH true) as [H1 H2]. specialize (H2 eq_refl).
      split; [|discriminate].
      simpl. destruct (Js.collapseFrom true l) as [|d r] eqn:E; [reflexivity|].
      simpl in H2. apply negb_true_iff in H2.
      change (Js.isWhiteSpace " ") with true. rewrite H2. exact H1.
  - destruct (IH false) as [H1 _]. split.
    + simpl. destruct (Js.collapseFrom false l) as [|d r] eqn:E; [reflexivity|].
      rewrite W. exact H1.
    + intros _. simpl. rewrite W. reflexivity.
Qed.

Lemma hasWhiteRun_app l1 l2 :
  hasWhiteRun (l1 ++ l2) = false ->
  hasWhiteRun l1 = false ∧ hasWhiteRun l2 = false.
Proof.
  induction l1 as [|a l1 IH]; simpl; [auto|].
  destruct l1 as [|b l1].
  - simpl. destruct l2; [auto|]. intros H.
    apply orb_false_iff in H as [_ H]. auto.
  - intros H. apply orb_false_iff in H as [H1 H2].
    destruct (IH H2) as [H3 H4]. rewrite H1. auto.
Qed.

Lemma trimL_no_run l : hasWhiteRun l = false -> hasWhiteRun (Js.trimL l) = false.
Proof.
  intros H. destruct (trimL_infix l) as [p [s E]]. rewrite E in H.
  apply hasWhiteRun_app in H as [_ H].
  apply hasWhiteRun_app in H as [H _]. exact H.
Qed.

Lemma trimStartL_clean l : cleanHead (Js.trimStartL l) = true.
Proof.
  induction l as [|c l IH]; simpl; [reflexivity|].
  destruct (Js.isWhiteSpace c) eqn:W; [exact IH|]. simpl. rewrite W. reflexivity.
Qed.

Lemma trimStartL_id l : cleanHead l = true -> Js.trimStartL l = l.
Proof.
  destruct l as [|c l]; simpl; [reflexivity|].
  intros H. apply negb_true_iff in H. rewrite H. reflexivity.
Qed.

Lemma trimStartL_snoc l c :
  Js.isWhiteSpace c = false -> Js.trimStartL (l ++ [c]) = Js.trimStartL l ++ [c].
Proof.
  intros W. induction l as [|a l IH]; simpl.
  - rewrite W. reflexivity.
  - destruct (Js.isWhiteSpace a); [exact IH | reflexivity].
Qed.

Lemma trimEndL_clean l : cleanHead l = true -> cleanHead (Js.trimEndL l) = true.
Proof.
  destruct l as [|c l]; [reflexivity|]. simpl. intros H.
  apply negb_true_iff in H. unfold Js.trimEndL. simpl.
  rewrite trimStartL_snoc by exact H.
  rewrite rev_app_distr. simpl. rewrite H. reflexivity.
Qed.

Lemma trimEndL_idem l : Js.trimEndL (Js.trimEndL l) = Js.trimEndL l.
Proof.
  unfold Js.trimEndL. rewrite rev_involutive.
  rewrite (trimStartL_id (Js.trimStartL (rev l))) by apply trimStartL_clean.
  reflexivity.
Qed.

Lemma trimL_idem l : Js.trimL (Js.trimL l) = Js.trimL l.
Proof.
  unfold Js.trimL.
  rewrite (trimStartL_id (Js.trimEndL (Js.trimStartL l))).
  - apply trimEndL_idem.
  - apply trimEndL_clean, trimStartL_clean.
Qed.

Lemma toLowerCaseL_plain l : Forall plainChar l -> Js.toLowerCaseL l = l.
Proof.
  unfold Js.toLowerCaseL. induction 1 as [|c l [Hc _] _ IH]; simpl; congruence.
Qed.

Lemma normalizeConcept_normal c :
  (0 < String.length (normalizeConcept c))%nat ->
  NormalizedConcept (normalizeConcept c).
Proof.
  intros Hlen. unfold normalizeConcept in *.
  set (l := Js.underscoresToSpacesL (Js.toLowerCaseL (Js.chars c))) in *.
  assert (Hplain : Forall plainChar (Js.trimL (Js.collapseWhiteSpaceL l))).
  { apply Forall_trimL, collapseFrom_Forall;
      [apply plain_space | apply plain_after_replace]. }
  split.
  - unfold Js.toLowerCase. rewrite chars_str.
    rewrite toLowerCaseL_plain by exact Hplain. reflexivity.
  - unfold Js.chars at 1. fold (Js.chars (Js.str (Js.trimL (Js.collapseWhiteSpaceL l)))).
    rewrite chars_str. intros Hin.
    rewrite Forall_forall in Hplain. apply Hplain in Hin as [_ Hne].
    congruence.
  - rewrite chars_str. apply trimL_no_run, collapseFrom_no_run.
  - unfold Js.trim. rewrite chars_str, trimL_idem. reflexivity.
  - intros E. rewrite E in Hlen. simpl in Hlen. lia.
Qed.

Lemma normalizeConcepts_normal concepts :
  Forall NormalizedConcept (normalizeConcepts concepts).
Proof.
  unfold normalizeConcepts. apply Forall_forall. intros c Hin.
  apply list_elem_of_filter in Hin as [Hlen Hin].
  apply list_elem_of_fmap in Hin as [c0 [-> _]].
  apply normalizeConcept_normal, Hlen.
Qed.

(** ** The retry wrapper *)

Lemma truthy_provider (provider : option string) :
  bool_decide (is_Some provider ∧ provider ≠ Some EmptyString)
  = match provider with
    | Some name => negb (String.eqb name EmptyString)
    | None => false
    end.
Proof.
  destruct provider as [p|].
  - destruct (String.eqb_spec p EmptyString) as [E|E]; simpl.
    + apply bool_decide_eq_false_2. intros [_ H]. congruence.
    + apply bool_decide_eq_true_2. split; [eauto | congruence].
  - apply bool_decide_eq_false_2. intros [[? H] _]. discriminate.
Qed.

Lemma retryDelay_table error attempt maxRetries :
  Js.timeoutMs <$> Retry.retryDelay error attempt maxRetries =
  if (attempt <? maxRetries)%nat
  then match Retry.table (Retry.classify error)
                         (Retry.serverRetryAfterMs error) attempt with
       | Retry.RetryAfter wait => Some wait
       | Retry.FailFast => None
       end
  else None.
Proof.
  unfold Retry.retryDelay, Retry.classify, Retry.serverRetryAfterMs.
  rewrite truthy_provider.
  destruct error as [name message [[status provider retryAfter]|]];
    cbn [Error.response HttpResponse.status HttpResponse.provider_name
         HttpResponse.retry_after fmap option_fmap option_map mbind
         option_bind].
  2: { rewrite !bool_decide_eq_false_2 by discriminate.
       simpl. rewrite andb_false_r.
       destruct (attempt <? maxRetries)%nat; reflexivity. }
  destruct (Nat.ltb_spec attempt maxRetries) as [Hlt|Hge];
    rewrite ?andb_false_r, ?andb_true_r; cbn [andb].
  - destruct (Z.eqb_spec status 429) as [->|N429].
    { rewrite bool_decide_eq_false_2 by discriminate.
      rewrite bool_decide_eq_true_2 by reflexivity.
      reflexivity. }
    rewrite (bool_decide_eq_false_2 (Some status = Some 429)) by congruence.
    destruct (Z.eqb_spec status 400) as [->|N400].
    { rewrite bool_decide_eq_true_2 by reflexivity. cbn [andb].
      change (500 <=? 400) with false. cbn [andb negb].
      destruct provider as [p|]; [destruct (String.eqb p EmptyString)|];
        reflexivity. }
    rewrite (bool_decide_eq_false_2 (Some status = Some 400)) by congruence.
    cbn [andb].
    destruct (Z.leb_spec 500 status) as [H5|H5].
    + destruct (Z.eqb_spec status 0) as [->|N0]; [lia|]. reflexivity.
    + rewrite andb_false_r. reflexivity.
  - destruct (bool_decide (Some status = Some 429));
      destruct (bool_decide (Some status = Some 400)); reflexivity.
Qed.

Lemma withRetryFrom_table {T} (fn : nat -> Result T) maxRetries remaining :
  ∀ attempt, (attempt + remaining = maxRetries)%nat ->
  Retry.withRetryFrom fn maxRetries (S remaining) attempt
  = Retry.tableRetryFrom fn remaining attempt.
Proof.
  induction remaining as [|remaining IH]; intros attempt Hsum.
  - simpl. destruct (fn attempt) as [v|e] eqn:E; [reflexivity|].
    pose proof (retryDelay_table e attempt maxRetries) as Ht.
    replace (attempt <? maxRetries)%nat with false in Ht
      by (symmetry; apply Nat.ltb_ge; lia).
    destruct (Retry.retryDelay e attempt maxRetries); [discriminate|].
    reflexivity.
  - cbn [Retry.withRetryFrom Retry.tableRetryFrom].
    destruct (fn attempt) as [v|e] eqn:E; [reflexivity|].
    pose proof (retryDelay_table e attempt maxRetries) as Ht.
    replace (attempt <? maxRetries)%nat with true in Ht
      by (symmetry; apply Nat.ltb_lt; lia).
    destruct (Retry.retryDelay e attempt maxRetries) as [d|];
      destruct (Retry.table _ _ _) as [wait|]; try discriminate;
      [|reflexivity].
    injection Ht as <-. rewrite <- IH by lia. reflexivity.
Qed.

Lemma withRetryFrom_delays {T} (fn : nat -> Result T) maxRetries remaining :
  ∀ attempt, (attempt + remaining = S maxRetries)%nat ->
  (length (Retry.withRetryFrom fn maxRetries remaining attempt).2
   ≤ remaining - 1)%nat.
Proof.
  induction remaining as [|remaining IH]; intros attempt Hsum; simpl; [lia|].
  destruct (fn attempt) as [v|e]; simpl; [lia|].
  unfold Retry.retryDelay.
  destruct (Nat.ltb_spec attempt maxRetries) as [Hlt|Hge].
  - specialize (IH (S attempt) ltac:(lia)).
    destruct (Retry.withRetryFrom fn maxRetries remaining (S attempt)) as [r ds].
    simpl in IH.
    repeat (match goal with |- context [if ?b then _ else _] => destruct b end);
      simpl; lia.
  - rewrite !andb_false_r. simpl. lia.
Qed.

Lemma timeoutMs_in_range d :
  1 <= d <= 2147483647 -> Js.timeoutMs (Js.Int d) = d.
Proof.
  intros H. unfold Js.timeoutMs.
  destruct (Z.leb_spec 1 d); [|lia].
  destruct (Z.leb_spec d 2147483647); [reflexivity | lia].
Qed.


Example withRetry_flaky :
  Retry.withRetry flakyCall Retry.defaultMaxRetries
  = (Ok 7, [10000; 10000; 6000; 16000]).
Proof. reflexivity. Qed.


(** ** Response parsing *)

Lemma throughLastClose_None l :
  OpenRouter.throughLastClose l = None -> "}"%char ∉ l.
Proof.
  induction l as [|c l IH]; simpl; intros H.
  - apply not_elem_of_nil.
  - destruct (OpenRouter.throughLastClose l); [discriminate|].
    destruct (Ascii.eqb_spec c "}") as [E|E]; [discriminate|].
    apply not_elem_of_cons. split; [congruence | auto].
Qed.

Lemma throughLastClose_Some l p :
  OpenRouter.throughLastClose l = Some p ->
  ∃ mid post, l = mid ++ "}"%char :: post ∧ p = mid ++ ["}"%char]
              ∧ "}"%char ∉ post.
Proof.
  revert p. induction l as [|c l IH]; simpl; intros p H; [discriminate|].
  destruct (OpenRouter.throughLastClose l) as [q|] eqn:E.
  - inversion H; subst. destruct (IH q eq_refl) as (mid & post & -> & -> & Hp).
    exists (c :: mid), post. auto.
  - destruct (Ascii.eqb_spec c "}") as [->|N]; [|discriminate].
    inversion H; subst. exists [], l.
    split; [reflexivity|]. split; [reflexivity|].
    apply throughLastClose_None, E.
Qed.

Lemma first_open_unique (pre pre' post post' : list ascii) :
  pre ++ "{"%char :: post = pre' ++ "{"%char :: post' ->
  "{"%char ∉ pre -> "{"%char ∉ pre' -> pre = pre' ∧ post = post'.
Proof.
  revert pre'. induction pre as [|a pre IH]; intros [|b pre'] E H H'; simpl in E.
  - inversion E. auto.
  - inversion E; subst. exfalso. apply H'. left.
  - inversion E; subst. exfalso. apply H. left.
  - inversion E; subst.
    apply not_elem_of_cons in H as [_ H]. apply not_elem_of_cons in H' as [_ H'].
    destruct (IH _ H2 H H') as [-> ->]. auto.
Qed.

Lemma matchObject_span l : BraceSpan l (OpenRouter.matchObject l).
Proof.
  induction l as [|c l IH]; simpl.
  - apply span_missing. intros pre post E. destruct pre; discriminate.
  - destruct (Ascii.eqb_spec c "{") as [->|N].
    + destruct (OpenRouter.throughLastClose l) as [p|] eqn:E.
      * apply throughLastClose_Some in E as (mid & post & -> & -> & Hp).
        apply (span_found _ [] mid post); [reflexivity | apply not_elem_of_nil | exact Hp].
      * apply span_missing. intros pre post E' Hpre.
        destruct (first_open_unique [] pre l post E' (not_elem_of_nil _) Hpre)
          as [_ <-].
        apply throughLastClose_None, E.
    + inversion IH as [pre mid post E Hpre Hpost Hm | Hnone Hm].
      * apply (span_found _ (c :: pre) mid post);
          [simpl; congruence | | exact Hpost].
        apply not_elem_of_cons. split; [congruence | exact Hpre].
      * apply span_missing. intros pre post E Hpre.
        destruct pre as [|a pre]; simpl in E; inversion E; subst; [congruence|].
        apply not_elem_of_cons in Hpre as [_ Hpre]. eapply Hnone; eauto.
Qed.

Lemma last_close_unique (mid mid' post post' : list ascii) :
  mid ++ "}"%char :: post = mid' ++ "}"%char :: post' ->
  "}"%char ∉ post -> "}"%char ∉ post' -> mid = mid' ∧ post = post'.
Proof.
  revert mid'. induction mid as [|a mid IH]; intros [|b mid'] E H H'; simpl in E.
  - inversion E. auto.
  - inversion E; subst. exfalso. apply H. apply elem_of_app. right. left.
  - inversion E; subst. exfalso. apply H'. apply elem_of_app. right. left.
  - inversion E; subst. destruct (IH _ H2 H H') as [-> ->]. auto.
Qed.

Lemma BraceSpan_functional l span span' :
  BraceSpan l span -> BraceSpan l span' -> span = span'.
Proof.
  intros [pre mid post E Hpre Hpost | Hnone]
         [pre' mid' post' E' Hpre' Hpost' | Hnone'].
  - rewrite E in E'.
    destruct (first_open_unique _ _ _ _ E' Hpre Hpre') as [_ Em].
    destruct (last_close_unique _ _ _ _ Em Hpost Hpost') as [-> _].
    reflexivity.
  - exfalso. apply (Hnone' pre (mid ++ "}"%char :: post) E Hpre).
    apply elem_of_app. right. left.
  - exfalso. apply (Hnone pre' (mid' ++ "}"%char :: post') E' Hpre').
    apply elem_of_app. right. left.
  - reflexivity.
Qed.

(** C9, as the code has it.  Strict parsing comes first.  When it fails, the
    text from the first opening brace through the last closing brace is
    parsed instead, and the call gives up with an error when that text does
    not parse or when there is no such text. *)
Theorem parseJsonResponse_first_to_last_brace (content : string) span :
  BraceSpan (Js.chars content) span ->
  OpenRouter.parseJsonResponse content
  = match Json.parse content with
    | Some v => Ok v
    | None =>
        match span with
        | Some m =>
            match Json.parse (Js.str m) with
            | Some v => Ok v
            | None => Throw OpenRouter.syntaxError
            end
        | None => Throw (OpenRouter.parseFailure content)
        end
    end.
Proof.
  intros Hspan.
  rewrite (BraceSpan_functional _ _ _ Hspan
             (matchObject_span (Js.chars content))).
  reflexivity.
Qed.

Lemma parseJsonResponse_first_to_last_brace_witness :
  OpenRouter.parseJsonResponse sureHereIsJson
  = Ok (Json.Object [("a", Json.Array [Json.Number "1"; Json.Number "2"])]).
Proof.
  rewrite (parseJsonResponse_first_to_last_brace sureHereIsJson
             (Some (Js.chars ("{" +:+ quoted "a" +:+ ": [1,2]}")))).
  - reflexivity.
  - apply (span_found _ (Js.chars "Sure! Here is the JSON: ")
             (Js.chars (quoted "a" +:+ ": [1,2]"))
             (Js.chars " hope it helps")).
    + reflexivity.
    + apply (bool_decide_unpack _). vm_compute. exact I.
    + apply (bool_decide_unpack _). vm_compute. exact I.
Defined.

Example chatCompletion_parse_failure_is_not_retried :
  OpenRouter.chatCompletion (λ _, Ok "no json here")
  = (Throw (OpenRouter.parseFailure "no json here"), []).
Proof. reflexivity. Qed.

Example chatCompletion_retries_server_errors :
  OpenRouter.chatCompletion
    (λ attempt, if (attempt <? 2)%nat then Throw (httpError 502 None None)
                else Ok sureHereIsJson)
  = (Ok (Json.Object [("a", Json.Array [Json.Number "1"; Json.Number "2"])]),
     [2000; 4000]).
Proof. reflexivity. Qed.

(** C9, counterexample.  On the text [{"a":1} and {"b":2}] strict parsing
    fails, the first balanced brace substring is [{"a":1}] and parses, and
    yet [parseJsonResponse] gives up with an error. *)
Lemma parseJsonResponse_skips_first_balanced :
  Json.parse twoObjects = None
  ∧ OpenRouter.firstBalanced (Js.chars twoObjects) = Some (Js.chars firstObject)
  ∧ Json.parse firstObject = Some (Json.Object [("a", Json.Number "1")])
  ∧ OpenRouter.parseJsonResponse twoObjects = Throw OpenRouter.syntaxError.
Proof. repeat split; vm_compute; reflexivity. Qed.

(** ** Runs as chains of writes *)

Section TraceRules.
Variable R : World.t -> World.t -> Prop.

Lemma traces_ret {A} (a : A) : Traces R (ret a).
Proof. intros w. apply rtc_refl. Qed.

Lemma traces_await {A} (r : Result A) : Traces R (await r).
Proof. intros w. apply rtc_refl. Qed.

Lemma traces_modify f : (∀ w, R w (f w)) -> Traces R (modify f).
Proof. intros H w. apply rtc_once, H. Qed.

Lemma traces_bind {A B} (m : M A) (k : A -> M B) :
  Traces R m -> (∀ a, Traces R (k a)) -> Traces R (bind m k).
Proof.
  intros Hm Hk w. unfold bind. specialize (Hm w).
  destruct (m w) as [[a|e] w1]; simpl in *; [|exact Hm].
  eapply rtc_trans; [exact Hm | apply Hk].
Qed.

Lemma traces_bind_await {A B} (r : Result A) (k : A -> M B) :
  (∀ a, r = Ok a -> Traces R (k a)) -> Traces R (bind (await r) k).
Proof.
  intros Hk w. unfold bind, await. destruct r as [a|e]; simpl.
  - apply Hk. reflexivity.
  - apply rtc_refl.
Qed.

Lemma traces_tryCatch {A} (m : M A) (h : Error.t -> M A) :
  Traces R m -> (∀ e, Traces R (h e)) -> Traces R (tryCatch m h).
Proof.
  intros Hm Hh w. unfold tryCatch. specialize (Hm w).
  destruct (m w) as [[a|e] w1]; simpl in *; [exact Hm|].
  eapply rtc_trans; [exact Hm | apply Hh].
Qed.

Lemma traces_stories_findOne h : Traces R (Stories.findOne h).
Proof. intros w. apply rtc_refl. Qed.

Lemma traces_comments_findOne h : Traces R (Comments.findOne h).
Proof. intros w. apply rtc_refl. Qed.

Lemma traces_comments_findAllIn ids : Traces R (Comments.findAllIn ids).
Proof. intros w. apply rtc_refl. Qed.

Lemma traces_inv (I : World.t -> Prop) w w' :
  (∀ w1 w2, R w1 w2 -> I w1 -> I w2) -> rtc R w w' -> I w -> I w'.
Proof. intros Hstep Hrtc. induction Hrtc; eauto. Qed.
End TraceRules.

Lemma existsb_false_Forall {A} (p : A -> bool) (l : list A) :
  existsb p l = false -> Forall (λ x, p x = false) l.
Proof.
  induction l as [|x l IH]; simpl; intros H; constructor.
  - apply orb_false_iff in H. tauto.
  - apply IH. apply orb_false_iff in H. tauto.
Qed.

Section IngestTraces.
Variable cfg : Config.t.
Variable env : Env.t.

Lemma traces_worker f : Traces (IngestStep cfg env) (modify (World.withWorker f)).
Proof. apply traces_modify. intros w. apply step_worker. Qed.

Lemma traces_create_story hnId item :
  Env.fetchItem env hnId = Ok (Some item) ->
  HNItem.type item = "story" ->
  isRecent cfg env (HNItem.time item) = true ->
  Traces (IngestStep cfg env) (Stories.create (newStoryRow item)).
Proof.
  intros Hf Ht Hr w. unfold Stories.create.
  destruct (existsb _ _) eqn:E; simpl; [apply rtc_refl|].
  apply rtc_once. eapply step_create_story; eauto.
  apply existsb_false_Forall in E.
  eapply Forall_impl; [exact E|]. simpl. intros s Hs. lia.
Qed.

Lemma analyzeNewStory_traces item story rawText :
  Traces (IngestStep cfg env) (analyzeNewStory env item story rawText).
Proof.
  unfold analyzeNewStory.
  apply traces_bind_await. intros analysis _.
  apply traces_bind_await. intros embedding _.
  apply traces_bind.
  { apply traces_modify. intros w. apply step_analyze_story. }
  intros _. apply traces_bind; [apply traces_await|].
  intros _. apply traces_worker.
Qed.

Lemma processStoryOnly_traces hnId :
  Traces (IngestStep cfg env) (processStoryOnly cfg env hnId).
Proof.
  unfold processStoryOnly.
  apply traces_bind; [apply traces_stories_findOne|]. intros existing.
  apply traces_bind_await. intros fetched Hf.
  destruct fetched as [item|]; [|apply traces_ret].
  destruct (String.eqb_spec (HNItem.type item) "story") as [Ht|Ht];
    cbn [negb]; [|apply traces_ret].
  destruct (isRecent cfg env (HNItem.time item)) eqn:Hr;
    cbn [negb]; [|apply traces_ret].
  destruct existing as [ex|].
  - apply traces_bind; [|intros; apply traces_ret].
    apply traces_modify. intros w. apply step_refresh_story.
  - apply traces_bind; [apply traces_worker|]. intros _.
    apply traces_bind; [eapply traces_create_story; eauto|]. intros story.
    apply traces_bind.
    + destruct (0 <? _)%nat; [|apply traces_ret].
      apply traces_tryCatch; [apply analyzeNewStory_traces|].
      intros e. apply traces_worker.
    + intros _. apply traces_bind; [apply traces_worker|].
      intros _. apply traces_ret.
Qed.

Lemma comment_step_ingest w w' : CommentStep env w w' -> IngestStep cfg env w w'.
Proof.
  intros H. destruct H.
  - apply step_worker.
  - apply step_create_comment. assumption.
  - apply step_analyze_comment.
Qed.

Lemma traces_create_comment ci storyHnId :
  Traces (CommentStep env) (Comments.create (newCommentRow ci storyHnId)).
Proof.
  intros w. unfold Comments.create.
  destruct (existsb _ _) eqn:E; simpl; [apply rtc_refl|].
  apply rtc_once. eapply cstep_create.
  apply existsb_false_Forall in E.
  eapply Forall_impl; [exact E|]. simpl. intros s Hs. lia.
Qed.

Lemma processComment_traces ci storyHnId storyTitle parentContext :
  Traces (CommentStep env)
         (processComment env ci storyHnId storyTitle parentContext).
Proof.
  unfold processComment.
  apply traces_tryCatch.
  - apply traces_bind; [apply traces_create_comment|]. intros comment.
    destruct (30 <? _)%nat; [|apply traces_ret].
    apply traces_tryCatch; [|intros; apply traces_ret].
    unfold analyzeNewComment.
    apply traces_bind_await. intros analysis _.
    apply traces_bind_await. intros embedding _.
    apply traces_bind.
    { apply traces_modify. intros w. apply cstep_analyze. }
    intros _. apply traces_bind; [apply traces_await|].
    intros _. apply traces_bind.
    { apply traces_modify. intros w. apply cstep_embedded. }
    intros _. apply traces_ret.
  - intros e. destruct (String.eqb _ _); apply traces_ret.
Qed.

Lemma commentLoop_traces item existingSet todo :
  ∀ parentSummaryMap commentsProcessed newComments,
    Traces (CommentStep env)
           (commentLoop cfg env item existingSet todo parentSummaryMap
                        commentsProcessed newComments).
Proof.
  induction todo as [|ci rest IH]; intros psm cp nc; simpl.
  - apply traces_ret.
  - destruct (decide _); [apply IH|].
    destruct (_ && _); [apply traces_ret|].
    apply traces_bind; [apply processComment_traces|]. intros [|].
    + apply traces_bind; [apply traces_comments_findOne|]. intros nc'.
      apply IH.
    + apply IH.
Qed.

Lemma processStoryComments_traces item :
  Traces (CommentStep env) (processStoryComments cfg env item).
Proof.
  unfold processStoryComments.
  destruct (HNItem.kids item) as [[|k kids]|]; try apply traces_ret.
  apply traces_bind_await. intros topLevelItems _.
  apply traces_bind; [apply traces_comments_findAllIn|]. intros existing.
  apply commentLoop_traces.
Qed.

Lemma processStoryComments_ingest item :
  Traces (IngestStep cfg env) (processStoryComments cfg env item).
Proof.
  intros w. eapply rtc_subrel; [|apply processStoryComments_traces].
  intros x y. apply comment_step_ingest.
Qed.

(** What the comment phase leaves alone. *)
Lemma comment_steps_frame w w' :
  rtc (CommentStep env) w w' ->
  World.stories w' = World.stories w
  ∧ WorkerState.errors (World.workerState w')
    = WorkerState.errors (World.workerState w)
  ∧ WorkerState.totalProcessed (World.workerState w')
    = WorkerState.totalProcessed (World.workerState w).
Proof.
  induction 1 as [|w1 w2 w3 H12 _ IH]; [auto|].
  destruct IH as (-> & -> & ->). destruct H12; simpl; auto.
Qed.

Lemma commentPhase_result item acc w :
  ∃ acc' w',
    commentPhase cfg env item acc w = (Ok acc', w')
    ∧ CycleResult.ingested acc' = CycleResult.ingested acc
    ∧ World.stories w' = World.stories w
    ∧ WorkerState.errors (World.workerState w')
      = WorkerState.errors (World.workerState w)
    ∧ WorkerState.totalProcessed (World.workerState w')
      = WorkerState.totalProcessed (World.workerState w).
Proof.
  unfold commentPhase, tryCatch, bind, modify.
  set (w1 := World.withWorker _ w).
  pose proof (processStoryComments_traces item w1) as Htr.
  apply comment_steps_frame in Htr as (HS & HE & HT).
  destruct (processStoryComments cfg env item w1) as [[[cp nc]|e] w2];
    cbn [fst snd] in *; eexists _, _; (split; [reflexivity|]);
    rewrite HS, HE, HT; auto.
Qed.

Lemma commentPhase_traces item acc : Traces (IngestStep cfg env) (commentPhase cfg env item acc).
Proof.
  unfold commentPhase.
  apply traces_tryCatch; [|intros; apply traces_ret].
  apply traces_bind; [apply traces_worker|]. intros _.
  apply traces_bind; [apply processStoryComments_ingest|].
  intros [cp nc]. apply traces_ret.
Qed.

Lemma storyTurn_traces hnId acc : Traces (IngestStep cfg env) (storyTurn cfg env hnId acc).
Proof.
  unfold storyTurn.
  apply traces_bind; [apply processStoryOnly_traces|]. intros [result item].
  apply traces_bind; [apply traces_worker|]. intros _.
  destruct item as [it|]; [|apply traces_ret].
  destruct result; first [apply traces_ret | apply commentPhase_traces].
Qed.

Lemma cycleStep_traces hnId acc : Traces (IngestStep cfg env) (cycleStep cfg env hnId acc).
Proof.
  unfold cycleStep.
  apply traces_bind; [apply traces_worker|]. intros _.
  apply traces_tryCatch; [apply storyTurn_traces|].
  intros e. apply traces_bind; [apply traces_worker|].
  intros _. apply traces_ret.
Qed.

Lemma cycleLoop_traces toProcess :
  ∀ acc, Traces (IngestStep cfg env) (cycleLoop cfg env toProcess acc).
Proof.
  induction toProcess as [|h rest IH]; intros acc; simpl.
  - apply traces_ret.
  - apply traces_bind; [apply cycleStep_traces | apply IH].
Qed.

Lemma runIngestionCycle_traces : Traces (IngestStep cfg env) (runIngestionCycle cfg env).
Proof.
  unfold runIngestionCycle.
  apply traces_bind_await. intros topIds _.
  apply traces_bind_await. intros newIds _.
  apply traces_bind; [apply traces_worker|]. intros _.
  apply cycleLoop_traces.
Qed.
End IngestTraces.

(** ** Rows under [update] and [create] *)

Lemma Forall_updateFirst {A} (P : A -> Prop) (p : A -> bool) (f : A -> A) l :
  (∀ x, P x -> P (f x)) -> Forall P l -> Forall P (updateFirst p f l).
Proof.
  intros Hf H. induction H as [|x l Hx Hl IH]; simpl; [constructor|].
  destruct (p x); constructor; auto.
Qed.

Lemma Forall2_updateFirst {A} (R : A -> A -> Prop) (p : A -> bool)
      (f : A -> A) l0 l :
  (∀ x0 x, x0 ∈ l0 -> R x0 x -> p x = true -> R x0 (f x)) ->
  Forall2 R l0 l -> Forall2 R l0 (updateFirst p f l).
Proof.
  intros Hf H. induction H as [|x0 x l0 l Hx Hl IH]; simpl; [constructor|].
  destruct (p x) eqn:E.
  - constructor; [|exact Hl]. apply Hf; [left | exact Hx | exact E].
  - constructor; [exact Hx|]. apply IH.
    intros y0 y Hy. apply Hf. right. exact Hy.
Qed.

Lemma map_updateFirst {A B} (g : A -> B) (p : A -> bool) (f : A -> A) l :
  (∀ x, g (f x) = g x) -> map g (updateFirst p f l) = map g l.
Proof.
  intros Hg. induction l as [|x l IH]; simpl; [reflexivity|].
  destruct (p x); simpl; congruence.
Qed.

Lemma NoDup_map_snoc {A B} (g : A -> B) l x :
  NoDup (map g l) -> Forall (λ y, g y ≠ g x) l -> NoDup (map g (l ++ [x])).
Proof.
  intros Hnd Hx. rewrite map_app. simpl.
  apply NoDup_app. split; [exact Hnd|]. split; [|apply NoDup_singleton].
  intros b Hb Hb'. apply list_elem_of_singleton in Hb'. subst b.
  apply list_elem_of_fmap in Hb as [y [Hy Hin]].
  rewrite Forall_forall in Hx. apply (Hx y Hin). congruence.
Qed.

Lemma NoDup_map_eq {A B} (g : A -> B) l x y :
  NoDup (map g l) -> x ∈ l -> y ∈ l -> g x = g y -> x = y.
Proof.
  induction l as [|a l IH]; simpl; intros Hnd Hx Hy E.
  - inversion Hx.
  - apply NoDup_cons in Hnd as [Ha Hnd].
    apply elem_of_cons in Hx as [->|Hx];
      apply elem_of_cons in Hy as [->|Hy]; auto.
    + exfalso. apply Ha. rewrite E. apply list_elem_of_fmap. eauto.
    + exfalso. apply Ha. rewrite <- E. apply list_elem_of_fmap. eauto.
Qed.

(** ** Invariants along an ingestion cycle *)

Section IngestInvariants.
Variable cfg : Config.t.
Variable env : Env.t.

Lemma ingest_step_unique w w' :
  IngestStep cfg env w w' -> uniqueHnIds w -> uniqueHnIds w'.
Proof.
  unfold uniqueHnIds.
  intros Hstep [HS HC]. destruct Hstep; simpl; split; try assumption.
  - apply NoDup_map_snoc; assumption.
  - rewrite map_updateFirst; [assumption | reflexivity].
  - rewrite map_updateFirst; [assumption | reflexivity].
  - apply NoDup_map_snoc; assumption.
  - rewrite map_updateFirst; [assumption | reflexivity].
Qed.

Lemma ingest_step_analyzedIff w w' :
  IngestStep cfg env w w' -> analyzedIff w -> analyzedIff w'.
Proof.
  unfold analyzedIff.
  intros Hstep [HS HC]. destruct Hstep; simpl; split; try assumption.
  - apply Forall_app. split; [assumption|]. constructor; [|constructor].
    unfold storyAnalyzedIff. simpl. split; [discriminate | congruence].
  - apply Forall_updateFirst; [|assumption].
    intros s Hs. exact Hs.
  - apply Forall_updateFirst; [|assumption].
    intros s _. unfold storyAnalyzedIff. simpl. split; [discriminate | reflexivity].
  - apply Forall_app. split; [assumption|]. constructor; [|constructor].
    unfold commentAnalyzedIff. simpl. split; [discriminate | congruence].
  - apply Forall_updateFirst; [|assumption].
    intros s _. unfold commentAnalyzedIff. simpl. split; [discriminate | reflexivity].
Qed.

(** Properties of concept lists that hold of the unset column and of
    every normalized list hold of every row once they hold of all. *)
Lemma ingest_step_concepts (PS PC : option (list string) -> Prop) w w' :
  PS None -> (∀ cs, PS (Some (normalizeConcepts cs))) ->
  PC None -> (∀ cs, PC (Some (normalizeConcepts cs))) ->
  IngestStep cfg env w w' ->
  Forall (λ s, PS (Story.concepts s)) (World.stories w)
  ∧ Forall (λ c, PC (Comment.concepts c)) (World.comments w) ->
  Forall (λ s, PS (Story.concepts s)) (World.stories w')
  ∧ Forall (λ c, PC (Comment.concepts c)) (World.comments w').
Proof.
  intros HSN HSP HCN HCP Hstep [HS HC].
  destruct Hstep; simpl; split; try assumption.
  - apply Forall_app. split; [assumption|]. constructor; [exact HSN | constructor].
  - apply Forall_updateFirst; [|assumption]. intros s Hs. exact Hs.
  - apply Forall_updateFirst; [|assumption]. intros s _. apply HSP.
  - apply Forall_app. split; [assumption|]. constructor; [exact HCN | constructor].
  - apply Forall_updateFirst; [|assumption]. intros s _. apply HCP.
Qed.

Lemma ingest_step_provenance ids0 w w' :
  IngestStep cfg env w w' ->
  Forall (storyProvenance cfg env ids0) (World.stories w) ->
  Forall (storyProvenance cfg env ids0) (World.stories w').
Proof.
  intros Hstep HS. destruct Hstep; simpl; try assumption.
  - apply Forall_app. split; [assumption|]. constructor; [|constructor].
    right. eauto 10.
  - apply Forall_updateFirst; [|assumption]. intros s Hs. exact Hs.
  - apply Forall_updateFirst; [|assumption]. intros s Hs. exact Hs.
Qed.
End IngestInvariants.

(** ** Regeneration runs *)

Section RegenTraces.
Variable env : Env.t.

Lemma regenStoriesLoop_traces (R : World.t -> World.t -> Prop) v todo :
  (∀ snap analysis w,
      snap ∈ todo ->
      R w (patchStoryRows snap
             (regenStoryPatch env analysis
                (normalizeConcepts (StoryAnalysis.concepts analysis)) v) w)) ->
  ∀ report, Traces R (regenStoriesLoop env v todo report).
Proof.
  induction todo as [|story rest IH]; intros HR report; simpl.
  - apply traces_ret.
  - apply traces_bind.
    + apply traces_tryCatch; [|intros; apply traces_ret].
      apply traces_bind; [|intros; apply traces_ret].
      unfold regenerateStory.
      apply traces_bind_await. intros analysis _.
      apply traces_bind_await. intros embedding _.
      apply traces_bind; [|intros; apply traces_await].
      apply traces_modify. intros w. apply HR. left.
    + intros report'. apply IH. intros snap analysis w Hin.
      apply HR. right. exact Hin.
Qed.

Lemma regenCommentsLoop_traces (R : World.t -> World.t -> Prop) v todo :
  (∀ snap analysis w,
      snap ∈ todo ->
      R w (patchCommentRows snap
             (regenCommentPatch env analysis
                (normalizeConcepts (CommentAnalysis.concepts analysis)) v) w)) ->
  ∀ report, Traces R (regenCommentsLoop env v todo report).
Proof.
  induction todo as [|comment rest IH]; intros HR report; simpl.
  - apply traces_ret.
  - apply traces_bind.
    + apply traces_tryCatch; [|intros; apply traces_ret].
      apply traces_bind; [|intros; apply traces_ret].
      unfold regenerateComment.
      destruct (_ <=? 30)%nat; [apply traces_ret|].
      apply traces_bind; [apply traces_stories_findOne|]. intros story.
      apply traces_bind.
      { destruct (parentOrNull _); [|apply traces_ret].
        apply traces_bind; [apply traces_comments_findOne|].
        intros; apply traces_ret. }
      intros parentContext.
      apply traces_bind_await. intros analysis _.
      apply traces_bind_await. intros embedding _.
      apply traces_bind.
      { apply traces_modify. intros w. apply HR. left. }
      intros _. apply traces_bind; [apply traces_await|].
      intros; apply traces_ret.
    + intros report'. apply IH. intros snap analysis w Hin.
      apply HR. right. exact Hin.
Qed.

Lemma storiesToRegen_stale v since until limit rows s :
  s ∈ storiesToRegen v since until limit rows ->
  s ∈ rows
  ∧ staleWhere v since until (Story.embedded s) (Story.analysisVersion s)
               (Story.time s) = true.
Proof.
  unfold storiesToRegen. intros H.
  apply elem_of_take in H as (i & Hi & _).
  apply list_elem_of_lookup_2 in Hi.
  rewrite merge_sort_Permutation in Hi.
  apply list_elem_of_filter in Hi. tauto.
Qed.

Lemma commentsToRegen_stale v since until limit rows c :
  c ∈ commentsToRegen v since until limit rows ->
  c ∈ rows
  ∧ staleWhere v since until (Comment.embedded c)
               (Comment.analysisVersion c) (Comment.time c) = true.
Proof.
  unfold commentsToRegen. intros H.
  apply elem_of_take in H as (i & Hi & _).
  apply list_elem_of_lookup_2 in Hi.
  rewrite merge_sort_Permutation in Hi.
  apply list_elem_of_filter in Hi. tauto.
Qed.

(** A relation that every write of the story loop satisfies: the comment
    table is left alone. *)
Lemma regenStoriesLoop_comments v todo report w :
  World.comments (regenStoriesLoop env v todo report w).2 = World.comments w.
Proof.
  pose (R := λ w1 w2 : World.t, World.comments w2 = World.comments w1).
  assert (H : rtc R w (regenStoriesLoop env v todo report w).2).
  { apply regenStoriesLoop_traces. intros; reflexivity. }
  induction H as [|w1 w2 w3 H12 _ IH]; [reflexivity|].
  rewrite IH. exact H12.
Qed.

Lemma runRegeneration_traces options w0 :
  rtc (RegenStep env w0 (versionFilterOf options)
                 (RegenOptions.since options) (RegenOptions.until options))
      w0 (runRegeneration env options w0).2.
Proof.
  unfold runRegeneration. fold (versionFilterOf options).
  set (v := versionFilterOf options).
  set (since := RegenOptions.since options).
  set (until := RegenOptions.until options).
  set (n := default 50%nat (RegenOptions.maxItems options)).
  set (type := default "all" (RegenOptions.type options)).
  unfold bind at 1.
  set (first :=
         if String.eqb type "all" || String.eqb type "stories"
         then let* w := get in
              regenStoriesLoop env v
                (storiesToRegen v since until n (World.stories w))
                (RegenReport.mk 0 0 [])
         else ret (RegenReport.mk 0 0 [])).
  assert (H1 : rtc (RegenStep env w0 v since until) w0 (first w0).2
               ∧ World.comments (first w0).2 = World.comments w0).
  { subst first.
    destruct (String.eqb type "all" || String.eqb type "stories").
    - unfold bind, get. split; [|apply regenStoriesLoop_comments].
      apply regenStoriesLoop_traces. intros snap analysis w Hin.
      apply storiesToRegen_stale in Hin as [Hin Hst].
      apply step_regen_story; assumption.
    - split; [apply rtc_refl | reflexivity]. }
  destruct H1 as [H1 Hc]. clearbody first.
  destruct (first w0) as [[report1|e] w1]; simpl in *; [|exact H1].
  eapply rtc_trans; [exact H1|].
  destruct (String.eqb type "all" || String.eqb type "comments");
    [|apply rtc_refl].
  unfold bind, get.
  apply regenCommentsLoop_traces. intros snap analysis w Hin.
  apply commentsToRegen_stale in Hin as [Hin Hst].
  rewrite Hc in Hin.
  apply step_regen_comment; assumption.
Qed.

Lemma staleWhere_embedded v since until embedded version time :
  staleWhere v since until embedded version time = true ->
  embedded = true ∧ version ≠ Some v.
Proof.
  unfold staleWhere, versionNe, versionIsNull.
  intros H. apply andb_true_iff in H as [H _].
  apply andb_true_iff in H as [He Hv]. split; [exact He|].
  destruct version as [s|]; [|discriminate].
  rewrite orb_false_r in Hv. apply negb_true_iff in Hv.
  intros E. inversion E; subst. rewrite String.eqb_refl in Hv. discriminate.
Qed.

Lemma regen_step_rel w0 v since until w w' :
  uniqueHnIds w0 ->
  RegenStep env w0 v since until w w' ->
  Forall2 (storyRegenerated v) (World.stories w0) (World.stories w)
  ∧ Forall2 (commentRegenerated v) (World.comments w0) (World.comments w) ->
  Forall2 (storyRegenerated v) (World.stories w0) (World.stories w')
  ∧ Forall2 (commentRegenerated v) (World.comments w0) (World.comments w').
Proof.
  intros [US UC] Hstep [HS HC].
  destruct Hstep as [w snap analysis Hin Hst | w snap analysis Hin Hst];
    simpl; (split; [|try assumption]); try assumption.
  - apply Forall2_updateFirst; [|exact HS].
    intros s0 s Hs0 Hrel Hp. apply Z.eqb_eq in Hp.
    apply staleWhere_embedded in Hst as [Hemb Hver].
    assert (Hid : Story.hnId s = Story.hnId s0).
    { destruct Hrel as [->|H]; [reflexivity | tauto]. }
    assert (s0 = snap) as ->.
    { apply (NoDup_map_eq Story.hnId (World.stories w0)); auto. congruence. }
    right. repeat split; try assumption.
    + destruct Hrel as [->|H]; simpl; [exact Hemb | tauto].
    + eauto.
  - apply Forall2_updateFirst; [|exact HC].
    intros s0 s Hs0 Hrel Hp. apply Z.eqb_eq in Hp.
    apply staleWhere_embedded in Hst as [Hemb Hver].
    assert (Hid : Comment.hnId s = Comment.hnId s0).
    { destruct Hrel as [->|H]; [reflexivity | tauto]. }
    assert (s0 = snap) as ->.
    { apply (NoDup_map_eq Comment.hnId (World.comments w0)); auto. congruence. }
    right. repeat split; try assumption.
    + destruct Hrel as [->|H]; simpl; [exact Hemb | tauto].
    + eauto.
Qed.

Lemma runRegeneration_rel options w0 :
  uniqueHnIds w0 ->
  let v := versionFilterOf options in
  let w' := (runRegeneration env options w0).2 in
  Forall2 (storyRegenerated v) (World.stories w0) (World.stories w')
  ∧ Forall2 (commentRegenerated v) (World.comments w0) (World.comments w').
Proof.
  intros Hu v w'. subst w'.
  pose proof (runRegeneration_traces options w0) as Htr.
  fold v in Htr.
  set (RS := RegenStep env w0 v (RegenOptions.since options)
                       (RegenOptions.until options)) in *.
  apply (traces_inv RS
           (λ w, Forall2 (storyRegenerated v) (World.stories w0) (World.stories w)
                 ∧ Forall2 (commentRegenerated v) (World.comments w0)
                           (World.comments w)) w0 _).
  - intros w1 w2 Hstep. eapply regen_step_rel; eauto.
  - exact Htr.
  - split; apply Forall2_same_length_lookup_2; try reflexivity;
      intros i x y Hx Hy; left; congruence.
Qed.
End RegenTraces.

(** ** Stored records along a run *)

Lemma regen_step_concepts env w0 v since until
      (PS PC : option (list string) -> Prop) w w' :
  (∀ cs, PS (Some (normalizeConcepts cs))) ->
  (∀ cs, PC (Some (normalizeConcepts cs))) ->
  RegenStep env w0 v since until w w' ->
  Forall (λ s, PS (Story.concepts s)) (World.stories w)
  ∧ Forall (λ c, PC (Comment.concepts c)) (World.comments w) ->
  Forall (λ s, PS (Story.concepts s)) (World.stories w')
  ∧ Forall (λ c, PC (Comment.concepts c)) (World.comments w').
Proof.
  intros HSP HCP Hstep [HS HC]. destruct Hstep; simpl; split; try assumption.
  - apply Forall_updateFirst; [|assumption]. intros s _. apply HSP.
  - apply Forall_updateFirst; [|assumption]. intros s _. apply HCP.
Qed.

Lemma conceptsWritten_refl w : conceptsWritten w w.
Proof.
  split; apply Forall_forall; intros x Hx; right; eauto.
Qed.

Lemma regenerated_analyzedIff v s0 s :
  storyRegenerated v s0 s -> storyAnalyzedIff s0 -> storyAnalyzedIff s.
Proof.
  intros [->|(_ & _ & _ & He & Hv & _)] H0; [exact H0|].
  unfold storyAnalyzedIff. rewrite He, Hv. split; [discriminate | reflexivity].
Qed.

Lemma regenerated_comment_analyzedIff v c0 c :
  commentRegenerated v c0 c -> commentAnalyzedIff c0 -> commentAnalyzedIff c.
Proof.
  intros [->|(_ & _ & _ & He & Hv & _)] H0; [exact H0|].
  unfold commentAnalyzedIff. rewrite He, Hv. split; [discriminate | reflexivity].
Qed.

Lemma Forall2_Forall_r {A} (R : A -> A -> Prop) (P : A -> Prop) l0 l :
  (∀ x0 x, R x0 x -> P x0 -> P x) -> Forall2 R l0 l -> Forall P l0 -> Forall P l.
Proof.
  intros HR H. induction H as [|x0 x l0 l Hx Hl IH]; intros HP; [constructor|].
  apply Forall_cons in HP as [HP0 HP]. constructor; eauto.
Qed.

(** ** Regeneration touches stale records only *)

Lemma filter_none {A} (P : A -> Prop) `{∀ x, Decision (P x)} (l : list A) :
  Forall (λ x, ¬ P x) l -> filter P l = [].
Proof.
  induction 1 as [|x l Hx Hl IH]; [reflexivity|].
  rewrite filter_cons_False by exact Hx. exact IH.
Qed.

Lemma staleWhere_up_to_date v since until embedded version time :
  (embedded = true -> version = Some v) ->
  staleWhere v since until embedded version time ≠ true.
Proof.
  unfold staleWhere. intros H E.
  apply andb_true_iff in E as [E _]. apply andb_true_iff in E as [He Hv].
  rewrite (H He) in Hv. simpl in Hv. rewrite String.eqb_refl in Hv.
  discriminate.
Qed.

(** C8.  On a store with unique identifiers, a regeneration run changes a
    story or comment row only if the row was embedded and its stored
    [analysisVersion] differed from the target version; and when every
    embedded record already carries the target version, the run selects
    nothing, regenerates zero items and leaves the store as it was. *)
Theorem regeneration_only_stale env options w :
  uniqueHnIds w ->
  let v := versionFilterOf options in
  (Forall2 (storyTouchedOnlyIfStale v)
           (World.stories w) (World.stories (runRegeneration env options w).2)
   ∧ Forall2 (commentTouchedOnlyIfStale v)
             (World.comments w)
             (World.comments (runRegeneration env options w).2))
  ∧ (upToDate v w ->
     runRegeneration env options w = (Ok (RegenReport.mk 0 0 []), w)).
Proof.
  intros Hu v. split.
  - destruct (runRegeneration_rel env options w Hu) as [HS HC]. split.
    + eapply Forall2_impl; [exact HS|]. intros s0 s [->|H]; [left | right]; tauto.
    + eapply Forall2_impl; [exact HC|]. intros c0 c [->|H]; [left | right]; tauto.
  - intros [HS HC]. unfold runRegeneration. fold (versionFilterOf options).
    fold v. unfold storiesToRegen, commentsToRegen, bind, get.
    destruct (String.eqb _ "all" || String.eqb _ "stories").
    + rewrite filter_none.
      2:{ eapply Forall_impl; [exact HS|]. intros s Hs.
          apply staleWhere_up_to_date, Hs. }
      change (merge_sort storyNewerEq []) with (@nil Story.t);
        change (merge_sort commentNewerEq []) with (@nil Comment.t);
        rewrite take_nil. simpl.
      destruct (String.eqb _ "all" || String.eqb _ "comments"); [|reflexivity].
      rewrite filter_none.
      2:{ eapply Forall_impl; [exact HC|]. intros s Hs.
          apply staleWhere_up_to_date, Hs. }
      change (merge_sort storyNewerEq []) with (@nil Story.t);
        change (merge_sort commentNewerEq []) with (@nil Comment.t);
        rewrite take_nil. reflexivity.
    + simpl.
      destruct (String.eqb _ "all" || String.eqb _ "comments"); [|reflexivity].
      rewrite filter_none.
      2:{ eapply Forall_impl; [exact HC|]. intros s Hs.
          apply staleWhere_up_to_date, Hs. }
      change (merge_sort storyNewerEq []) with (@nil Story.t);
        change (merge_sort commentNewerEq []) with (@nil Comment.t);
        rewrite take_nil. reflexivity.
Qed.

Lemma regeneration_afterCycle_unique : uniqueHnIds Scenario.afterCycle.
Proof. split; apply (bool_decide_unpack _); vm_compute; exact I. Qed.

Lemma regeneration_only_stale_witness :
  runRegeneration Scenario.env Scenario.regenAll Scenario.afterCycle
  = (Ok (RegenReport.mk 0 0 []), Scenario.afterCycle).
Proof.
  apply (regeneration_only_stale Scenario.env Scenario.regenAll
           Scenario.afterCycle regeneration_afterCycle_unique).
  split; repeat constructor.
Defined.

(** ** One story's turn *)

Lemma count_zero_not_elem {A} (P : A -> Prop) `{∀ x, Decision (P x)} l x :
  length (filter P l) = 0%nat -> x ∈ l -> ¬ P x.
Proof.
  intros Hlen Hin HP.
  assert (Hx : x ∈ filter P l) by (apply list_elem_of_filter; auto).
  destruct (filter P l); [inversion Hx | discriminate].
Qed.

Lemma count_zero_find hnId w :
  countStories hnId w = 0%nat ->
  find (λ s, Story.hnId s =? hnId) (World.stories w) = None.
Proof.
  unfold countStories. intros H.
  destruct (find _ _) as [s|] eqn:E; [|reflexivity].
  apply find_some in E as [Hin Heq]. apply Z.eqb_eq in Heq.
  exfalso. apply (count_zero_not_elem _ _ s H); [|exact Heq].
  apply list_elem_of_In. exact Hin.
Qed.

Lemma count_zero_existsb hnId w :
  countStories hnId w = 0%nat ->
  existsb (λ s, Story.hnId s =? hnId) (World.stories w) = false.
Proof.
  unfold countStories. intros H.
  destruct (existsb _ _) eqn:E; [|reflexivity].
  apply existsb_exists in E as [s [Hin Heq]]. apply Z.eqb_eq in Heq.
  exfalso. apply (count_zero_not_elem _ _ s H); [|exact Heq].
  apply list_elem_of_In. exact Hin.
Qed.

Lemma processStoryOnly_too_old cfg env hnId item w :
  Env.fetchItem env hnId = Ok (Some item) ->
  HNItem.type item = "story" ->
  isRecent cfg env (HNItem.time item) = false ->
  processStoryOnly cfg env hnId w = (Ok (TooOld, Some item), w).
Proof.
  intros Hf Ht Hr. unfold processStoryOnly, bind, Stories.findOne, await.
  rewrite Hf, Ht, Hr. reflexivity.
Qed.

Lemma scenario_feed_consistent : feedConsistent Scenario.env.
Proof.
  intros hnId item. simpl. unfold Scenario.fetchItem.
  destruct (Z.eqb_spec hnId 101) as [->|]; [intros H; inversion H; reflexivity|].
  destruct (Z.eqb_spec hnId 202) as [->|]; [intros H; inversion H; reflexivity|].
  destruct (Z.eqb_spec hnId 301) as [->|]; [intros H; inversion H; reflexivity|].
  discriminate.
Qed.

Lemma refresh_sameButVolatile item existing s :
  sameButVolatile s (Story.applyPatch (refreshPatch item existing) s).
Proof. destruct s. reflexivity. Qed.

Lemma sameButVolatile_refl s : sameButVolatile s s.
Proof. destruct s. reflexivity. Qed.

Lemma updateFirst_Forall2 {A} (R : A -> A -> Prop) (p : A -> bool)
      (f : A -> A) l :
  (∀ x, R x x) -> (∀ x, R x (f x)) -> Forall2 R l (updateFirst p f l).
Proof.
  intros Hrefl Hf. induction l as [|x l IH]; simpl; [constructor|].
  destruct (p x); constructor; auto.
  clear IH. induction l; constructor; auto.
Qed.

(** C4, as the code has it.  When the candidate is in the store at the start
    of its turn, the turn depends on what the feed returns: a story within
    the maximum age is classified [cached] and the one update writes its
    score and its descendant count and nothing else; a story older than the
    maximum age is classified [too_old] and nothing is written; when the
    feed returns nothing, or an item that is no story, the candidate is
    classified [cached] and nothing is written. *)
Theorem existing_story_turn cfg env hnId existing w :
  find (λ s, Story.hnId s =? hnId) (World.stories w) = Some existing ->
  match Env.fetchItem env hnId with
  | Ok (Some item) =>
      if String.eqb (HNItem.type item) "story"
      then if isRecent cfg env (HNItem.time item)
           then processStoryOnly cfg env hnId w
                = (Ok (Cached, Some item),
                   patchStoryRows existing (refreshPatch item existing) w)
                ∧ Forall2 sameButVolatile (World.stories w)
                    (World.stories
                       (patchStoryRows existing (refreshPatch item existing) w))
           else processStoryOnly cfg env hnId w = (Ok (TooOld, Some item), w)
      else processStoryOnly cfg env hnId w = (Ok (Cached, None), w)
  | Ok None => processStoryOnly cfg env hnId w = (Ok (Cached, None), w)
  | Throw e => processStoryOnly cfg env hnId w = (Throw e, w)
  end.
Proof.
  intros Hex. unfold processStoryOnly, bind, Stories.findOne, await.
  rewrite Hex. destruct (Env.fetchItem env hnId) as [[item|]|e]; try reflexivity.
  destruct (String.eqb (HNItem.type item) "story"); [|reflexivity].
  destruct (isRecent cfg env (HNItem.time item)); [|reflexivity].
  split; [reflexivity|]. simpl.
  apply updateFirst_Forall2;
    [apply sameButVolatile_refl | apply refresh_sameButVolatile].
Qed.

Lemma existing_story_turn_witness :
  processStoryOnly Scenario.cfg Scenario.env 101 Scenario.afterCycle
  = (Ok (Cached, Some Scenario.story101),
     patchStoryRows (newStoryRow Scenario.story101)
       (refreshPatch Scenario.story101 (newStoryRow Scenario.story101))
       Scenario.afterCycle).
Proof.
  pose proof (existing_story_turn Scenario.cfg Scenario.env 101
                (hd (newStoryRow Scenario.story101)
                    (World.stories Scenario.afterCycle))
                Scenario.afterCycle eq_refl) as H.
  apply H.
Defined.

(** C4, counterexample.  Story 202 is in the store, with the score 3; the
    feed now reports the score 7 and the story is twenty hours old.  Its
    turn classifies it [too_old], not [cached], and the stored score is not
    refreshed. *)
Lemma existing_old_story_not_cached :
  find (λ s, Story.hnId s =? 202) (World.stories Scenario.holding202) ≠ None
  ∧ processStoryOnly Scenario.cfg Scenario.env 202 Scenario.holding202
    = (Ok (TooOld, Some Scenario.story202), Scenario.holding202)
  ∧ map Story.score (World.stories Scenario.holding202) = [3]
  ∧ HNItem.score Scenario.story202 = Some 7.
Proof. repeat split. discriminate. Qed.

(** ** A comment that is already stored *)

Lemma count_one_existsb hnId w :
  countComments hnId w = 1%nat ->
  existsb (λ c, Comment.hnId c =? hnId) (World.comments w) = true.
Proof.
  unfold countComments. intros H.
  destruct (filter _ _) as [|c l] eqn:E; [discriminate|].
  assert (Hc : c ∈ filter (λ c, Comment.hnId c = hnId) (World.comments w))
    by (rewrite E; left).
  apply list_elem_of_filter in Hc as [Hid Hin].
  apply existsb_exists. exists c. split.
  - apply list_elem_of_In. exact Hin.
  - apply Z.eqb_eq. exact Hid.
Qed.

(** C6.  When the comment table already holds the row of a comment, the
    insert of [processComment] for that comment fails on the unique index;
    the failure is caught: [processComment] returns [false] and raises
    nothing, it writes nothing, and the table still holds exactly one row
    for the identifier. *)
Theorem duplicate_comment_insert_is_not_fatal
        env ci storyHnId storyTitle parentContext w :
  countComments (HNItem.id ci) w = 1%nat ->
  processComment env ci storyHnId storyTitle parentContext w = (Ok false, w)
  ∧ countComments (HNItem.id ci)
      (processComment env ci storyHnId storyTitle parentContext w).2 = 1%nat.
Proof.
  intros Hcount.
  assert (E : processComment env ci storyHnId storyTitle parentContext w
              = (Ok false, w)).
  { unfold processComment, tryCatch, bind, Comments.create.
    change (Comment.hnId (newCommentRow ci storyHnId)) with (HNItem.id ci).
    rewrite (count_one_existsb _ _ Hcount). reflexivity. }
  rewrite E. split; [reflexivity | exact Hcount].
Qed.

Lemma duplicate_comment_insert_is_not_fatal_witness :
  processComment Scenario.env Scenario.comment301 101 "Open source burnout"
                 None Scenario.afterCycle
  = (Ok false, Scenario.afterCycle)
  ∧ countComments 301
      (processComment Scenario.env Scenario.comment301 101
                      "Open source burnout" None Scenario.afterCycle).2
    = 1%nat.
Proof.
  apply (duplicate_comment_insert_is_not_fatal
           Scenario.env Scenario.comment301 101 "Open source burnout" None
           Scenario.afterCycle).
  vm_compute. reflexivity.
Defined.

Example first_insert_then_duplicate :
  let first :=
    processComment Scenario.env Scenario.comment301 101 "Open source burnout"
                   None World.empty in
  first.1 = Ok true
  ∧ countComments 301 first.2 = 1%nat
  ∧ (processComment Scenario.env Scenario.comment301 101 "Open source burnout"
                    None first.2).1 = Ok false.
Proof. repeat split. Qed.

(** ** A story whose analysis fails *)

Lemma last_ringPush msg errs :
  last (WorkerState.ringPush msg errs) = Some msg.
Proof.
  unfold WorkerState.ringPush.
  destruct (50 <? length (errs ++ [msg]))%nat eqn:E.
  - destruct errs as [|a errs]; [discriminate|].
    simpl. apply last_snoc.
  - apply last_snoc.
Qed.

Lemma cycleStep_after_new cfg env hnId item acc w w1 :
  processStoryOnly cfg env hnId w = (Ok (New, Some item), w1) ->
  ∃ acc' w2,
    cycleStep cfg env hnId acc w = (Ok acc', w2)
    ∧ CycleResult.ingested acc' = CycleResult.ingested acc + 1
    ∧ World.stories w2 = World.stories w1
    ∧ WorkerState.errors (World.workerState w2)
      = WorkerState.errors (World.workerState w1)
    ∧ WorkerState.totalProcessed (World.workerState w2)
      = WorkerState.totalProcessed (World.workerState w1) + 1.
Proof.
  intros Hturn.
  unfold cycleStep, storyTurn, bind, tryCatch, modify.
  assert (Hp : processStoryOnly cfg env hnId
                 (World.withWorker WorkerState.incrCycleCurrent w)
               = (Ok (New, Some item),
                  World.withWorker WorkerState.incrCycleCurrent w1)).
  { revert Hturn. unfold processStoryOnly, bind, Stories.findOne, await.
    simpl. destruct (Env.fetchItem env hnId) as [[it|]|e]; try discriminate.
    destruct (negb _); [discriminate|].
    destruct (negb _); [discriminate|].
    destruct (find _ _); [discriminate|].
    unfold modify, Stories.create, tryCatch, ret. simpl.
    destruct (existsb _ _); [discriminate|].
    destruct (0 <? _)%nat.
    - unfold analyzeNewStory, bind, await, updateStory, modify. simpl.
      destruct (Env.analyzeStory _ _ _ _) as [a|e1]; simpl.
      + destruct (Env.generateEmbedding _ _) as [em|e2]; simpl.
        * destruct (Env.addStoryEmbedding _ _ _) as [u|e3]; simpl;
            intros H; inversion H; subst; reflexivity.
        * intros H; inversion H; subst; reflexivity.
      + intros H; inversion H; subst; reflexivity.
    - simpl. intros H; inversion H; subst; reflexivity. }
  rewrite Hp. cbn [fst snd].
  set (w1' := World.withWorker WorkerState.incrTotalProcessed
                (World.withWorker WorkerState.incrCycleCurrent w1)).
  destruct (commentPhase_result cfg env item (countResult New acc) w1')
    as (acc' & w2 & Hc & Hing & HS & HE & HT).
  rewrite Hc. exists acc', w2.
  split; [reflexivity|]. split; [rewrite Hing; reflexivity|].
  rewrite HS, HE, HT. auto.
Qed.

(** C7.  A new story whose analysis call fails: the failure is caught in the
    story's own turn, which still classifies the story as new; the base
    record is in the store with [embedded = false]; the entry
    [story <id>: <message>] is the newest entry of the error ring; and the
    cycle goes on with the remaining candidates, the record and the entry
    still there after the story's comments were processed. *)
Theorem failed_story_analysis_is_contained cfg env hnId item e rest acc w :
  Env.fetchItem env hnId = Ok (Some item) ->
  HNItem.id item = hnId ->
  HNItem.type item = "story" ->
  isRecent cfg env (HNItem.time item) = true ->
  countStories hnId w = 0%nat ->
  hasTextForAnalysis item ->
  Env.analyzeStory env (Js.optOrElse (HNItem.title item) EmptyString)
                   (stripHtml (HNItem.text item)) (Js.orNull (HNItem.url item))
  = Throw e ->
  ∃ w1,
    processStoryOnly cfg env hnId w = (Ok (New, Some item), w1)
    ∧ World.stories w1 = World.stories w ++ [newStoryRow item]
    ∧ Story.hnId (newStoryRow item) = hnId
    ∧ Story.embedded (newStoryRow item) = false
    ∧ Story.analysisVersion (newStoryRow item) = None
    ∧ WorkerState.errors (World.workerState w1)
      = WorkerState.ringPush (storyErrorEntry hnId e)
                             (WorkerState.errors (World.workerState w))
    ∧ last (WorkerState.errors (World.workerState w1))
      = Some (storyErrorEntry hnId e)
    ∧ ∃ acc' w2,
        cycleStep cfg env hnId acc w = (Ok acc', w2)
        ∧ cycleLoop cfg env (hnId :: rest) acc w = cycleLoop cfg env rest acc' w2
        ∧ CycleResult.ingested acc' = CycleResult.ingested acc + 1
        ∧ World.stories w2 = World.stories w ++ [newStoryRow item]
        ∧ WorkerState.errors (World.workerState w2)
          = WorkerState.ringPush (storyErrorEntry hnId e)
                                 (WorkerState.errors (World.workerState w)).
Proof.
  intros Hf Hid Ht Hr Hcount Htext Han.
  assert (Hturn :
    processStoryOnly cfg env hnId w
    = (Ok (New, Some item),
       World.withWorker WorkerState.incrTotalProcessed
         (World.withWorker (WorkerState.pushError (storyErrorEntry hnId e))
            (World.withStories (λ l, l ++ [newStoryRow item])
               (World.withWorker
                  (WorkerState.setCurrentlyProcessing
                     (Some (Js.optOrElse (HNItem.title item)
                                         ("story " +:+ Js.ofNumber hnId))))
                  w))))).
  { unfold processStoryOnly, bind, Stories.findOne, await.
    rewrite Hf, Ht, Hr, (count_zero_find _ _ Hcount). cbn [negb].
    unfold modify, Stories.create. cbn [fst snd].
    change (Story.hnId (newStoryRow item)) with (HNItem.id item).
    rewrite Hid. cbn [World.stories World.withWorker].
    change (negb (String.eqb "story" "story")) with false. cbv beta iota.
    rewrite (count_zero_existsb _ _ Hcount).
    unfold hasTextForAnalysis in Htext. apply Nat.ltb_lt in Htext.
    rewrite Htext.
    unfold tryCatch, analyzeNewStory, bind, await. rewrite Han.
    reflexivity. }
  eexists. split; [exact Hturn|].
  split; [reflexivity|]. split; [exact Hid|].
  split; [reflexivity|]. split; [reflexivity|].
  split; [reflexivity|]. split; [apply last_ringPush|].
  destruct (cycleStep_after_new cfg env hnId item acc w _ Hturn)
    as (acc' & w2 & Hstep & Hing & HS & HE & _).
  exists acc', w2. split; [exact Hstep|].
  split; [cbn [cycleLoop]; unfold bind; rewrite Hstep; reflexivity|].
  split; [exact Hing|]. split; [rewrite HS | rewrite HE]; reflexivity.
Qed.

Lemma failed_story_analysis_is_contained_witness :
  ∃ w1,
    processStoryOnly Scenario.cfg Scenario.failingEnv 101 World.empty
    = (Ok (New, Some Scenario.story101), w1)
    ∧ World.stories w1 = [newStoryRow Scenario.story101]
    ∧ last (WorkerState.errors (World.workerState w1))
      = Some "story 101: Request failed".
Proof.
  destruct (failed_story_analysis_is_contained
              Scenario.cfg Scenario.failingEnv 101 Scenario.story101
              Scenario.analysisDown [202] (CycleResult.mk 0 0 0 0 0 0)
              World.empty)
    as (w1 & H1 & H2 & _ & _ & _ & _ & H3 & _);
    try reflexivity.
  - vm_compute. lia.
  - exists w1. split; [exact H1|]. split; [exact H2 | exact H3].
Defined.

(** ** The counter of processed stories *)

Lemma processStoryOnly_totalProcessed cfg env hnId w :
  totalProcessedOf (processStoryOnly cfg env hnId w).2
  = totalProcessedOf w + newCount (processStoryOnly cfg env hnId w).1.
Proof.
  unfold totalProcessedOf, processStoryOnly, bind, Stories.findOne, await.
  simpl. destruct (Env.fetchItem env hnId) as [[it|]|e]; simpl; try lia.
  - destruct (negb _); simpl.
    { destruct (find _ _); simpl; lia. }
    destruct (negb _); simpl; [lia|].
    destruct (find _ _); simpl; [lia|].
    unfold modify, Stories.create, tryCatch, ret. simpl.
    destruct (existsb _ _); simpl; [lia|].
    destruct (0 <? _)%nat; simpl; [|lia].
    unfold analyzeNewStory, bind, await, updateStory, modify. simpl.
    destruct (Env.analyzeStory _ _ _ _) as [a|e1]; simpl; [|lia].
    destruct (Env.generateEmbedding _ _) as [em|e2]; simpl; [|lia].
    destruct (Env.addStoryEmbedding _ _ _) as [u|e3]; simpl; lia.
  - destruct (find _ _); simpl; lia.
Qed.

Lemma cycleStep_totalProcessed cfg env hnId acc w :
  ∃ acc' w',
    cycleStep cfg env hnId acc w = (Ok acc', w')
    ∧ totalProcessedOf w'
      = totalProcessedOf w + 1
        + (CycleResult.ingested acc' - CycleResult.ingested acc)
    ∧ 0 <= CycleResult.ingested acc' - CycleResult.ingested acc <= 1.
Proof.
  unfold cycleStep, storyTurn, bind, tryCatch, modify.
  set (w0 := World.withWorker WorkerState.incrCycleCurrent w).
  assert (H0 : totalProcessedOf w0 = totalProcessedOf w) by reflexivity.
  pose proof (processStoryOnly_totalProcessed cfg env hnId w0) as Hp.
  destruct (processStoryOnly cfg env hnId w0) as [[[result item]|e] w1];
    cbn [fst snd] in *.
  2:{ eexists _, _. split; [reflexivity|].
      unfold totalProcessedOf in *. simpl in *. lia. }
  set (w2 := World.withWorker WorkerState.incrTotalProcessed w1).
  assert (H2 : totalProcessedOf w2 = totalProcessedOf w1 + 1) by reflexivity.
  assert (Hno : ∃ acc' w',
             (Ok (countResult result acc), w2) = (Ok acc', w')
             ∧ totalProcessedOf w'
               = totalProcessedOf w + 1
                 + (CycleResult.ingested acc' - CycleResult.ingested acc)
             ∧ 0 <= CycleResult.ingested acc' - CycleResult.ingested acc <= 1).
  { eexists _, _. split; [reflexivity|].
    destruct result; simpl in *; lia. }
  destruct item as [it|]; [|exact Hno].
  destruct result; try exact Hno.
  - destruct (commentPhase_result cfg env it (countResult New acc) w2)
      as (acc' & w3 & Hc & Hing & _ & _ & HT).
    fold (totalProcessedOf w3) in HT. fold (totalProcessedOf w2) in HT.
    rewrite Hc. exists acc', w3. split; [reflexivity|].
    rewrite Hing. simpl in *. lia.
  - destruct (commentPhase_result cfg env it (countResult Cached acc) w2)
      as (acc' & w3 & Hc & Hing & _ & _ & HT).
    fold (totalProcessedOf w3) in HT. fold (totalProcessedOf w2) in HT.
    rewrite Hc. exists acc', w3. split; [reflexivity|].
    rewrite Hing. simpl in *. lia.
Qed.

Lemma cycleLoop_totalProcessed cfg env toProcess :
  ∀ acc w,
    ∃ acc' w',
      cycleLoop cfg env toProcess acc w = (Ok acc', w')
      ∧ totalProcessedOf w'
        = totalProcessedOf w + Z.of_nat (length toProcess)
          + (CycleResult.ingested acc' - CycleResult.ingested acc).
Proof.
  induction toProcess as [|h rest IH]; intros acc w.
  - exists acc, w. split; [reflexivity|]. simpl. lia.
  - destruct (cycleStep_totalProcessed cfg env h acc w)
      as (acc1 & w1 & Hstep & Ht & _).
    destruct (IH acc1 w1) as (acc' & w' & Hloop & Ht').
    exists acc', w'. split.
    + cbn [cycleLoop]. unfold bind. rewrite Hstep. exact Hloop.
    + rewrite Ht', Ht. cbn [length]. lia.
Qed.

(** C10.  When the two listings are fetched, an ingestion cycle runs to its
    end, and the counter [workerState.totalProcessed] grows by the number of
    candidates of the cycle plus the number of stories classified as new:
    every candidate counts once in the loop of the cycle, and a new story
    counts once more inside [processStoryOnly]. *)
Theorem totalProcessed_counts_new_twice cfg env topIds newIds w :
  Env.fetchTopStoryIds env = Ok topIds ->
  Env.fetchNewStoryIds env = Ok newIds ->
  ∃ summary w',
    runIngestionCycle cfg env w = (Ok summary, w')
    ∧ totalProcessedOf w'
      = totalProcessedOf w
        + Z.of_nat (length (candidates cfg topIds newIds))
        + CycleResult.ingested summary
    ∧ ∀ hnId acc w0,
        ∃ acc' w1,
          cycleStep cfg env hnId acc w0 = (Ok acc', w1)
          ∧ totalProcessedOf w1
            = totalProcessedOf w0 + 1
              + (CycleResult.ingested acc' - CycleResult.ingested acc)
          ∧ 0 <= CycleResult.ingested acc' - CycleResult.ingested acc <= 1.
Proof.
  intros Htop Hnew.
  unfold runIngestionCycle, bind, await, modify. rewrite Htop, Hnew.
  cbn [fst snd].
  set (w0 := World.withWorker _ w).
  destruct (cycleLoop_totalProcessed cfg env (candidates cfg topIds newIds)
              (CycleResult.mk 0 0 0 0 0 0) w0) as (summary & w' & Hloop & Ht).
  exists summary, w'. split; [exact Hloop|]. split.
  - rewrite Ht. change (totalProcessedOf w0) with (totalProcessedOf w).
    simpl. lia.
  - intros hnId acc w1. apply cycleStep_totalProcessed.
Qed.

Lemma totalProcessed_counts_new_twice_witness :
  ∃ summary w',
    runIngestionCycle Scenario.cfg Scenario.env World.empty = (Ok summary, w')
    ∧ totalProcessedOf w'
      = totalProcessedOf World.empty
        + Z.of_nat (length (candidates Scenario.cfg [101; 202] [202; 101]))
        + CycleResult.ingested summary.
Proof.
  destruct (totalProcessed_counts_new_twice
              Scenario.cfg Scenario.env [101; 202] [202; 101] World.empty
              eq_refl eq_refl) as (summary & w' & H1 & H2 & _).
  exists summary, w'. split; assumption.
Defined.

Example scenario_cycle_counts :
  (runIngestionCycle Scenario.cfg Scenario.env World.empty).1
  = Ok (CycleResult.mk 1 0 1 0 1 1)
  ∧ totalProcessedOf Scenario.afterCycle = 3.
Proof. split; reflexivity. Qed.

(** * Further properties of the code

    ** The text normalizers *)

Lemma string_chars_id s : Js.str (Js.chars s) = s.
Proof. apply string_of_list_ascii_of_string. Qed.

Lemma collapseFrom_onlySpaces b l : onlySpaces (Js.collapseFrom b l).
Proof.
  unfold onlySpaces. revert b.
  induction l as [|c l IH]; intros b; simpl; [constructor|].
  destruct (Js.isWhiteSpace c) eqn:W.
  - destruct b; [apply IH|]. constructor; [reflexivity | apply IH].
  - constructor; [congruence | apply IH].
Qed.

Lemma collapseFrom_clean_head b l :
  cleanHead l = true -> Js.collapseFrom b l = Js.collapseFrom false l.
Proof.
  destruct l as [|c l]; [reflexivity|]. simpl. intros H.
  apply negb_true_iff in H. rewrite H. reflexivity.
Qed.

Lemma collapseFrom_fixed l :
  onlySpaces l -> hasWhiteRun l = false -> Js.collapseFrom false l = l.
Proof.
  unfold onlySpaces.
  induction 1 as [|c l Hc Hl IH]; [reflexivity|]. intros Hrun.
  assert (Hrun' : hasWhiteRun l = false).
  { simpl in Hrun. destruct l; [reflexivity|].
    apply orb_false_iff in Hrun. tauto. }
  simpl. destruct (Js.isWhiteSpace c) eqn:W.
  - rewrite (Hc eq_refl). f_equal.
    rewrite collapseFrom_clean_head; [apply IH, Hrun'|].
    destruct l as [|d l]; [reflexivity|]. simpl in *.
    apply orb_false_iff in Hrun as [Hrun _]. rewrite W in Hrun.
    simpl in Hrun. rewrite Hrun. reflexivity.
  - f_equal. apply IH, Hrun'.
Qed.

Lemma stripHtml_chars h :
  ∃ l, stripHtml h = Js.str (Js.trimL (Js.collapseWhiteSpaceL l)).
Proof.
  destruct h as [h|]; [|exists []; reflexivity].
  unfold stripHtml. destruct (String.eqb h EmptyString).
  - exists []. reflexivity.
  - eexists. reflexivity.
Qed.

(** X1.  Whatever the markup, the text [stripHtml] returns is trimmed, holds
    no two neighbouring white-space characters, and its only white space is
    the space character. *)
Theorem stripHtml_is_clean (html : option string) :
  Js.trim (stripHtml html) = stripHtml html
  ∧ hasWhiteRun (Js.chars (stripHtml html)) = false
  ∧ onlySpaces (Js.chars (stripHtml html)).
Proof.
  destruct (stripHtml_chars html) as [l ->].
  rewrite chars_str. split; [|split].
  - unfold Js.trim. rewrite chars_str, trimL_idem. reflexivity.
  - apply trimL_no_run, collapseFrom_no_run.
  - apply Forall_trimL, collapseFrom_onlySpaces.
Qed.

Lemma stripTagsFrom_no_tag l :
  "<"%char ∉ l -> Js.stripTagsFrom None l = l.
Proof.
  induction l as [|c l IH]; [reflexivity|]. intros H.
  apply not_elem_of_cons in H as [Hc Hl]. simpl.
  destruct (Ascii.eqb_spec c "<"); [congruence|]. f_equal. auto.
Qed.

Lemma replaceAllFrom_absent a pat rep l :
  a ∉ l -> Js.replaceAllFrom (a :: pat) rep 0 l = l.
Proof.
  induction l as [|c l IH]; [reflexivity|]. intros H.
  apply not_elem_of_cons in H as [Hc Hl]. simpl.
  destruct (Ascii.eqb_spec a c); [congruence|]. simpl. f_equal. auto.
Qed.

(** X2.  A text without markup passes through [stripHtml] unchanged. *)
Theorem stripHtml_keeps_plain_text (s : string) :
  PlainText s -> stripHtml (Some s) = s.
Proof.
  intros [Htag Hent Hsp Hrun Htrim].
  unfold stripHtml. destruct (String.eqb_spec s EmptyString) as [->|_];
    [reflexivity|].
  rewrite stripTagsFrom_no_tag by exact Htag.
  unfold Js.replaceAllL. simpl Js.chars at 1 3 5 7 9 11.
  do 6 (rewrite (replaceAllFrom_absent _ _ _ (Js.chars s)) by exact Hent).
  unfold Js.collapseWhiteSpaceL. rewrite collapseFrom_fixed by assumption.
  exact Htrim.
Qed.

Lemma stripHtml_keeps_plain_text_witness :
  stripHtml (Some "Why open source maintainers burn out")
  = "Why open source maintainers burn out".
Proof.
  apply (stripHtml_keeps_plain_text "Why open source maintainers burn out").
  split; try reflexivity; try (apply (bool_decide_unpack _); vm_compute; exact I).
Defined.

Lemma underscoresToSpacesL_fixed l :
  Forall plainChar l -> Js.underscoresToSpacesL l = l.
Proof.
  unfold Js.underscoresToSpacesL.
  induction 1 as [|c l [_ Hc] _ IH]; simpl; [reflexivity|].
  destruct (Ascii.eqb_spec c "_"); [congruence|]. f_equal. exact IH.
Qed.

Lemma normalizeConcept_idem c :
  normalizeConcept (normalizeConcept c) = normalizeConcept c.
Proof.
  unfold normalizeConcept. rewrite chars_str.
  set (l := Js.underscoresToSpacesL (Js.toLowerCaseL (Js.chars c))).
  set (t := Js.trimL (Js.collapseWhiteSpaceL l)).
  assert (Hplain : Forall plainChar t).
  { apply Forall_trimL, collapseFrom_Forall;
      [apply plain_space | apply plain_after_replace]. }
  rewrite (toLowerCaseL_plain t Hplain).
  rewrite (underscoresToSpacesL_fixed t Hplain).
  unfold Js.collapseWhiteSpaceL at 1. rewrite collapseFrom_fixed.
  - subst t. rewrite trimL_idem. reflexivity.
  - apply Forall_trimL, collapseFrom_onlySpaces.
  - apply trimL_no_run, collapseFrom_no_run.
Qed.

Lemma filter_map_fixed {A} (P : A -> Prop) `{∀ x, Decision (P x)}
      (f : A -> A) (l : list A) :
  Forall (λ x, P x ∧ f x = x) l -> filter P (map f l) = l.
Proof.
  induction 1 as [|x l [HP Hf] _ IH]; [reflexivity|].
  simpl. rewrite Hf, filter_cons_True by exact HP. f_equal. exact IH.
Qed.

(** X3.  Normalizing concepts twice is normalizing them once: stored
    concepts are fixed points of [normalizeConcepts]. *)
Theorem normalizeConcepts_idempotent (concepts : list string) :
  normalizeConcepts (normalizeConcepts concepts) = normalizeConcepts concepts.
Proof.
  unfold normalizeConcepts at 1. apply filter_map_fixed.
  apply Forall_forall. intros c Hc.
  unfold normalizeConcepts in Hc.
  apply list_elem_of_filter in Hc as [Hlen Hc].
  apply list_elem_of_fmap in Hc as [c0 [-> _]].
  split; [exact Hlen | apply normalizeConcept_idem].
Qed.

(** ** The candidates of a cycle *)

Lemma uniqueFrom_spec seen ids :
  NoDup (uniqueFrom seen ids)
  ∧ (∀ x, x ∈ uniqueFrom seen ids ↔ x ∈ ids ∧ x ∉ seen)
  ∧ uniqueFrom seen ids `sublist_of` ids.
Proof.
  revert seen. induction ids as [|x ids IH]; intros seen; simpl.
  - split; [constructor|]. split; [|constructor].
    intros y. rewrite elem_of_nil. tauto.
  - destruct (decide (x ∈ seen)) as [Hin|Hnin].
    + destruct (IH seen) as (Hnd & Hel & Hsub).
      split; [exact Hnd|]. split; [|apply sublist_cons, Hsub].
      intros y. rewrite Hel, elem_of_cons. split; [tauto|].
      intros [[->|Hy] Hs]; tauto.
    + destruct (IH ({[x]} ∪ seen)) as (Hnd & Hel & Hsub).
      split; [|split; [|apply sublist_skip, Hsub]].
      * apply NoDup_cons. split; [|exact Hnd].
        rewrite Hel, elem_of_union, elem_of_singleton. tauto.
      * intros y. rewrite !elem_of_cons, Hel, elem_of_union, elem_of_singleton.
        destruct (decide (y = x)) as [->|Hne]; tauto.
Qed.

Lemma uniqueFrom_first seen before ids :
  (∀ x, x ∈ seen ↔ x ∈ before) ->
  uniqueFrom seen ids = firstOccurrencesAfter before ids.
Proof.
  revert seen before.
  induction ids as [|x ids IH]; intros seen before Hseen; [reflexivity|].
  unfold firstOccurrencesAfter. cbn [imap uniqueFrom].
  assert (Hrest :
            imap ((λ i y, if decide (y ∈ before ++ take i (x :: ids))
                          then None else Some y) ∘ S) ids
            = imap (λ i y, if decide (y ∈ (before ++ [x]) ++ take i ids)
                           then None else Some y) ids).
  { apply imap_ext. intros i y _. cbn [compose take].
    rewrite <- app_assoc. reflexivity. }
  rewrite Hrest. cbn [take]. rewrite app_nil_r.
  destruct (decide (x ∈ seen)) as [Hin|Hnin].
  - rewrite decide_True by (apply Hseen, Hin).
    rewrite (IH seen (before ++ [x])); [reflexivity|].
    intros y. rewrite elem_of_app, list_elem_of_singleton, Hseen.
    split; [tauto|]. intros [Hy| ->]; [exact Hy | apply Hseen, Hin].
  - rewrite decide_False by (rewrite <- Hseen; exact Hnin).
    rewrite (IH ({[x]} ∪ seen) (before ++ [x])); [reflexivity|].
    intros y.
    rewrite elem_of_union, elem_of_singleton, elem_of_app,
      list_elem_of_singleton, Hseen. tauto.
Qed.

(** X4.  The candidates of a cycle are the two listings merged: each
    identifier once, at the place of its first appearance in the top
    listing followed by the new one; when [MAX_STORIES] is positive they
    are the first [MAX_STORIES] of those, all of them when there are fewer,
    otherwise none is left out. *)
Theorem candidates_are_unique cfg (topIds newIds : list Z) :
  (NoDup (candidates cfg topIds newIds)
   ∧ candidates cfg topIds newIds `sublist_of` (topIds ++ newIds)
   ∧ candidates cfg topIds newIds `prefix_of` uniqueIds topIds newIds
   ∧ (∀ x, x ∈ uniqueIds topIds newIds ↔ x ∈ topIds ∨ x ∈ newIds)
   ∧ if 0 <? Config.MAX_STORIES cfg
     then Z.of_nat (length (candidates cfg topIds newIds))
          <= Config.MAX_STORIES cfg
     else candidates cfg topIds newIds = uniqueIds topIds newIds)
  ∧ uniqueIds topIds newIds = firstOccurrences (topIds ++ newIds)
  ∧ candidates cfg topIds newIds
    = (if 0 <? Config.MAX_STORIES cfg
       then take (Z.to_nat (Config.MAX_STORIES cfg))
                 (firstOccurrences (topIds ++ newIds))
       else firstOccurrences (topIds ++ newIds))
  ∧ length (candidates cfg topIds newIds)
    = (if 0 <? Config.MAX_STORIES cfg
       then Nat.min (Z.to_nat (Config.MAX_STORIES cfg))
                    (length (firstOccurrences (topIds ++ newIds)))
       else length (firstOccurrences (topIds ++ newIds))).
Proof.
  destruct (uniqueFrom_spec ∅ (topIds ++ newIds)) as (Hnd & Hel & Hsub).
  fold (uniqueIds topIds newIds) in Hnd, Hel, Hsub.
  assert (Hpre : candidates cfg topIds newIds
                 `prefix_of` uniqueIds topIds newIds).
  { unfold candidates, sliceTo.
    destruct (0 <? _); [apply prefix_take | reflexivity]. }
  assert (Hfirst : uniqueIds topIds newIds
                   = firstOccurrences (topIds ++ newIds)).
  { apply uniqueFrom_first. intros x.
    rewrite elem_of_empty, elem_of_nil. tauto. }
  split; [split; [|split; [|split; [exact Hpre|split]]]|].
  - destruct Hpre as [k Hk]. rewrite Hk in Hnd.
    apply NoDup_app in Hnd. tauto.
  - destruct Hpre as [k Hk]. rewrite Hk in Hsub.
    etransitivity; [|exact Hsub]. apply sublist_inserts_r. reflexivity.
  - intros x. rewrite Hel, elem_of_app, elem_of_empty. tauto.
  - unfold candidates, sliceTo.
    destruct (Z.ltb_spec 0 (Config.MAX_STORIES cfg)); [|reflexivity].
    rewrite length_take. lia.
  - split; [exact Hfirst|].
    unfold candidates, sliceTo. rewrite Hfirst.
    destruct (0 <? Config.MAX_STORIES cfg);
      [rewrite length_take|]; split; reflexivity.
Qed.

Example candidates_first_appearance :
  candidates Scenario.cfg [1; 2] [1] = [1; 2]
  ∧ candidates (Config.mk 8 2 0 10) [3; 1; 3] [2; 1; 4] = [3; 1].
Proof. split; reflexivity. Qed.

(** ** The retry wrapper, further *)

Lemma retryDelay_Some error attempt maxRetries delay :
  Retry.retryDelay error attempt maxRetries = Some delay ->
  (attempt < maxRetries)%nat
  ∧ match delay with
    | Js.Int n => 2000 <= n
    | Js.NaN =>
        HttpResponse.status <$> Error.response error = Some 429
        ∧ Error.response error ≫= HttpResponse.retry_after = Some Js.NaN
    end.
Proof.
  unfold Retry.retryDelay.
  assert (Hpow : 1 <= 2 ^ Z.of_nat attempt)
    by (pose proof (Z.pow_pos_nonneg 2 (Z.of_nat attempt)); lia).
  destruct (Nat.ltb_spec attempt maxRetries) as [Hlt|Hge].
  - intros H. split; [exact Hlt|]. rewrite !andb_true_r in H.
    destruct (bool_decide (_ = Some 400) && _).
    { inversion H; subst. lia. }
    destruct (bool_decide_reflect
                (HttpResponse.status <$> Error.response error = Some 429))
      as [H429|_].
    { destruct (Error.response error ≫= HttpResponse.retry_after)
        as [[n|]|]; inversion H; subst; cbn [default]; [lia|auto|lia]. }
    destruct (HttpResponse.status <$> Error.response error) as [st|];
      [|discriminate].
    cbn [andb] in H. destruct (negb (st =? 0) && (500 <=? st));
      inversion H; subst. lia.
  - rewrite !andb_false_r. simpl. discriminate.
Qed.

Lemma timeoutMs_range delay : 1 <= Js.timeoutMs delay <= 2147483647.
Proof.
  unfold Js.timeoutMs. destruct delay as [d|]; [|lia].
  destruct (Z.leb_spec 1 d); destruct (Z.leb_spec d 2147483647);
    cbn [andb]; lia.
Qed.

Lemma timeoutMs_le d : 1 <= d -> Js.timeoutMs (Js.Int d) <= d.
Proof.
  intros H. unfold Js.timeoutMs.
  destruct (Z.leb_spec 1 d); destruct (Z.leb_spec d 2147483647);
    cbn [andb]; lia.
Qed.

Lemma withRetryFrom_outcome {T} (fn : nat -> Result T) maxRetries remaining :
  ∀ attempt,
    (attempt + remaining = S maxRetries)%nat ->
    (0 < remaining)%nat ->
    let r := Retry.withRetryFrom fn maxRetries remaining attempt in
    r.1 = fn (attempt + length r.2)%nat
    ∧ (∀ k, (k < length r.2)%nat ->
            ∃ e d, fn (attempt + k)%nat = Throw e
                   ∧ Retry.retryDelay e (attempt + k) maxRetries = Some d
                   ∧ r.2 !! k = Some (Js.timeoutMs d))
    ∧ Forall (λ wait, 1 <= wait <= 2147483647) r.2.
Proof.
  induction remaining as [|remaining IH]; intros attempt Hsum Hpos; [lia|].
  simpl. destruct (fn attempt) as [v|e] eqn:E.
  - simpl. rewrite Nat.add_0_r. split; [auto|]. split; [|constructor].
    intros k Hk. simpl in Hk. lia.
  - destruct (Retry.retryDelay e attempt maxRetries) as [d|] eqn:D.
    + apply retryDelay_Some in D as HD. destruct HD as [Hlt Hd].
      specialize (IH (S attempt) ltac:(lia) ltac:(lia)).
      destruct (Retry.withRetryFrom fn maxRetries remaining (S attempt))
        as [r ds]. simpl in *. destruct IH as (IH1 & IH2 & IH3).
      split; [rewrite IH1; f_equal; lia|].
      split; [|constructor; [apply timeoutMs_range | assumption]].
      intros [|k] Hk.
      * exists e, d. rewrite Nat.add_0_r. auto.
      * destruct (IH2 k ltac:(lia)) as (e' & d' & H1 & H2 & H3).
        exists e', d'. replace (attempt + S k)%nat with (S (attempt + k)) by lia.
        auto.
    + simpl. rewrite Nat.add_0_r. split; [auto|]. split; [|constructor].
      intros k Hk. simpl in Hk. lia.
Qed.

(** X5.  What [withRetry] returns is the outcome of the last call it made:
    after [n] waits, the result of call number [n], every earlier call
    having raised an error that the wrapper chose to retry, and it never
    raises an error of its own.  The delay computed before a retry is two
    seconds at least, except for a 429 whose [Retry-After] header
    [parseInt] cannot read (an HTTP date): that delay is [NaN].  The wait is
    what the timer makes of the delay: the delay itself when it is at most
    2147483647 ms, and 1 ms when it is larger or [NaN]. *)
Theorem withRetry_returns_last_outcome {T} (fn : nat -> Result T)
        (maxRetries : nat) :
  let r := Retry.withRetry fn maxRetries in
  r.1 = fn (length r.2)
  ∧ (∀ k, (k < length r.2)%nat ->
          ∃ e d, fn k = Throw e
                 ∧ Retry.retryDelay e k maxRetries = Some d
                 ∧ r.2 !! k = Some (Js.timeoutMs d)
                 ∧ match d with
                   | Js.Int n =>
                       2000 <= n
                       ∧ Js.timeoutMs d = if n <=? 2147483647 then n else 1
                   | Js.NaN =>
                       HttpResponse.status <$> Error.response e = Some 429
                       ∧ Error.response e ≫= HttpResponse.retry_after
                         = Some Js.NaN
                       ∧ Js.timeoutMs d = 1
                   end)
  ∧ Forall (λ wait, 1 <= wait <= 2147483647) r.2.
Proof.
  destruct (withRetryFrom_outcome fn maxRetries (S maxRetries) 0%nat)
    as (H1 & H2 & H3); [lia..|].
  split; [exact H1|]. split; [|exact H3].
  intros k Hk. destruct (H2 k Hk) as (e & d & Hf & Hd & Hw).
  exists e, d. repeat split; try assumption.
  apply retryDelay_Some in Hd as [_ Hd].
  destruct d as [n|].
  - split; [exact Hd|]. unfold Js.timeoutMs.
    destruct (Z.leb_spec 1 n); [|lia]. reflexivity.
  - destruct Hd. auto.
Qed.

Example withRetry_http_date :
  Retry.withRetry httpDateLimited Retry.defaultMaxRetries = (Ok 7, [1]).
Proof. reflexivity. Qed.

Lemma retryDelay_no_header error attempt maxRetries delay :
  Error.response error ≫= HttpResponse.retry_after = None ->
  Retry.retryDelay error attempt maxRetries = Some delay ->
  Js.timeoutMs delay <= 3000 * 2 ^ Z.of_nat attempt.
Proof.
  intros Hh H. pose proof (retryDelay_Some _ _ _ _ H) as [_ Hd].
  revert H. unfold Retry.retryDelay. rewrite Hh.
  assert (Hpow : Z.of_nat attempt + 1 <= 2 ^ Z.of_nat attempt).
  { clear. induction attempt as [|a IH]; [simpl; lia|].
    rewrite Nat2Z.inj_succ, Z.pow_succ_r by lia. lia. }
  intros H.
  destruct delay as [n|]; [|destruct Hd; congruence].
  etransitivity; [apply timeoutMs_le; lia|].
  repeat match type of H with
         | (if ?b then _ else _) = _ => destruct b
         end; inversion H; subst; simpl; lia.
Qed.

Lemma withRetryFrom_total_wait {T} (fn : nat -> Result T) maxRetries remaining :
  (∀ k e, fn k = Throw e ->
          Error.response e ≫= HttpResponse.retry_after = None) ->
  ∀ attempt,
    (attempt + remaining = S maxRetries)%nat ->
    (0 < remaining)%nat ->
    sumZ (Retry.withRetryFrom fn maxRetries remaining attempt).2
    <= 3000 * (2 ^ Z.of_nat maxRetries - 2 ^ Z.of_nat attempt).
Proof.
  intros Hfn. induction remaining as [|remaining IH]; intros attempt Hsum Hpos;
    [lia|].
  assert (Hmono : 2 ^ Z.of_nat attempt <= 2 ^ Z.of_nat maxRetries)
    by (apply Z.pow_le_mono_r; lia).
  simpl. destruct (fn attempt) as [v|e] eqn:E.
  - simpl. lia.
  - destruct (Retry.retryDelay e attempt maxRetries) as [d|] eqn:D.
    + apply retryDelay_Some in D as HD. destruct HD as [Hlt _].
      apply retryDelay_no_header in D; [|eauto].
      specialize (IH (S attempt) ltac:(lia) ltac:(lia)).
      destruct (Retry.withRetryFrom fn maxRetries remaining (S attempt))
        as [r ds]. simpl in *.
      rewrite Nat2Z.inj_succ, Z.pow_succ_r in IH by lia. lia.
    + simpl. lia.
Qed.

(** X6.  When no error response carries a [retry-after] header, the waits of
    [withRetry] add up to at most [3000 * (2^maxRetries - 1)] ms: 45 seconds
    for the default cap. *)
Theorem withRetry_total_wait {T} (fn : nat -> Result T) (maxRetries : nat) :
  (∀ k e, fn k = Throw e ->
          Error.response e ≫= HttpResponse.retry_after = None) ->
  sumZ (Retry.withRetry fn maxRetries).2
  <= 3000 * (2 ^ Z.of_nat maxRetries - 1).
Proof.
  intros Hfn.
  apply (withRetryFrom_total_wait fn maxRetries (S maxRetries) Hfn 0%nat);
    lia.
Qed.

Lemma withRetry_total_wait_witness :
  sumZ (Retry.withRetry alwaysRateLimited Retry.defaultMaxRetries).2
  <= 3000 * (2 ^ Z.of_nat Retry.defaultMaxRetries - 1).
Proof.
  apply (withRetry_total_wait alwaysRateLimited Retry.defaultMaxRetries).
  intros k e H. inversion H. reflexivity.
Defined.

Example withRetry_rate_limited_waits_45s :
  sumZ (Retry.withRetry alwaysRateLimited Retry.defaultMaxRetries).2 = 45000.
Proof. reflexivity. Qed.

(** X7.  A reply of the language model that does not parse is not retried:
    the parse error of the first reply goes to the caller after one request
    and no wait. *)
Theorem chatCompletion_malformed_reply_not_retried
        (post : nat -> Result string) content e :
  post 0%nat = Ok content ->
  OpenRouter.parseJsonResponse content = Throw e ->
  OpenRouter.chatCompletion post = (Throw e, []).
Proof.
  intros Hpost Hparse.
  assert (Hresp : Error.response e = None).
  { revert Hparse. unfold OpenRouter.parseJsonResponse.
    destruct (Json.parse content); [discriminate|].
    destruct (OpenRouter.matchObject _).
    - destruct (Json.parse _); [discriminate|].
      intros H. inversion H. reflexivity.
    - intros H. inversion H. reflexivity. }
  unfold OpenRouter.chatCompletion, Retry.withRetry. simpl.
  rewrite Hpost, Hparse. unfold Retry.retryDelay. rewrite Hresp. reflexivity.
Qed.

Lemma chatCompletion_malformed_reply_not_retried_witness :
  OpenRouter.chatCompletion (λ _, Ok twoObjects)
  = (Throw OpenRouter.syntaxError, []).
Proof.
  apply (chatCompletion_malformed_reply_not_retried
           (λ _, Ok twoObjects) twoObjects OpenRouter.syntaxError);
    reflexivity.
Defined.

(** ** The upstream client *)

(** X8.  [fetchItem] never raises and makes at most two requests.  It makes
    the second one exactly when the first one failed with status 429 or
    with a status of 500 or more, and then returns what that second request
    gives, [null] if it fails too; any other failure gives [null] at
    once. *)
Theorem fetchItem_retries_once (get : nat -> Result (option HNItem.t)) :
  let r := Hn.fetchItem get in
  (1 <= r.2 <= 2)%nat
  ∧ (r.2 = 2%nat ↔ ∃ e, get 0%nat = Throw e ∧ Hn.shouldRetry e = true)
  ∧ match get (r.2 - 1)%nat with
    | Ok data => r.1 = data
    | Throw _ => r.1 = None
    end.
Proof.
  unfold Hn.fetchItem.
  destruct (get 0%nat) as [d|e] eqn:E0; simpl.
  - rewrite E0. split; [lia|]. split; [|reflexivity].
    split; [discriminate|]. intros (e & H & _). discriminate.
  - destruct (Hn.shouldRetry e) eqn:R.
    + destruct (get 1%nat) as [d|e1] eqn:E1; simpl; rewrite E1;
        (split; [lia|]); (split; [|reflexivity]);
        (split; [eauto|reflexivity]).
    + simpl. rewrite E0. split; [lia|]. split; [|reflexivity].
      split; [discriminate|]. intros (e' & H & R'). inversion H; subst.
      congruence.
Qed.

Example fetchItem_second_try :
  Hn.fetchItem secondTry = (Some Scenario.story101, 2%nat)
  ∧ Hn.fetchItem (λ _, Throw (httpError 404 None None)) = (None, 1%nat).
Proof. split; reflexivity. Qed.

Lemma fetchItemsLoop_all fetch ids fuel :
  ∀ i results,
    (length ids <= i + fuel)%nat ->
    Hn.fetchItemsLoop fetch ids fuel i results
    = results ++ map fetch (drop i ids).
Proof.
  induction fuel as [|fuel IH]; intros i results Hfuel; simpl.
  - rewrite drop_ge by lia. simpl. rewrite app_nil_r. reflexivity.
  - destruct (Nat.ltb_spec i (length ids)) as [Hlt|Hge].
    + rewrite IH by (unfold Hn.BATCH_SIZE; lia).
      rewrite <- app_assoc, <- map_app. f_equal. f_equal.
      rewrite <- drop_drop. apply take_drop.
    + rewrite drop_ge by lia. simpl. rewrite app_nil_r. reflexivity.
Qed.

(** X9.  Batching is invisible: [fetchItems] returns one result for each
    identifier, in the order of the identifiers, each the result of
    [fetchItem] for that identifier. *)
Theorem fetchItems_is_map (fetch : Z -> option HNItem.t) (ids : list Z) :
  Hn.fetchItems fetch ids = map fetch ids
  ∧ length (Hn.fetchItems fetch ids) = length ids.
Proof.
  assert (E : Hn.fetchItems fetch ids = map fetch ids).
  { unfold Hn.fetchItems. rewrite fetchItemsLoop_all by lia. reflexivity. }
  split; [exact E|]. rewrite E. apply length_map.
Qed.

(** ** The writes of a cycle *)

Lemma updateFirst_snoc_fresh {A} (p : A -> bool) (f : A -> A) l x :
  Forall (λ y, p y = false) l -> p x = true ->
  updateFirst p f (l ++ [x]) = l ++ [f x].
Proof.
  intros Hl Hx. induction Hl as [|y l Hy _ IH]; simpl.
  - rewrite Hx. reflexivity.
  - rewrite Hy, IH. reflexivity.
Qed.

Lemma existsb_false_ne_story hnId l :
  existsb (λ s, Story.hnId s =? hnId) l = false ->
  Forall (λ s, Story.hnId s ≠ hnId) l.
Proof.
  intros H. apply existsb_false_Forall in H.
  eapply Forall_impl; [exact H|]. intros s Hs. simpl in Hs. lia.
Qed.

Lemma existsb_false_ne_comment hnId l :
  existsb (λ c, Comment.hnId c =? hnId) l = false ->
  Forall (λ c, Comment.hnId c ≠ hnId) l.
Proof.
  intros H. apply existsb_false_Forall in H.
  eapply Forall_impl; [exact H|]. intros s Hs. simpl in Hs. lia.
Qed.

Lemma addEmbedded_0 s : addEmbedded 0 s = s.
Proof. destruct s. unfold addEmbedded. simpl. rewrite Z.add_0_r. reflexivity. Qed.

Lemma addEmbedded_add a b s : addEmbedded a (addEmbedded b s) = addEmbedded (b + a) s.
Proof. unfold addEmbedded. simpl. rewrite Z.add_assoc. reflexivity. Qed.

Section CycleOutcomes.
Variable cfg : Config.t.
Variable env : Env.t.

(** *** One comment *)

Lemma processComment_cases ci storyHnId storyTitle parentContext w :
  let run := processComment env ci storyHnId storyTitle parentContext w in
  let raw := newCommentRow ci storyHnId in
  if existsb (λ c, Comment.hnId c =? HNItem.id ci) (World.comments w)
  then run = (Ok false, w)
  else
    (run = (Ok false, World.withComments (λ l, l ++ [raw]) w)
     ∧ ((30 <? String.length (stripHtml (HNItem.text ci)))%nat = false
        ∨ (∃ e, Env.analyzeComment env (stripHtml (HNItem.text ci))
                                   storyTitle parentContext = Throw e)
        ∨ ∃ analysis e,
            Env.analyzeComment env (stripHtml (HNItem.text ci)) storyTitle
                               parentContext = Ok analysis
            ∧ Env.generateEmbedding env
                (commentEmbeddingText analysis
                   (normalizeConcepts (CommentAnalysis.concepts analysis)))
              = Throw e))
    ∨ ∃ analysis embedding,
        (30 <? String.length (stripHtml (HNItem.text ci)))%nat = true
        ∧ Env.analyzeComment env (stripHtml (HNItem.text ci)) storyTitle
                             parentContext = Ok analysis
        ∧ Env.generateEmbedding env
            (commentEmbeddingText analysis
               (normalizeConcepts (CommentAnalysis.concepts analysis)))
          = Ok embedding
        ∧ match Env.addCommentEmbedding env (HNItem.id ci) embedding
                  (commentMetadata ci storyHnId analysis
                     (normalizeConcepts (CommentAnalysis.concepts analysis)))
          with
          | Ok _ =>
              run = (Ok true,
                     World.withWorker WorkerState.incrTotalEmbedded
                       (World.withComments
                          (λ l, l ++ [analyzedCommentRow env ci storyHnId
                                                         analysis]) w))
          | Throw _ =>
              run = (Ok false,
                     World.withComments
                       (λ l, l ++ [analyzedCommentRow env ci storyHnId
                                                      analysis]) w)
          end.
Proof.
  intros run raw.
  destruct (existsb _ _) eqn:Ex.
  { subst run. unfold processComment, tryCatch, bind, Comments.create.
    change (Comment.hnId (newCommentRow ci storyHnId)) with (HNItem.id ci).
    rewrite Ex. reflexivity. }
  assert (Hupd : ∀ analysis,
             updateFirst (λ c, Comment.hnId c =? HNItem.id ci)
               (Comment.applyPatch
                  (commentAnalysisPatch env analysis
                     (normalizeConcepts (CommentAnalysis.concepts analysis))))
               (World.comments w ++ [raw])
             = World.comments w
                 ++ [analyzedCommentRow env ci storyHnId analysis]).
  { intros analysis. unfold analyzedCommentRow. fold raw.
    apply updateFirst_snoc_fresh; [|apply Z.eqb_refl].
    apply existsb_false_Forall in Ex. exact Ex. }
  subst run.
  unfold processComment, analyzeNewComment, tryCatch, bind, Comments.create,
    await, updateComment, modify, ret.
  change (Comment.hnId (newCommentRow ci storyHnId)) with (HNItem.id ci).
  rewrite Ex. fold raw.
  destruct (30 <? _)%nat eqn:Hlen;
    [|left; split; [reflexivity | left; reflexivity]].
  destruct (Env.analyzeComment env _ _ _) as [analysis|e] eqn:Ha;
    [|left; split; [reflexivity | right; left; eauto]].
  cbv beta iota.
  destruct (Env.generateEmbedding env _) as [embedding|e] eqn:Hg;
    [|left; split; [reflexivity | right; right; eauto]].
  right. exists analysis, embedding.
  split; [reflexivity|]. split; [reflexivity|]. split; [exact Hg|].
  unfold World.withComments, World.withWorker. simpl.
  rewrite Hupd.
  destruct (Env.addCommentEmbedding env (HNItem.id ci) embedding _);
    reflexivity.
Qed.

Lemma processComment_effect ci storyHnId storyTitle parentContext w :
  ∃ ok w',
    processComment env ci storyHnId storyTitle parentContext w = (Ok ok, w')
    ∧ World.stories w' = World.stories w
    ∧ World.workerState w'
      = addEmbedded (if ok then 1 else 0) (World.workerState w)
    ∧ if existsb (λ c, Comment.hnId c =? HNItem.id ci) (World.comments w)
      then ok = false ∧ w' = w
      else ∃ row,
          World.comments w' = World.comments w ++ [row]
          ∧ Comment.hnId row = HNItem.id ci
          ∧ ingestedCommentRow env row.
Proof.
  pose proof (processComment_cases ci storyHnId storyTitle parentContext w)
    as H. cbv zeta in H.
  destruct (existsb _ _) eqn:Ex.
  - exists false, w. rewrite addEmbedded_0. auto.
  - destruct H as [[Hrun _]|(analysis & embedding & _ & _ & _ & H)].
    + eexists false, _. split; [exact Hrun|]. simpl.
      rewrite addEmbedded_0. split; [reflexivity|]. split; [reflexivity|].
      eexists. split; [reflexivity|]. split; [reflexivity|].
      exists ci, storyHnId. left. reflexivity.
    + assert (Hrow : ingestedCommentRow env
                       (analyzedCommentRow env ci storyHnId analysis))
        by (exists ci, storyHnId; right; eauto).
      destruct (Env.addCommentEmbedding env (HNItem.id ci) embedding _).
      * eexists true, _. split; [exact H|]. simpl.
        split; [reflexivity|]. split; [reflexivity|].
        eexists. split; [reflexivity|]. split; [reflexivity|]. exact Hrow.
      * eexists false, _. split; [exact H|]. simpl.
        rewrite addEmbedded_0. split; [reflexivity|]. split; [reflexivity|].
        eexists. split; [reflexivity|]. split; [reflexivity|]. exact Hrow.
Qed.

Lemma processComment_writes ci storyHnId storyTitle parentContext :
  Traces (CycleWrite env)
         (processComment env ci storyHnId storyTitle parentContext).
Proof.
  intros w.
  destruct (processComment_effect ci storyHnId storyTitle parentContext w)
    as (ok & w' & Hrun & HS & HW & HC).
  rewrite Hrun. cbn [snd].
  destruct (existsb _ _) eqn:Ex.
  - destruct HC as [_ ->]. apply rtc_refl.
  - destruct HC as (row & HC & Hid & Hrow).
    apply existsb_false_ne_comment in Ex. rewrite <- Hid in Ex.
    eapply rtc_l; [apply (cw_comment env w row Ex Hrow)|].
    destruct w' as [ss cs ws]. simpl in *. subst ss cs ws.
    destruct ok.
    + apply rtc_once.
      apply (cw_worker env
               (World.withComments (λ l, l ++ [row]) w)
               WorkerState.incrTotalEmbedded).
      intros s. apply ww_embedded.
    + rewrite addEmbedded_0. destruct w. apply rtc_refl.
Qed.

Lemma commentLoop_effect item existingSet todo :
  ∀ parentSummaryMap commentsProcessed newComments w,
    ∃ commentsProcessed' newComments' w' added,
      commentLoop cfg env item existingSet todo parentSummaryMap
                  commentsProcessed newComments w
      = (Ok (commentsProcessed', newComments'), w')
      ∧ 0 <= newComments' - newComments
      ∧ newComments' - newComments <= Z.of_nat (length added)
      ∧ Z.of_nat (length added) <= commentsProcessed' - commentsProcessed
      ∧ commentsProcessed' - commentsProcessed <= Z.of_nat (length todo)
      ∧ (if 0 <? Config.NEW_COMMENTS_BATCH cfg
         then newComments'
              <= Z.max newComments (Config.NEW_COMMENTS_BATCH cfg)
         else True)
      ∧ World.stories w' = World.stories w
      ∧ World.workerState w'
        = addEmbedded (newComments' - newComments) (World.workerState w)
      ∧ World.comments w' = World.comments w ++ added.
Proof.
  induction todo as [|ci rest IH]; intros psm cp nc w.
  - exists cp, nc, w, []. split; [reflexivity|].
    rewrite Z.sub_diag, addEmbedded_0, app_nil_r. simpl.
    repeat split; try lia. destruct (0 <? _); [lia | exact I].
  - cbn [commentLoop]. destruct (decide _) as [Hin|Hnin].
    { destruct (IH psm (cp + 1) nc w)
        as (cp' & nc' & w' & added & Hrun & H1 & H2 & H3 & H4 & H5 & H6).
      exists cp', nc', w', added. split; [exact Hrun|].
      cbn [length]. repeat split; try tauto; lia. }
    destruct (_ && _) eqn:Hcap.
    { exists cp, nc, w, []. split; [reflexivity|].
      rewrite Z.sub_diag, addEmbedded_0, app_nil_r. simpl.
      repeat split; try lia. destruct (0 <? _); [lia | exact I]. }
    set (pc := match parentOrNull (HNItem.parent ci) with
               | Some p => psm !! p
               | None => None
               end).
    destruct (processComment_effect ci (HNItem.id item)
                (Js.optOrElse (HNItem.title item) EmptyString) pc w)
      as (ok & w1 & Hrun & HS & HW & HC).
    assert (Hadd1 : ∃ added1, World.comments w1 = World.comments w ++ added1
                              ∧ (if ok then 1 else 0)
                                <= Z.of_nat (length added1) <= 1).
    { destruct (existsb _ _).
      - destruct HC as [-> ->]. exists []. rewrite app_nil_r. simpl.
        split; [reflexivity | lia].
      - destruct HC as (row & HC & _). exists [row]. split; [exact HC|].
        simpl. destruct ok; lia. }
    destruct Hadd1 as (added1 & Hadd1 & Hlen1).
    unfold bind at 1. rewrite Hrun. destruct ok.
    + unfold bind at 1, Comments.findOne.
      match goal with
      | |- context [commentLoop cfg env item existingSet rest ?m _ _ w1] =>
          destruct (IH m (cp + 1) (nc + 1) w1)
            as (cp' & nc' & w' & added & Hloop & H1 & H2 & H3 & H4 & H5
                & H6 & H7 & H8)
      end.
      exists cp', nc', w', (added1 ++ added). split; [exact Hloop|].
      rewrite H6, H7, H8, HS, HW, Hadd1, addEmbedded_add, length_app,
        <- app_assoc.
      cbn [length]. split; [lia|]. split; [lia|]. split; [lia|].
      split; [lia|]. split.
      { apply andb_false_iff in Hcap.
        destruct (Z.ltb_spec 0 (Config.NEW_COMMENTS_BATCH cfg));
          [|exact I].
        destruct Hcap as [Hcap|Hcap]; [discriminate|].
        apply Z.leb_gt in Hcap. lia. }
      split; [reflexivity|]. split; [|reflexivity].
      f_equal. lia.
    + destruct (IH psm (cp + 1) nc w1)
        as (cp' & nc' & w' & added & Hloop & H1 & H2 & H3 & H4 & H5
            & H6 & H7 & H8).
      exists cp', nc', w', (added1 ++ added). split; [exact Hloop|].
      rewrite H6, H7, H8, HS, HW, Hadd1, addEmbedded_0, length_app,
        <- app_assoc.
      cbn [length]. repeat split; try tauto; lia.
Qed.

Lemma commentLoop_writes item existingSet todo :
  ∀ parentSummaryMap commentsProcessed newComments,
    Traces (CycleWrite env)
           (commentLoop cfg env item existingSet todo parentSummaryMap
                        commentsProcessed newComments).
Proof.
  induction todo as [|ci rest IH]; intros psm cp nc; simpl.
  - apply traces_ret.
  - destruct (decide _); [apply IH|].
    destruct (_ && _); [apply traces_ret|].
    apply traces_bind; [apply processComment_writes|]. intros [|].
    + apply traces_bind; [apply traces_comments_findOne|]. intros nc'.
      apply IH.
    + apply IH.
Qed.

Lemma processStoryComments_writes item :
  Traces (CycleWrite env) (processStoryComments cfg env item).
Proof.
  unfold processStoryComments.
  destruct (HNItem.kids item) as [[|k kids]|]; try apply traces_ret.
  apply traces_bind_await. intros topLevelItems _.
  apply traces_bind; [apply traces_comments_findAllIn|]. intros existing.
  apply commentLoop_writes.
Qed.

(** The comments handed to the loop of [processStoryComments]. *)
Lemma processStoryComments_effect item w :
  match processStoryComments cfg env item w with
  | (Ok (commentsProcessed, newComments), w') =>
      ∃ added,
        0 <= newComments
        ∧ newComments <= Z.of_nat (length added)
        ∧ Z.of_nat (length added) <= commentsProcessed
        ∧ (if 0 <? Config.NEW_COMMENTS_BATCH cfg
           then newComments <= Config.NEW_COMMENTS_BATCH cfg
           else True)
        ∧ (if 0 <? Config.MAX_COMMENTS_PER_STORY cfg
           then commentsProcessed <= Config.MAX_COMMENTS_PER_STORY cfg
           else True)
        ∧ World.stories w' = World.stories w
        ∧ World.workerState w' = addEmbedded newComments (World.workerState w)
        ∧ World.comments w' = World.comments w ++ added
  | (Throw e, w') =>
      w' = w
      ∧ ∃ kids, HNItem.kids item = Some kids
                ∧ Env.fetchItems env kids = Throw e
  end.
Proof.
  assert (Hnone : ∃ added : list Comment.t,
             0 <= 0
             ∧ 0 <= Z.of_nat (length added)
             ∧ Z.of_nat (length added) <= 0
             ∧ (if 0 <? Config.NEW_COMMENTS_BATCH cfg
                then 0 <= Config.NEW_COMMENTS_BATCH cfg else True)
             ∧ (if 0 <? Config.MAX_COMMENTS_PER_STORY cfg
                then 0 <= Config.MAX_COMMENTS_PER_STORY cfg else True)
             ∧ World.stories w = World.stories w
             ∧ World.workerState w = addEmbedded 0 (World.workerState w)
             ∧ World.comments w = World.comments w ++ added).
  { exists []. rewrite addEmbedded_0, app_nil_r. simpl.
    repeat split; try lia.
    - destruct (Z.ltb_spec 0 (Config.NEW_COMMENTS_BATCH cfg)); [lia|exact I].
    - destruct (Z.ltb_spec 0 (Config.MAX_COMMENTS_PER_STORY cfg));
        [lia|exact I]. }
  unfold processStoryComments.
  destruct (HNItem.kids item) as [[|k kids]|] eqn:Hk;
    [exact Hnone | | exact Hnone].
  unfold bind at 1, await.
  destruct (Env.fetchItems env (k :: kids)) as [items|e] eqn:Hf;
    [|split; [reflexivity | eauto]].
  unfold bind, Comments.findAllIn.
  set (toProcess := if 0 <? Config.MAX_COMMENTS_PER_STORY cfg then _ else _).
  match goal with
  | |- context [commentLoop cfg env item ?s toProcess ?m 0 0 w] =>
      destruct (commentLoop_effect item s toProcess m 0 0 w)
        as (cp & nc & w' & added & Hloop & H1 & H2 & H3 & H4 & H5
            & H6 & H7 & H8)
  end.
  rewrite Hloop. exists added.
  rewrite !Z.sub_0_r in *.
  split; [lia|]. split; [lia|]. split; [lia|]. split.
  { destruct (Z.ltb_spec 0 (Config.NEW_COMMENTS_BATCH cfg)); [lia|exact I]. }
  split; [|auto].
  subst toProcess.
  destruct (Z.ltb_spec 0 (Config.MAX_COMMENTS_PER_STORY cfg)); [|exact I].
  unfold sliceTo in H4. rewrite length_take in H4. lia.
Qed.

(** *** One story *)

Lemma analyzeNewStory_effect item rawText w :
  Forall (λ s, Story.hnId s ≠ HNItem.id item) (World.stories w) ->
  let run :=
    analyzeNewStory env item (newStoryRow item) rawText
      (World.withStories (λ l, l ++ [newStoryRow item]) w) in
  ∃ row,
    ingestedStoryRow env row
    ∧ Story.hnId row = HNItem.id item
    ∧ (run.2 = World.withStories (λ l, l ++ [row]) w
       ∨ run = (Ok tt,
                World.withWorker WorkerState.incrTotalEmbedded
                  (World.withStories (λ l, l ++ [row]) w))).
Proof.
  intros Hfresh run. subst run.
  assert (Hraw : ingestedStoryRow env (newStoryRow item))
    by (exists item; left; reflexivity).
  unfold analyzeNewStory, bind, await, updateStory, modify.
  destruct (Env.analyzeStory env _ _ _) as [analysis|e];
    [|exists (newStoryRow item); auto].
  cbv beta iota.
  destruct (Env.generateEmbedding env _) as [embedding|e];
    [|exists (newStoryRow item); auto].
  exists (analyzedStoryRow env item analysis).
  split; [exists item; right; eauto|]. split; [reflexivity|].
  assert (Hupd :
            updateFirst (λ s, Story.hnId s =? HNItem.id item)
              (Story.applyPatch
                 (storyAnalysisPatch env analysis
                    (normalizeConcepts (StoryAnalysis.concepts analysis))))
              (World.stories w ++ [newStoryRow item])
            = World.stories w ++ [analyzedStoryRow env item analysis]).
  { unfold analyzedStoryRow. apply updateFirst_snoc_fresh; [|apply Z.eqb_refl].
    eapply Forall_impl; [exact Hfresh|]. intros s Hs.
    apply Z.eqb_neq. exact Hs. }
  unfold World.withStories, World.withWorker. simpl.
  change (Story.hnId (newStoryRow item)) with (HNItem.id item).
  rewrite Hupd.
  destruct (Env.addStoryEmbedding env (HNItem.id item) embedding _) as [[]|e];
    [right | left]; reflexivity.
Qed.

Lemma newStory_writes hnId item :
  Traces (CycleWrite env)
    (let* story := Stories.create (newStoryRow item) in
     let rawText := stripHtml (HNItem.text item) in
     let textForAnalysis :=
       Js.trim (Js.optOrElse (HNItem.title item) EmptyString
                +:+ " " +:+ rawText) in
     (if (0 <? String.length textForAnalysis)%nat
      then
        tryCatch
          (analyzeNewStory env item story rawText)
          (fun err =>
             modify (World.withWorker
                       (WorkerState.pushError
                          ("story " +:+ Js.ofNumber hnId +:+ ": "
                           +:+ messageOr err "unknown"))))
      else ret tt) ;;;
     modify (World.withWorker WorkerState.incrTotalProcessed) ;;;
     ret (New, Some item)).
Proof.
  intros w. unfold bind at 1, Stories.create.
  change (Story.hnId (newStoryRow item)) with (HNItem.id item).
  destruct (existsb _ _) eqn:Ex; [apply rtc_refl|].
  apply existsb_false_ne_story in Ex.
  assert (Hprocessed : ∀ w0,
             rtc (CycleWrite env) w0
                 ((modify (World.withWorker WorkerState.incrTotalProcessed) ;;;
                   ret (New, Some item)) w0).2).
  { intros w0. apply rtc_once. apply cw_worker. intros s. apply ww_processed. }
  cbv zeta. destruct (0 <? _)%nat.
  - pose proof (analyzeNewStory_effect item (stripHtml (HNItem.text item)) w Ex)
      as (row & Hrow & Hid & Hrun).
    cbv zeta in Hrun. rewrite <- Hid in Ex.
    eapply rtc_l; [apply (cw_story env w row Ex Hrow)|].
    unfold bind at 1, tryCatch.
    destruct (analyzeNewStory env item _ _ _) as [[[]|e] w2];
      cbn [fst snd] in Hrun.
    + destruct Hrun as [-> | Hrun]; [apply Hprocessed|].
      injection Hrun as ->.
      eapply rtc_l; [|apply Hprocessed].
      apply cw_worker. intros s. apply ww_embedded.
    + destruct Hrun as [-> | Hrun]; [|discriminate].
      unfold modify at 1. cbv beta iota.
      eapply rtc_l; [|apply Hprocessed].
      apply cw_worker. intros s. apply ww_error.
  - eapply rtc_l; [|apply Hprocessed].
    apply cw_story; [exact Ex|]. exists item. left. reflexivity.
Qed.

Lemma worker_writes f :
  (∀ s, WorkerWrite s (f s)) ->
  Traces (CycleWrite env) (modify (World.withWorker f)).
Proof. intros H. apply traces_modify. intros w. apply cw_worker, H. Qed.

Lemma processStoryOnly_writes hnId :
  Traces (CycleWrite env) (processStoryOnly cfg env hnId).
Proof.
  unfold processStoryOnly.
  apply traces_bind; [apply traces_stories_findOne|]. intros existing.
  apply traces_bind_await. intros fetched Hf.
  destruct fetched as [item|]; [|apply traces_ret].
  destruct (negb (String.eqb _ _)); [apply traces_ret|].
  destruct (negb (isRecent _ _ _)); [apply traces_ret|].
  destruct existing as [ex|].
  - apply traces_bind; [|intros; apply traces_ret].
    apply traces_modify. intros w. apply cw_refresh.
  - apply traces_bind; [apply worker_writes, ww_currently|]. intros _.
    apply newStory_writes.
Qed.

Lemma commentPhase_writes item acc :
  Traces (CycleWrite env) (commentPhase cfg env item acc).
Proof.
  unfold commentPhase.
  apply traces_tryCatch; [|intros; apply traces_ret].
  apply traces_bind; [apply worker_writes, ww_currently|]. intros _.
  apply traces_bind; [apply processStoryComments_writes|].
  intros [cp nc]. apply traces_ret.
Qed.

Lemma storyTurn_writes hnId acc :
  Traces (CycleWrite env) (storyTurn cfg env hnId acc).
Proof.
  unfold storyTurn.
  apply traces_bind; [apply processStoryOnly_writes|]. intros [result item].
  apply traces_bind; [apply worker_writes, ww_processed|]. intros _.
  destruct item as [it|]; [|apply traces_ret].
  destruct result; first [apply traces_ret | apply commentPhase_writes].
Qed.

Lemma cycleStep_writes hnId acc :
  Traces (CycleWrite env) (cycleStep cfg env hnId acc).
Proof.
  unfold cycleStep.
  apply traces_bind; [apply worker_writes, ww_current|]. intros _.
  apply traces_tryCatch; [apply storyTurn_writes|]. intros e.
  apply traces_bind; [apply worker_writes, ww_processed|]. intros _.
  apply traces_ret.
Qed.

Lemma cycleLoop_writes toProcess :
  ∀ acc, Traces (CycleWrite env) (cycleLoop cfg env toProcess acc).
Proof.
  induction toProcess as [|hnId rest IH]; intros acc; simpl.
  - apply traces_ret.
  - apply traces_bind; [apply cycleStep_writes|]. exact IH.
Qed.

Lemma runIngestionCycle_writes :
  Traces (CycleWrite env) (runIngestionCycle cfg env).
Proof.
  unfold runIngestionCycle.
  apply traces_bind_await. intros topIds _.
  apply traces_bind_await. intros newIds _.
  apply traces_bind; [apply worker_writes; intros s; apply ww_start|].
  intros _. apply cycleLoop_writes.
Qed.
End CycleOutcomes.

(** ** What a cycle leaves of the stored rows *)

Lemma updateFirst_app {A} (p : A -> bool) (f : A -> A) l1 l2 :
  updateFirst p f (l1 ++ l2)
  = if existsb p l1 then updateFirst p f l1 ++ l2
    else l1 ++ updateFirst p f l2.
Proof.
  induction l1 as [|x l1 IH]; simpl; [reflexivity|].
  destruct (p x); simpl; [reflexivity|].
  rewrite IH. destruct (existsb p l1); reflexivity.
Qed.

Lemma sameButVolatile_refresh item ex s0 s :
  sameButVolatile s0 s ->
  sameButVolatile s0 (Story.applyPatch (refreshPatch item ex) s).
Proof.
  unfold sameButVolatile. intros H.
  destruct s0, s. simpl in *. injection H. intros. subst. reflexivity.
Qed.

Lemma cycle_write_grown env w0 w w' :
  CycleWrite env w w' -> grownFrom env w0 w -> grownFrom env w0 w'.
Proof.
  intros Hstep (kept & addedS & addedC & HS & Hkept & HaddS & HC & HaddC).
  destruct Hstep as [w f _ | w item ex | w row _ Hrow | w row _ Hrow].
  - exists kept, addedS, addedC. simpl. auto.
  - unfold grownFrom, patchStoryRows.
    cbn [World.stories World.comments World.withStories].
    rewrite HS, updateFirst_app.
    destruct (existsb _ kept).
    + eexists _, addedS, addedC. split; [reflexivity|].
      split; [|auto].
      apply Forall2_updateFirst; [|exact Hkept].
      intros x0 x _ Hx _. apply sameButVolatile_refresh, Hx.
    + eexists kept, _, addedC. split; [reflexivity|].
      split; [exact Hkept|]. split; [|auto].
      apply Forall_updateFirst; [|exact HaddS].
      intros x (x0 & Hx0 & Hx). exists x0. split; [exact Hx0|].
      apply sameButVolatile_refresh, Hx.
  - exists kept, (addedS ++ [row]), addedC.
    cbn [World.stories World.comments World.withStories].
    rewrite HS, <- app_assoc. split; [reflexivity|].
    split; [exact Hkept|]. split; [|auto].
    apply Forall_app. split; [exact HaddS|].
    constructor; [|constructor].
    exists row. split; [exact Hrow | apply sameButVolatile_refl].
  - exists kept, addedS, (addedC ++ [row]).
    cbn [World.stories World.comments World.withComments].
    rewrite HC, <- app_assoc. split; [exact HS|].
    split; [exact Hkept|]. split; [exact HaddS|]. split; [reflexivity|].
    apply Forall_app. split; [exact HaddC|]. constructor; [exact Hrow|constructor].
Qed.

Lemma grownFrom_refl env w : grownFrom env w w.
Proof.
  exists (World.stories w), [], []. rewrite !app_nil_r.
  split; [reflexivity|]. split; [|auto].
  induction (World.stories w); constructor; auto using sameButVolatile_refl.
Qed.

(** X10.  An ingestion cycle only adds to the tables.  Every row stored
    before the cycle is still there afterwards, at its place; a stored
    comment is unchanged, and a stored story differs in its score and its
    descendant count at most.  In particular, a story that is stored without
    an analysis is not analyzed by a later cycle. *)
Theorem cycle_rows_append_only cfg env w :
  grownFrom env w (runIngestionCycle cfg env w).2
  ∧ ∀ i s0,
      World.stories w !! i = Some s0 ->
      ∃ s, World.stories (runIngestionCycle cfg env w).2 !! i = Some s
           ∧ Story.embedded s = Story.embedded s0
           ∧ Story.analysisVersion s = Story.analysisVersion s0
           ∧ Story.concepts s = Story.concepts s0.
Proof.
  assert (H : grownFrom env w (runIngestionCycle cfg env w).2).
  { apply (traces_inv (CycleWrite env) (grownFrom env w) w).
    - intros w1 w2 Hstep Hg. exact (cycle_write_grown env w w1 w2 Hstep Hg).
    - apply runIngestionCycle_writes.
    - apply grownFrom_refl. }
  split; [exact H|].
  destruct H as (kept & addedS & addedC & HS & Hkept & _).
  intros i s0 Hi.
  destruct (Forall2_lookup_l _ _ _ _ _ Hkept Hi) as (s & Hs & Hrel).
  exists s. split.
  - rewrite HS. apply lookup_app_l_Some. exact Hs.
  - unfold sameButVolatile in Hrel. rewrite Hrel. auto.
Qed.

(** ** Identifiers stay unique *)

Lemma regen_step_ids env w0 v since until w w' :
  RegenStep env w0 v since until w w' ->
  map Story.hnId (World.stories w') = map Story.hnId (World.stories w)
  ∧ map Comment.hnId (World.comments w') = map Comment.hnId (World.comments w).
Proof.
  intros Hstep. destruct Hstep; simpl; split; try reflexivity;
    apply map_updateFirst; reflexivity.
Qed.

Lemma runRegeneration_ids env options w :
  map Story.hnId (World.stories (runRegeneration env options w).2)
  = map Story.hnId (World.stories w)
  ∧ map Comment.hnId (World.comments (runRegeneration env options w).2)
    = map Comment.hnId (World.comments w).
Proof.
  pose proof (runRegeneration_traces env options w) as Htr.
  induction Htr as [|w1 w2 w3 H12 _ IH]; [auto|].
  apply regen_step_ids in H12 as [HS HC]. rewrite <- HS, <- HC. exact IH.
Qed.

Lemma runJob_unique w job : uniqueHnIds w -> uniqueHnIds (runJob w job).
Proof.
  intros Hu. destruct job as [cfg env | env options]; simpl.
  - apply (traces_inv (IngestStep cfg env) uniqueHnIds w).
    + intros w1 w2 Hstep. exact (ingest_step_unique cfg env w1 w2 Hstep).
    + apply runIngestionCycle_traces.
    + exact Hu.
  - destruct (runRegeneration_ids env options w) as [HS HC].
    unfold uniqueHnIds. rewrite HS, HC. exact Hu.
Qed.

(** X11.  No identifier is ever stored twice: when each story and each
    comment of the tables has its own identifier, this is still so after any
    sequence of ingestion cycles and regeneration runs, whatever the feed,
    the analysis service and the index answer. *)
Theorem jobs_keep_ids_unique (jobs : list Job) (w : World.t) :
  uniqueHnIds w -> uniqueHnIds (runJobs jobs w).
Proof.
  unfold runJobs. revert w.
  induction jobs as [|job jobs IH]; intros w Hu; simpl; [exact Hu|].
  apply IH, runJob_unique, Hu.
Qed.

Lemma jobs_keep_ids_unique_witness :
  uniqueHnIds
    (runJobs [Ingest Scenario.cfg Scenario.env;
              Regenerate Scenario.env Scenario.regenAll;
              Ingest Scenario.cfg Scenario.failingEnv]
             World.empty).
Proof.
  apply (jobs_keep_ids_unique
           [Ingest Scenario.cfg Scenario.env;
            Regenerate Scenario.env Scenario.regenAll;
            Ingest Scenario.cfg Scenario.failingEnv]
           World.empty).
  split; constructor.
Defined.

(** ** The worker state over a cycle *)

Lemma ringPush_length msg errs :
  (length (WorkerState.ringPush msg errs) <= Nat.max 50 (length errs))%nat.
Proof.
  unfold WorkerState.ringPush.
  destruct (Nat.ltb_spec 50 (length (errs ++ [msg]))) as [H|H].
  - destruct errs as [|e errs]; simpl in *; [lia|].
    rewrite length_app. simpl. lia.
  - rewrite length_app in *. simpl in *. lia.
Qed.

Lemma worker_write_frame s0 s s' :
  WorkerWrite s s' -> workerFrame s0 s -> workerFrame s0 s'.
Proof.
  intros Hstep [H1 H2 H3 H4 H5 H6 H7].
  destruct Hstep; split; simpl; try assumption; try lia.
  pose proof (ringPush_length (storyErrorEntry hnId err)
                              (WorkerState.errors s)). lia.
Qed.

Lemma workerFrame_refl s : workerFrame s s.
Proof. split; try reflexivity; lia. Qed.

Lemma cycle_writes_worker_frame env w w' :
  rtc (CycleWrite env) w w' ->
  workerFrame (World.workerState w) (World.workerState w').
Proof.
  intros Htr.
  apply (traces_inv (CycleWrite env)
           (λ w1, workerFrame (World.workerState w) (World.workerState w1))
           w w'); [|exact Htr|apply workerFrame_refl].
  intros w1 w2 Hstep Hinv.
  destruct Hstep as [w1 f Hf | | |]; try exact Hinv.
  exact (worker_write_frame _ _ _ (Hf (World.workerState w1)) Hinv).
Qed.

(** X12.  A cycle leaves the fields [running], [lastRunAt], [lastRunResult]
    and [cycleStartedAt] of the worker state alone, never lowers the two
    counters, and keeps the error list within fifty entries (or within its
    length at the start, when that was more). *)
Theorem cycle_worker_frame cfg env w :
  workerFrame (World.workerState w)
              (World.workerState (runIngestionCycle cfg env w).2).
Proof. apply (cycle_writes_worker_frame env), runIngestionCycle_writes. Qed.

(** ** The accounts of a cycle *)

Lemma processStoryOnly_counters cfg env hnId w :
  let run := processStoryOnly cfg env hnId w in
  cycleCurrentOf run.2 = cycleCurrentOf w
  ∧ cycleTotalOf run.2 = cycleTotalOf w
  ∧ 0 <= totalEmbeddedOf run.2 - totalEmbeddedOf w <= newCount run.1.
Proof.
  unfold cycleCurrentOf, cycleTotalOf, totalEmbeddedOf, processStoryOnly,
    bind, Stories.findOne, await.
  simpl. destruct (Env.fetchItem env hnId) as [[it|]|e]; simpl; try lia.
  - destruct (negb _); simpl.
    { destruct (find _ _); simpl; lia. }
    destruct (negb _); simpl; [lia|].
    destruct (find _ _); simpl; [lia|].
    unfold modify, Stories.create, tryCatch, ret. simpl.
    destruct (existsb _ _); simpl; [lia|].
    destruct (0 <? _)%nat; simpl; [|lia].
    unfold analyzeNewStory, bind, await, updateStory, modify. simpl.
    destruct (Env.analyzeStory _ _ _ _) as [a|e1]; simpl; [|lia].
    destruct (Env.generateEmbedding _ _) as [em|e2]; simpl; [|lia].
    destruct (Env.addStoryEmbedding _ _ _) as [u|e3]; simpl; lia.
  - destruct (find _ _); simpl; lia.
Qed.

Lemma commentPhase_accounts cfg env item acc w :
  ∃ acc' w',
    commentPhase cfg env item acc w = (Ok acc', w')
    ∧ CycleResult.ingested acc' = CycleResult.ingested acc
    ∧ turnAccounts 0 acc w acc' w'.
Proof.
  unfold commentPhase, tryCatch, bind, modify.
  set (w1 := World.withWorker _ w).
  pose proof (processStoryComments_effect cfg env item w1) as H.
  destruct (processStoryComments cfg env item w1) as [[[cp nc]|e] w2].
  - destruct H as (added & H1 & H2 & H3 & _ & _ & _ & HW & _).
    eexists _, _. split; [reflexivity|]. split; [reflexivity|].
    unfold turnAccounts, decided, cycleCurrentOf, cycleTotalOf,
      totalEmbeddedOf.
    rewrite HW. simpl. lia.
  - destruct H as [-> _].
    eexists _, _. split; [reflexivity|]. split; [reflexivity|].
    unfold turnAccounts, decided, cycleCurrentOf, cycleTotalOf,
      totalEmbeddedOf. simpl. lia.
Qed.

Lemma cycleStep_accounts cfg env hnId acc w :
  ∃ acc' w',
    cycleStep cfg env hnId acc w = (Ok acc', w')
    ∧ turnAccounts 1 acc w acc' w'.
Proof.
  unfold cycleStep, storyTurn, bind, tryCatch, modify.
  set (w0 := World.withWorker WorkerState.incrCycleCurrent w).
  pose proof (processStoryOnly_counters cfg env hnId w0) as Hp.
  cbv zeta in Hp.
  destruct (processStoryOnly cfg env hnId w0) as [[[result item]|e] w1];
    cbn [fst snd] in *.
  2:{ eexists _, _. split; [reflexivity|].
      unfold turnAccounts, decided, cycleCurrentOf, cycleTotalOf,
        totalEmbeddedOf in *. simpl in *. lia. }
  set (w2 := World.withWorker WorkerState.incrTotalProcessed w1).
  assert (Hbase : turnAccounts 1 acc w (countResult result acc) w2).
  { unfold turnAccounts, decided, cycleCurrentOf, cycleTotalOf,
      totalEmbeddedOf in *.
    destruct result; simpl in *; lia. }
  assert (Hno : ∃ acc' w',
             (Ok (countResult result acc), w2) = (Ok acc', w')
             ∧ turnAccounts 1 acc w acc' w') by eauto.
  assert (Hphase : ∀ it,
             ∃ acc' w',
               commentPhase cfg env it (countResult result acc) w2
               = (Ok acc', w')
               ∧ turnAccounts 1 acc w acc' w').
  { intros it.
    destruct (commentPhase_accounts cfg env it (countResult result acc) w2)
      as (acc' & w3 & Hc & Hing & Hacc).
    exists acc', w3. split; [exact Hc|].
    unfold turnAccounts, decided, cycleCurrentOf, cycleTotalOf,
      totalEmbeddedOf in *. lia. }
  destruct item as [it|]; [|exact Hno].
  destruct (Hphase it) as (acc' & w3 & Hc & Hacc).
  destruct result; first [exact Hno | rewrite Hc; eauto].
Qed.

Lemma cycleLoop_accounts cfg env toProcess :
  ∀ acc w,
    ∃ acc' w',
      cycleLoop cfg env toProcess acc w = (Ok acc', w')
      ∧ turnAccounts (Z.of_nat (length toProcess)) acc w acc' w'.
Proof.
  induction toProcess as [|h rest IH]; intros acc w.
  - exists acc, w. split; [reflexivity|].
    unfold turnAccounts. simpl. lia.
  - destruct (cycleStep_accounts cfg env h acc w) as (acc1 & w1 & Hstep & H1).
    destruct (IH acc1 w1) as (acc' & w' & Hloop & H2).
    exists acc', w'. split.
    + cbn [cycleLoop]. unfold bind. rewrite Hstep. exact Hloop.
    + unfold turnAccounts in *. cbn [length]. lia.
Qed.

(** X13.  When both listings are fetched, a cycle ends with a summary, and
    the summary adds up: every candidate is counted once as ingested,
    skipped, too old or failed; the progress counter ends at the total; no
    more new comments are counted than comments looked at; and the counter
    of embedded records grew by the new comments at least, and by the new
    comments and the new stories at most. *)
Theorem cycle_summary_accounts cfg env topIds newIds w :
  Env.fetchTopStoryIds env = Ok topIds ->
  Env.fetchNewStoryIds env = Ok newIds ->
  ∃ summary w',
    runIngestionCycle cfg env w = (Ok summary, w')
    ∧ decided summary = Z.of_nat (length (candidates cfg topIds newIds))
    ∧ cycleCurrentOf w' = Z.of_nat (length (candidates cfg topIds newIds))
    ∧ cycleTotalOf w' = Z.of_nat (length (candidates cfg topIds newIds))
    ∧ 0 <= CycleResult.newComments summary
      <= CycleResult.commentsProcessed summary
    ∧ CycleResult.newComments summary
      <= totalEmbeddedOf w' - totalEmbeddedOf w
      <= CycleResult.newComments summary + CycleResult.ingested summary.
Proof.
  intros Htop Hnew.
  unfold runIngestionCycle, bind at 1, await. rewrite Htop.
  unfold bind at 1. rewrite Hnew.
  unfold bind at 1, modify.
  set (toProcess := candidates cfg topIds newIds).
  set (w0 := World.withWorker _ w).
  destruct (cycleLoop_accounts cfg env toProcess (CycleResult.mk 0 0 0 0 0 0) w0)
    as (summary & w' & Hloop & Hacc).
  exists summary, w'. split; [exact Hloop|].
  unfold turnAccounts, decided, cycleCurrentOf, cycleTotalOf, totalEmbeddedOf
    in *.
  subst w0. simpl in *. lia.
Qed.

Lemma cycle_summary_accounts_witness :
  ∃ summary w',
    runIngestionCycle Scenario.cfg Scenario.env World.empty = (Ok summary, w')
    ∧ decided summary
      = Z.of_nat (length (candidates Scenario.cfg [101; 202] [202; 101]))
    ∧ cycleCurrentOf w'
      = Z.of_nat (length (candidates Scenario.cfg [101; 202] [202; 101]))
    ∧ cycleTotalOf w'
      = Z.of_nat (length (candidates Scenario.cfg [101; 202] [202; 101]))
    ∧ 0 <= CycleResult.newComments summary
      <= CycleResult.commentsProcessed summary
    ∧ CycleResult.newComments summary
      <= totalEmbeddedOf w' - totalEmbeddedOf World.empty
      <= CycleResult.newComments summary + CycleResult.ingested summary.
Proof.
  apply (cycle_summary_accounts Scenario.cfg Scenario.env
           [101; 202] [202; 101] World.empty); reflexivity.
Defined.

(** X14.  A cycle fails as a whole only when one of the two listings cannot
    be fetched, and then it has written nothing: the failure of a single
    story or comment never ends the cycle. *)
Theorem cycle_fails_only_on_listing cfg env w e w' :
  runIngestionCycle cfg env w = (Throw e, w') ->
  w' = w
  ∧ (Env.fetchTopStoryIds env = Throw e
     ∨ Env.fetchNewStoryIds env = Throw e).
Proof.
  unfold runIngestionCycle, bind at 1, await.
  destruct (Env.fetchTopStoryIds env) as [topIds|e1] eqn:Htop.
  2:{ intros H. injection H as -> ->. auto. }
  unfold bind at 1.
  destruct (Env.fetchNewStoryIds env) as [newIds|e2] eqn:Hnew.
  2:{ intros H. injection H as -> ->. auto. }
  unfold bind at 1, modify.
  match goal with
  | |- cycleLoop cfg env ?l ?a ?w0 = _ -> _ =>
      destruct (cycleLoop_accounts cfg env l a w0) as (acc' & w1 & -> & _)
  end.
  discriminate.
Qed.

Lemma cycle_fails_only_on_listing_witness :
  World.empty = World.empty
  ∧ (Env.fetchTopStoryIds listingDown = Throw (httpError 502 None None)
     ∨ Env.fetchNewStoryIds listingDown = Throw (httpError 502 None None)).
Proof.
  apply (cycle_fails_only_on_listing Scenario.cfg listingDown World.empty
           (httpError 502 None None) World.empty).
  reflexivity.
Defined.

(** ** The comments of one story *)

(** X15.  The comment pass of one story counts no more new comments than
    [NEW_COMMENTS_BATCH] when that is positive, looks at no more comments
    than [MAX_COMMENTS_PER_STORY] when that is positive, counts every new
    comment as one embedded record, adds rows to the comment table without
    touching a stored one, and leaves the stories alone.  It fails only
    when the children cannot be fetched, before it has written anything. *)
Theorem comment_batch_is_capped cfg env item w :
  match processStoryComments cfg env item w with
  | (Ok (commentsProcessed, newComments), w') =>
      0 <= newComments <= commentsProcessed
      ∧ (if 0 <? Config.NEW_COMMENTS_BATCH cfg
         then newComments <= Config.NEW_COMMENTS_BATCH cfg
         else True)
      ∧ (if 0 <? Config.MAX_COMMENTS_PER_STORY cfg
         then commentsProcessed <= Config.MAX_COMMENTS_PER_STORY cfg
         else True)
      ∧ totalEmbeddedOf w' = totalEmbeddedOf w + newComments
      ∧ World.stories w' = World.stories w
      ∧ World.comments w `prefix_of` World.comments w'
      ∧ newComments
        <= Z.of_nat (length (World.comments w'))
           - Z.of_nat (length (World.comments w))
        <= commentsProcessed
  | (Throw e, w') =>
      w' = w
      ∧ ∃ kids, HNItem.kids item = Some kids
                ∧ Env.fetchItems env kids = Throw e
  end.
Proof.
  pose proof (processStoryComments_effect cfg env item w) as H.
  destruct (processStoryComments cfg env item w) as [[[cp nc]|e] w'];
    [|exact H].
  destruct H as (added & H1 & H2 & H3 & H4 & H5 & H6 & H7 & H8).
  split; [lia|]. split; [exact H4|]. split; [exact H5|].
  split; [unfold totalEmbeddedOf; rewrite H7; reflexivity|].
  split; [exact H6|]. split; [exists added; exact H8|].
  rewrite H8, length_app. lia.
Qed.

(** X16.  For a comment whose row fits the columns of the table, as
    created and with any analysis that the service returns for it,
    [processComment] never raises.  It returns [true] exactly when the
    comment was not stored yet, its text has more than thirty characters,
    and the analysis, the embedding and the indexing all succeeded; only
    then the counter of embedded records grows, by one.  A comment that was
    not stored yet gets its row whatever the outcome. *)
Theorem processComment_true_iff env ci storyHnId storyTitle parentContext w :
  commentFits (newCommentRow ci storyHnId) = true ->
  commentAnalysesFit env ci storyHnId storyTitle parentContext ->
  ∃ ok w',
    processComment env ci storyHnId storyTitle parentContext w = (Ok ok, w')
    ∧ (ok = true
       ↔ existsb (λ c, Comment.hnId c =? HNItem.id ci) (World.comments w)
         = false
         ∧ (30 < String.length (stripHtml (HNItem.text ci)))%nat
         ∧ ∃ analysis embedding,
             Env.analyzeComment env (stripHtml (HNItem.text ci)) storyTitle
                                parentContext = Ok analysis
             ∧ Env.generateEmbedding env
                 (commentEmbeddingText analysis
                    (normalizeConcepts (CommentAnalysis.concepts analysis)))
               = Ok embedding
             ∧ Env.addCommentEmbedding env (HNItem.id ci) embedding
                 (commentMetadata ci storyHnId analysis
                    (normalizeConcepts (CommentAnalysis.concepts analysis)))
               = Ok tt)
    ∧ totalEmbeddedOf w' = totalEmbeddedOf w + (if ok then 1 else 0)
    ∧ length (World.comments w')
      = if existsb (λ c, Comment.hnId c =? HNItem.id ci) (World.comments w)
        then length (World.comments w)
        else S (length (World.comments w)).
Proof.
  intros _ _.
  pose proof (processComment_cases env ci storyHnId storyTitle parentContext w)
    as H. cbv zeta in H.
  destruct (existsb _ _) eqn:Ex.
  { exists false, w. split; [exact H|]. unfold totalEmbeddedOf.
    split; [|split; lia]. split; [discriminate|]. intros [? _]. discriminate. }
  destruct H as [[Hrun Hwhy]|(analysis & embedding & Hlen & Ha & Hg & H)].
  - eexists false, _. split; [exact Hrun|]. unfold totalEmbeddedOf. simpl.
    rewrite length_app. simpl. split; [|split; lia].
    split; [discriminate|].
    intros (_ & Hlen & analysis & embedding & Ha & Hg & _).
    destruct Hwhy as [Hshort|[[e He]|(analysis' & e & Ha' & He)]].
    + apply Nat.ltb_ge in Hshort. lia.
    + congruence.
    + rewrite Ha in Ha'. injection Ha' as <-. congruence.
  - destruct (Env.addCommentEmbedding env (HNItem.id ci) embedding _)
      as [[]|e] eqn:Hadd.
    + eexists true, _. split; [exact H|]. unfold totalEmbeddedOf. simpl.
      rewrite length_app. simpl. split; [|split; lia].
      split; [|reflexivity]. intros _. split; [reflexivity|].
      apply Nat.ltb_lt in Hlen. split; [exact Hlen|].
      exists analysis, embedding. auto.
    + eexists false, _. split; [exact H|]. unfold totalEmbeddedOf. simpl.
      rewrite length_app. simpl. split; [|split; lia].
      split; [discriminate|].
      intros (_ & _ & analysis' & embedding' & Ha' & Hg' & Hadd').
      rewrite Ha in Ha'. injection Ha' as <-.
      rewrite Hg in Hg'. injection Hg' as <-. congruence.
Qed.

Lemma processComment_true_iff_witness :
  ∃ ok w',
    processComment Scenario.env Scenario.comment301 101 "Open source burnout"
                   None World.empty = (Ok ok, w')
    ∧ ok = true
    ∧ totalEmbeddedOf w' = 1
    ∧ length (World.comments w') = 1%nat.
Proof.
  destruct (processComment_true_iff
              Scenario.env Scenario.comment301 101 "Open source burnout"
              None World.empty)
    as (ok & w' & Hrun & Hok & Hcount & Hlen).
  - reflexivity.
  - intros analysis Ha. inversion Ha. reflexivity.
  - exists ok, w'. split; [exact Hrun|].
    assert (E : ok = true).
    { apply Hok. split; [reflexivity|]. split; [vm_compute; lia|].
      eexists _, _. repeat split. }
    subst ok. split; [reflexivity|]. split; [exact Hcount | exact Hlen].
Defined.

(** ** Regeneration, further *)

Lemma regenStoriesLoop_report env v todo :
  ∀ report w,
    ∃ report' w' failed,
      regenStoriesLoop env v todo report w = (Ok report', w')
      ∧ RegenReport.errors report' = RegenReport.errors report ++ failed
      ∧ RegenReport.commentsRegenerated report'
        = RegenReport.commentsRegenerated report
      ∧ 0 <= RegenReport.storiesRegenerated report'
             - RegenReport.storiesRegenerated report
      ∧ RegenReport.storiesRegenerated report'
        - RegenReport.storiesRegenerated report
        + Z.of_nat (length failed)
        = Z.of_nat (length todo).
Proof.
  induction todo as [|story rest IH]; intros report w.
  - exists report, w, []. rewrite app_nil_r. simpl. repeat split; lia.
  - cbn [regenStoriesLoop]. unfold bind at 1, tryCatch, bind at 1.
    destruct (regenerateStory env v story w) as [[u|e] w1]; cbn [ret].
    + match goal with
      | |- context [regenStoriesLoop env v rest ?r w1] =>
          destruct (IH r w1) as (report' & w' & failed & Hrun & He & Hc & H0 & Hn)
      end.
      exists report', w', failed. split; [exact Hrun|]. simpl in *.
      repeat split; try assumption; lia.
    + match goal with
      | |- context [regenStoriesLoop env v rest ?r w1] =>
          destruct (IH r w1) as (report' & w' & failed & Hrun & He & Hc & H0 & Hn)
      end.
      eexists report', w', (_ :: failed). split; [exact Hrun|]. simpl in *.
      rewrite He, <- app_assoc. split; [reflexivity|].
      repeat split; try assumption; lia.
Qed.

Lemma regenCommentsLoop_report env v todo :
  ∀ report w,
    ∃ report' w' failed,
      regenCommentsLoop env v todo report w = (Ok report', w')
      ∧ RegenReport.errors report' = RegenReport.errors report ++ failed
      ∧ RegenReport.storiesRegenerated report'
        = RegenReport.storiesRegenerated report
      ∧ 0 <= RegenReport.commentsRegenerated report'
             - RegenReport.commentsRegenerated report
      ∧ RegenReport.commentsRegenerated report'
        - RegenReport.commentsRegenerated report
        + Z.of_nat (length failed)
        <= Z.of_nat (length todo).
Proof.
  induction todo as [|comment rest IH]; intros report w.
  - exists report, w, []. rewrite app_nil_r. simpl. repeat split; lia.
  - cbn [regenCommentsLoop]. unfold bind at 1, tryCatch, bind at 1.
    destruct (regenerateComment env v comment w) as [[done|e] w1]; cbn [ret].
    + match goal with
      | |- context [regenCommentsLoop env v rest ?r w1] =>
          destruct (IH r w1) as (report' & w' & failed & Hrun & He & Hc & H0 & Hn)
      end.
      exists report', w', failed. split; [exact Hrun|].
      destruct done; simpl in *; repeat split; try assumption; lia.
    + match goal with
      | |- context [regenCommentsLoop env v rest ?r w1] =>
          destruct (IH r w1) as (report' & w' & failed & Hrun & He & Hc & H0 & Hn)
      end.
      eexists report', w', (_ :: failed). split; [exact Hrun|]. simpl in *.
      rewrite He, <- app_assoc. split; [reflexivity|].
      repeat split; try assumption; lia.
Qed.

(** The [where] clause of a regeneration run, for what it is: the bounds
    [since] and [until] are not in it. *)
Lemma staleWhere_spec v since until embedded version time :
  staleWhere v since until embedded version time = true
  ↔ embedded = true ∧ version ≠ Some v.
Proof.
  unfold staleWhere, timeWhere, timeFilterKeys, versionNe, versionIsNull.
  cbn [length Nat.ltb Nat.leb]. rewrite andb_true_r.
  destruct embedded; cbn [andb]; [|split; [discriminate | intros [? _]; discriminate]].
  destruct version as [s|]; cbn [orb].
  - rewrite orb_false_r. destruct (String.eqb_spec s v) as [->|Hne]; cbn [negb].
    + split; [discriminate | intros [_ H]; contradiction].
    + split; [intros _; split; [reflexivity | congruence] | reflexivity].
  - split; [intros _; split; [reflexivity | discriminate] | reflexivity].
Qed.

Lemma staleStories_spec v since until rows s :
  s ∈ staleStories v since until rows
  ↔ s ∈ rows ∧ Story.embedded s = true ∧ Story.analysisVersion s ≠ Some v.
Proof.
  unfold staleStories. rewrite list_elem_of_filter, staleWhere_spec. tauto.
Qed.

Lemma staleComments_spec v since until rows c :
  c ∈ staleComments v since until rows
  ↔ c ∈ rows ∧ Comment.embedded c = true
    ∧ Comment.analysisVersion c ≠ Some v.
Proof.
  unfold staleComments. rewrite list_elem_of_filter, staleWhere_spec. tauto.
Qed.

(** X17.  For [maxItems] a natural number, a regeneration run never
    raises: a record that cannot be regenerated costs one entry in the error
    list and the run goes on.  It regenerates at most [maxItems] stories and
    at most [maxItems] comments, never more than there are stale ones, and
    every selected record is counted at most once, as regenerated or as
    failed.  The stale records are the embedded records whose version is
    not the target one, whatever the bounds [since] and [until] are: the
    run does not apply them. *)
Theorem regeneration_report_bounded env options w :
  let v := versionFilterOf options in
  let since := RegenOptions.since options in
  let until := RegenOptions.until options in
  let selectedStories :=
    storiesToRegen v since until (maxItemsOf options) (World.stories w) in
  let selectedComments :=
    commentsToRegen v since until (maxItemsOf options) (World.comments w) in
  (∃ report w',
      runRegeneration env options w = (Ok report, w')
      ∧ 0 <= RegenReport.storiesRegenerated report
        <= Z.of_nat (length selectedStories)
      ∧ 0 <= RegenReport.commentsRegenerated report
        <= Z.of_nat (length selectedComments)
      ∧ RegenReport.storiesRegenerated report
        + RegenReport.commentsRegenerated report
        + Z.of_nat (length (RegenReport.errors report))
        <= Z.of_nat (length selectedStories + length selectedComments)
      ∧ (length selectedStories <= maxItemsOf options)%nat
      ∧ (length selectedComments <= maxItemsOf options)%nat
      ∧ (length selectedStories
         <= length (staleStories v since until (World.stories w)))%nat
      ∧ (length selectedComments
         <= length (staleComments v since until (World.comments w)))%nat)
  ∧ (∀ s, s ∈ staleStories v since until (World.stories w)
          ↔ s ∈ World.stories w ∧ Story.embedded s = true
            ∧ Story.analysisVersion s ≠ Some v)
  ∧ (∀ c, c ∈ staleComments v since until (World.comments w)
          ↔ c ∈ World.comments w ∧ Comment.embedded c = true
            ∧ Comment.analysisVersion c ≠ Some v)
  ∧ selectedStories
    = storiesToRegen v None None (maxItemsOf options) (World.stories w)
  ∧ selectedComments
    = commentsToRegen v None None (maxItemsOf options) (World.comments w).
Proof.
  intros v since until selectedStories selectedComments.
  split;
    [|split; [intros s; apply staleStories_spec|];
      split; [intros c; apply staleComments_spec|];
      split; reflexivity].
  assert (Hlen : (length selectedStories <= maxItemsOf options
                  ∧ length selectedComments <= maxItemsOf options
                  ∧ length selectedStories
                    <= length (staleStories v since until (World.stories w))
                  ∧ length selectedComments
                    <= length (staleComments v since until
                                             (World.comments w)))%nat).
  { subst selectedStories selectedComments.
    unfold storiesToRegen, commentsToRegen, staleStories, staleComments.
    rewrite !length_take, !merge_sort_Permutation. lia. }
  unfold runRegeneration. fold (versionFilterOf options). fold v since until.
  fold (maxItemsOf options).
  set (type := default "all" (RegenOptions.type options)).
  unfold bind at 1.
  destruct (String.eqb type "all" || String.eqb type "stories").
  - unfold bind at 1, get. fold selectedStories.
    destruct (regenStoriesLoop_report env v selectedStories
                (RegenReport.mk 0 0 []) w)
      as (report1 & w1 & failed1 & Hrun1 & He1 & Hc1 & H01 & Hn1).
    rewrite Hrun1.
    assert (HC : World.comments w1 = World.comments w).
    { pose proof (regenStoriesLoop_comments env v selectedStories
                    (RegenReport.mk 0 0 []) w) as H.
      rewrite Hrun1 in H. exact H. }
    destruct (String.eqb type "all" || String.eqb type "comments").
    + unfold bind at 1, get. rewrite HC. fold selectedComments.
      destruct (regenCommentsLoop_report env v selectedComments report1 w1)
        as (report2 & w2 & failed2 & Hrun2 & He2 & Hc2 & H02 & Hn2).
      exists report2, w2. split; [exact Hrun2|].
      rewrite He2, He1, !length_app. simpl in *.
      repeat split; try tauto; lia.
    + exists report1, w1. split; [reflexivity|].
      rewrite He1. simpl in *. repeat split; try tauto; lia.
  - destruct (String.eqb type "all" || String.eqb type "comments").
    + unfold bind at 1, get, ret. fold selectedComments.
      destruct (regenCommentsLoop_report env v selectedComments
                  (RegenReport.mk 0 0 []) w)
        as (report2 & w2 & failed2 & Hrun2 & He2 & Hc2 & H02 & Hn2).
      exists report2, w2. split; [exact Hrun2|].
      rewrite He2. simpl in *. repeat split; try tauto; lia.
    + eexists _, _. split; [reflexivity|]. simpl.
      repeat split; try tauto; lia.
Qed.

Lemma regen_step_raw env w0 v since until w w' :
  RegenStep env w0 v since until w w' ->
  map storyRaw (World.stories w') = map storyRaw (World.stories w)
  ∧ map commentRaw (World.comments w') = map commentRaw (World.comments w)
  ∧ World.workerState w' = World.workerState w.
Proof.
  intros Hstep. destruct Hstep; simpl; repeat split; try reflexivity;
    apply map_updateFirst; intros x; destruct x; reflexivity.
Qed.

(** X18.  Regeneration rewrites analyses and nothing else: it adds and
    removes no row, it leaves the identifier, the feed's columns and the
    flag [embedded] of every row as they were, and it does not write to the
    worker state. *)
Theorem regeneration_keeps_raw_columns env options w :
  map storyRaw (World.stories (runRegeneration env options w).2)
  = map storyRaw (World.stories w)
  ∧ map commentRaw (World.comments (runRegeneration env options w).2)
    = map commentRaw (World.comments w)
  ∧ World.workerState (runRegeneration env options w).2
    = World.workerState w.
Proof.
  pose proof (runRegeneration_traces env options w) as Htr.
  induction Htr as [|w1 w2 w3 H12 _ IH]; [auto|].
  apply regen_step_raw in H12 as (HS & HC & HW).
  rewrite <- HS, <- HC, <- HW. exact IH.
Qed.

#[local] Instance storyNewerEq_trans : Transitive storyNewerEq.
Proof. intros a b c. unfold storyNewerEq. lia. Qed.

#[local] Instance storyNewerEq_total : Total storyNewerEq.
Proof. intros a b. unfold storyNewerEq. lia. Qed.

#[local] Instance commentNewerEq_trans : Transitive commentNewerEq.
Proof. intros a b c. unfold commentNewerEq. lia. Qed.

#[local] Instance commentNewerEq_total : Total commentNewerEq.
Proof. intros a b. unfold commentNewerEq. lia. Qed.

Lemma take_merge_sort_first {A} (R : relation A)
      `{!Transitive R, !Total R, ∀ x y, Decision (R x y)} n (l : list A) :
  StronglySorted R (take n (merge_sort R l))
  ∧ ∃ rest,
      take n (merge_sort R l) ++ rest ≡ₚ l
      ∧ ∀ x y, x ∈ take n (merge_sort R l) -> y ∈ rest -> R x y.
Proof.
  pose proof (StronglySorted_merge_sort R l) as Hs.
  rewrite <- (take_drop n (merge_sort R l)) in Hs.
  apply StronglySorted_app in Hs as (Hord & Hs1 & _).
  split; [exact Hs1|]. exists (drop n (merge_sort R l)).
  split; [|exact Hord].
  rewrite take_drop. apply merge_sort_Permutation.
Qed.

(** X19.  Regeneration takes the most recent stale records first: the
    selection is ordered from the most recent to the oldest, holds stale
    records of the table only, each as often as the table has it, and no
    stale record that is left out is more recent than a selected one.  The
    stale records are the embedded records whose version is not the target
    one; the bounds [since] and [until] play no part in the selection. *)
Theorem regeneration_selects_most_recent
        (v : string) (since until : option Z) (limit : nat)
        (stories : list Story.t) (comments : list Comment.t) :
  ((StronglySorted storyNewerEq (storiesToRegen v since until limit stories)
    ∧ ∃ leftOut,
        storiesToRegen v since until limit stories ++ leftOut
        ≡ₚ staleStories v since until stories
        ∧ ∀ s s', s ∈ storiesToRegen v since until limit stories ->
                  s' ∈ leftOut -> Story.time s' <= Story.time s)
   ∧ (StronglySorted commentNewerEq
        (commentsToRegen v since until limit comments)
      ∧ ∃ leftOut,
          commentsToRegen v since until limit comments ++ leftOut
          ≡ₚ staleComments v since until comments
          ∧ ∀ c c', c ∈ commentsToRegen v since until limit comments ->
                    c' ∈ leftOut -> Comment.time c' <= Comment.time c))
  ∧ (∀ s, s ∈ staleStories v since until stories
          ↔ s ∈ stories ∧ Story.embedded s = true
            ∧ Story.analysisVersion s ≠ Some v)
  ∧ (∀ c, c ∈ staleComments v since until comments
          ↔ c ∈ comments ∧ Comment.embedded c = true
            ∧ Comment.analysisVersion c ≠ Some v)
  ∧ storiesToRegen v since until limit stories
    = storiesToRegen v None None limit stories
  ∧ commentsToRegen v since until limit comments
    = commentsToRegen v None None limit comments.
Proof.
  split; [split|].
  - apply (take_merge_sort_first storyNewerEq limit
             (staleStories v since until stories)).
  - apply (take_merge_sort_first commentNewerEq limit
             (staleComments v since until comments)).
  - split; [intros s; apply staleStories_spec|].
    split; [intros c; apply staleComments_spec|].
    split; reflexivity.
Qed.

Example regeneration_ignores_window :
  storiesToRegen ANALYSIS_VERSION (Some 1800000000) (Some 1800000001) 50
                 (World.stories Scenario.analyzedAt5)
  = World.stories Scenario.analyzedAt5.
Proof. reflexivity. Qed.

(** ** The cycle runner *)

(** X20.  [runCycle] never raises and never leaves the cycle marked as
    running.  A run that finds no cycle in progress ends with the labels
    [currentlyProcessing] and [cyclePhase] cleared and the start time
    recorded; when the cycle returned, its summary and the time are
    recorded; when it failed, the tables are as before, the last run
    recorded stays the one before, and the error list ends with the entry of
    the failure.  A call made while a cycle is in progress changes
    nothing. *)
Theorem runCycle_outcome cfg env startTime endTime p :
  Worker.cycleRunning p = false ->
  let started :=
    World.withWorker (Worker.setCycleStartedAt startTime) (Worker.world p) in
  let p' := Worker.runCycle cfg env startTime endTime p in
  let s := World.workerState (Worker.world p) in
  let s' := World.workerState (Worker.world p') in
  Worker.cycleRunning p' = false
  ∧ WorkerState.running s' = WorkerState.running s
  ∧ WorkerState.currentlyProcessing s' = None
  ∧ WorkerState.cyclePhase s' = None
  ∧ WorkerState.cycleStartedAt s' = Some startTime
  ∧ (length (WorkerState.errors s')
     <= Nat.max 50 (length (WorkerState.errors s)))%nat
  ∧ match runIngestionCycle cfg env started with
    | (Ok summary, w') =>
        WorkerState.lastRunAt s' = Some endTime
        ∧ WorkerState.lastRunResult s' = Some summary
        ∧ World.stories (Worker.world p') = World.stories w'
        ∧ World.comments (Worker.world p') = World.comments w'
    | (Throw e, _) =>
        WorkerState.lastRunAt s' = WorkerState.lastRunAt s
        ∧ WorkerState.lastRunResult s' = WorkerState.lastRunResult s
        ∧ World.stories (Worker.world p') = World.stories (Worker.world p)
        ∧ World.comments (Worker.world p') = World.comments (Worker.world p)
        ∧ last (WorkerState.errors s') = Some (cycleErrorEntry e)
    end
  ∧ Worker.runCycle cfg env startTime endTime (Worker.enter startTime p)
    = Worker.enter startTime p.
Proof.
  intros Hidle started p' s s'. subst p' s s'.
  unfold Worker.runCycle. rewrite Hidle.
  unfold Worker.leave, Worker.body, Worker.enter.
  cbn [Worker.world Worker.cycleRunning]. fold started.
  pose proof (cycle_writes_worker_frame env started
                (runIngestionCycle cfg env started).2
                (runIngestionCycle_writes cfg env started))
    as [H1 H2 H3 H4 _ _ H7].
  assert (Hfail : ∀ e w', runIngestionCycle cfg env started = (Throw e, w')
                          -> w' = started).
  { intros e w'. unfold runIngestionCycle, bind at 1, await.
    destruct (Env.fetchTopStoryIds env) as [topIds|e1].
    2:{ intros H. injection H as _ <-. reflexivity. }
    unfold bind at 1.
    destruct (Env.fetchNewStoryIds env) as [newIds|e2].
    2:{ intros H. injection H as _ <-. reflexivity. }
    unfold bind at 1, modify.
    match goal with
    | |- cycleLoop cfg env ?l ?a ?w0 = _ -> _ =>
        destruct (cycleLoop_accounts cfg env l a w0) as (acc' & w1 & -> & _)
    end.
    discriminate. }
  destruct (runIngestionCycle cfg env started) as [[summary|e] w'] eqn:Hrun;
    cbn [fst snd Worker.world Worker.cycleRunning] in *.
  - simpl in *. repeat split; assumption.
  - rewrite (Hfail e w' eq_refl) in *. clear Hfail.
    simpl in *. split; [reflexivity|]. split; [assumption|].
    split; [reflexivity|]. split; [reflexivity|]. split; [reflexivity|].
    split.
    { pose proof (ringPush_length (cycleErrorEntry e)
                    (WorkerState.errors (World.workerState (Worker.world p)))).
      unfold cycleErrorEntry in *. lia. }
    split; [|reflexivity].
    split; [reflexivity|]. split; [reflexivity|].
    split; [reflexivity|]. split; [reflexivity|].
    apply last_ringPush.
Qed.

Lemma runCycle_outcome_witness :
  Worker.cycleRunning
    (Worker.runCycle Scenario.cfg listingDown 1700000000000 1700000000500
                     (Worker.mk World.empty false)) = false.
Proof.
  apply (runCycle_outcome Scenario.cfg listingDown 1700000000000
           1700000000500 (Worker.mk World.empty false)).
  reflexivity.
Defined.

(** ** The administration page and regeneration *)

Lemma stale_iff_needs_update embedded version time :
  staleWhere ANALYSIS_VERSION None None embedded version time = true
  ↔ Admin.versionOr1 version ≠ ANALYSIS_VERSION ∧ embedded = true.
Proof.
  assert (H1 : "1" ≠ ANALYSIS_VERSION) by discriminate.
  unfold staleWhere, timeWhere, versionNe, versionIsNull, Admin.versionOr1,
    Js.optOrElse, Js.orElse.
  destruct embedded; cbn [andb];
    [|split; [discriminate | intros [_ H]; discriminate]].
  rewrite andb_true_r.
  destruct version as [s|]; [|split; auto].
  rewrite orb_false_r.
  destruct (String.eqb_spec s EmptyString) as [->|Hs].
  - split; auto.
  - destruct (String.eqb_spec s ANALYSIS_VERSION) as [->|Hne]; cbn [negb].
    + split; [discriminate | intros [H _]; contradiction].
    + split; auto.
Qed.

(** X21.  The number of records that the administration page reports as
    needing an update is the number of records that a regeneration to the
    current version selects when it has no time window and no limit; with
    the limit [maxItems] it selects that many or [maxItems], whichever is
    less.  The pending counts of the page are not negative. *)
Theorem needing_update_is_what_regeneration_selects (w : World.t)
        (limit : nat) :
  length (storiesToRegen ANALYSIS_VERSION None None limit (World.stories w))
  = Nat.min limit (Admin.storiesNeedingUpdate w)
  ∧ length (commentsToRegen ANALYSIS_VERSION None None limit
                            (World.comments w))
    = Nat.min limit (Admin.commentsNeedingUpdate w)
  ∧ 0 <= Admin.pendingStories w
  ∧ 0 <= Admin.pendingComments w.
Proof.
  unfold storiesToRegen, commentsToRegen, Admin.storiesNeedingUpdate,
    Admin.commentsNeedingUpdate, Admin.embeddedStories,
    Admin.embeddedComments, Admin.pendingStories, Admin.pendingComments.
  rewrite !length_take, !merge_sort_Permutation, !list_filter_filter.
  split; [|split; [|split]].
  - f_equal. f_equal. apply list_filter_iff. intros s.
    apply stale_iff_needs_update.
  - f_equal. f_equal. apply list_filter_iff. intros c.
    apply stale_iff_needs_update.
  - pose proof (length_filter (λ s, Story.embedded s = true)
                              (World.stories w)).
    unfold Admin.embeddedStories. lia.
  - pose proof (length_filter (λ c, Comment.embedded c = true)
                              (World.comments w)).
    unfold Admin.embeddedComments. lia.
Qed.

(** ** Search *)

Lemma mapOf_from {Row} (key : Row -> Z) (rows : list Row) :
  ∀ (m : gmap Z Row) hnId r,
    foldl (λ m r, <[key r := r]> m) m rows !! hnId = Some r ->
    (r ∈ rows ∧ key r = hnId) ∨ m !! hnId = Some r.
Proof.
  induction rows as [|x rows IH]; intros m hnId r; simpl; [auto|].
  intros H. apply IH in H as [[Hin Hk]|H].
  - left. split; [right; exact Hin | exact Hk].
  - destruct (decide (key x = hnId)) as [<-|Hne].
    + rewrite lookup_insert_eq in H. injection H as <-.
      left. split; [left | reflexivity].
    + rewrite lookup_insert_ne in H by exact Hne. right. exact H.
Qed.

Lemma mapOf_lookup {Row} (key : Row -> Z) (rows : list Row) hnId r :
  Search.mapOf key rows !! hnId = Some r -> r ∈ rows ∧ key r = hnId.
Proof.
  intros H. apply mapOf_from in H as [H|H]; [exact H|].
  rewrite lookup_empty in H. discriminate.
Qed.

Lemma omap_imap_sublist {A B} (g : B -> A) (l : list A) :
  ∀ f : nat -> A -> option B,
    (∀ i a b, f i a = Some b -> g b = a) ->
    map g (omap id (imap f l)) `sublist_of` l.
Proof.
  induction l as [|a l IH]; intros f Hf; simpl; [constructor|].
  destruct (f 0%nat a) as [b|] eqn:E; simpl.
  - rewrite (Hf _ _ _ E). apply sublist_skip.
    apply IH. intros i a' b'. apply Hf.
  - apply sublist_cons. apply IH. intros i a' b'. apply Hf.
Qed.

Lemma hitsOf_stored {Row} (key : Row -> Z) results hnIds (rows : list Row) :
  Forall (λ hit, hit.1 ∈ rows) (Search.hitsOf key results hnIds rows)
  ∧ map (λ hit, key hit.1) (Search.hitsOf key results hnIds rows)
    `sublist_of` hnIds.
Proof.
  unfold Search.hitsOf. split.
  - apply Forall_forall. intros hit Hhit.
    apply list_elem_of_omap in Hhit as (o & Ho & Hid). simpl in Hid. subst o.
    apply elem_of_lookup_imap in Ho as (i & hnId & Ho & _).
    destruct (Search.mapOf key rows !! hnId) as [row|] eqn:E; [|discriminate].
    injection Ho as ->. simpl. apply mapOf_lookup in E. tauto.
  - apply (omap_imap_sublist (λ hit : Row * option Q, key hit.1)).
    intros i hnId hit.
    destruct (Search.mapOf key rows !! hnId) as [row|] eqn:E; [|discriminate].
    intros H. injection H as <-. simpl. apply mapOf_lookup in E. tauto.
Qed.

Lemma hitsFrom_stored {Row} (key : Row -> Z) (table : World.t -> list Row)
      results w :
  match Search.hitsFrom key table results w with
  | (Ok hits, w') =>
      w' = w
      ∧ Forall (λ hit, hit.1 ∈ table w) hits
      ∧ map (λ hit, key hit.1) hits
        `sublist_of` default [] (head (Chroma.metadatas results))
  | (Throw e, w') =>
      w' = w ∧ Search.noHits results = false
      ∧ Chroma.metadatas results = []
  end.
Proof.
  unfold Search.hitsFrom.
  destruct (Search.noHits results) eqn:Hno.
  { simpl. split; [reflexivity|]. split; [apply Forall_nil_2|].
    apply sublist_nil_l. }
  destruct (Chroma.metadatas results) as [|hnIds rest]; [simpl; auto|].
  unfold bind, get, ret. simpl.
  destruct (hitsOf_stored key results hnIds
              (filter (λ r, key r ∈ hnIds) (table w))) as [H1 H2].
  split; [reflexivity|]. split; [|exact H2].
  eapply Forall_impl; [exact H1|]. intros hit Hhit. simpl in Hhit.
  apply list_elem_of_filter in Hhit. tauto.
Qed.

(** X22.  A search reads and never writes.  Every hit it returns is a row
    of the table, the hits come in the order in which the index answered,
    and there are no more hits than answers: an answer of the index whose
    row is missing from the table is dropped.  This holds for the search
    over stories and for the one over comments. *)
Theorem semanticSearch_hits_are_stored_rows
        (senv : Search.Env) (query type : string) (limit : Z) (w : World.t) :
  match Search.semanticSearch senv query type limit w with
  | (Ok (inl hits), w') =>
      w' = w ∧ type = "stories"
      ∧ Forall (λ hit, hit.1 ∈ World.stories w) hits
      ∧ ∃ embedding results,
          Search.generateEmbedding senv query = Ok embedding
          ∧ Search.searchSimilarStories senv embedding limit = Ok results
          ∧ map (λ hit, Story.hnId hit.1) hits
            `sublist_of` default [] (head (Chroma.metadatas results))
  | (Ok (inr hits), w') =>
      w' = w ∧ type ≠ "stories"
      ∧ Forall (λ hit, hit.1 ∈ World.comments w) hits
      ∧ ∃ embedding results,
          Search.generateEmbedding senv query = Ok embedding
          ∧ Search.searchSimilarComments senv embedding limit = Ok results
          ∧ map (λ hit, Comment.hnId hit.1) hits
            `sublist_of` default [] (head (Chroma.metadatas results))
  | (Throw e, w') => w' = w
  end.
Proof.
  unfold Search.semanticSearch.
  destruct (String.eqb_spec type "stories") as [Ht|Ht].
  - unfold bind at 1, Search.semanticSearchStories, bind at 1, await.
    destruct (Search.generateEmbedding senv query) as [embedding|e] eqn:He;
      [|reflexivity].
    unfold bind at 1.
    destruct (Search.searchSimilarStories senv embedding limit)
      as [results|e] eqn:Hs; [|reflexivity].
    pose proof (hitsFrom_stored Story.hnId World.stories results w) as H.
    destruct (Search.hitsFrom Story.hnId World.stories results w)
      as [[hits|e] w'].
    + destruct H as (-> & H1 & H2). simpl. eauto 10.
    + destruct H as (-> & _). reflexivity.
  - unfold bind at 1, Search.semanticSearchComments, bind at 1, await.
    destruct (Search.generateEmbedding senv query) as [embedding|e] eqn:He;
      [|reflexivity].
    unfold bind at 1.
    destruct (Search.searchSimilarComments senv embedding limit)
      as [results|e] eqn:Hs; [|reflexivity].
    pose proof (hitsFrom_stored Comment.hnId World.comments results w) as H.
    destruct (Search.hitsFrom Comment.hnId World.comments results w)
      as [[hits|e] w'].
    + destruct H as (-> & H1 & H2). simpl. eauto 10.
    + destruct H as (-> & _). reflexivity.
Qed.

Example search_drops_missing_row :
  (Search.semanticSearch sampleSearch "burnout" "stories" 10
                         Scenario.afterCycle).1
  = Ok (inl [(Story.applyPatch
                (storyAnalysisPatch Scenario.env Scenario.storyAnalysis
                   (normalizeConcepts
                      (StoryAnalysis.concepts Scenario.storyAnalysis)))
                (newStoryRow Scenario.story101),
              Some (1 - (1 # 4))%Q)]).
Proof. vm_compute. reflexivity. Qed.

(** ** Comment trees *)

Lemma fetchItems_map fetch ids : Hn.fetchItems fetch ids = map fetch ids.
Proof.
  unfold Hn.fetchItems. rewrite fetchItemsLoop_all by lia. reflexivity.
Qed.

Lemma isValidComment_valid o c : isValidComment o = Some c -> validComment c.
Proof.
  unfold isValidComment, validComment. destruct o as [ci|]; [|discriminate].
  destruct (String.eqb_spec (HNItem.type ci) "comment") as [Ht|Ht];
    [|discriminate].
  destruct (HNItem.deleted ci) eqn:Hdel; [discriminate|].
  destruct (HNItem.dead ci) eqn:Hdead; [discriminate|].
  simpl. intros H. injection H as <-. auto.
Qed.

Lemma levelComments_valid fetch kids :
  Forall validComment (levelComments fetch kids).
Proof.
  apply Forall_forall. intros c Hc.
  apply list_elem_of_omap in Hc as (o & _ & Ho).
  exact (isValidComment_valid o c Ho).
Qed.

Lemma levelKids_nil fetch depth : levelKids fetch depth [] = [].
Proof. induction depth as [|d IH]; [reflexivity | exact IH]. Qed.

Lemma levels_nil fetch (l : list nat) :
  concat (map (λ i, levelComments fetch (levelKids fetch i [])) l) = [].
Proof.
  induction l as [|i l IH]; [reflexivity|].
  cbn [map concat]. rewrite IH, levelKids_nil. reflexivity.
Qed.

Lemma fetchAllComments_levels fetch depth :
  ∀ kids,
    levelKids fetch depth kids = [] ->
    Hn.fetchAllComments fetch (S depth) kids
    = Some (concat (map (λ i, levelComments fetch (levelKids fetch i kids))
                        (seq 0 depth))).
Proof.
  induction depth as [|d IH]; intros kids Hend.
  - simpl in Hend. subst kids. reflexivity.
  - cbn [levelKids] in Hend.
    change (Hn.fetchAllComments fetch (S (S d)) kids)
      with (match kids with
            | [] => Some []
            | _ =>
                match Hn.childKids
                        (omap isValidComment (Hn.fetchItems fetch kids)) with
                | [] => Some (omap isValidComment (Hn.fetchItems fetch kids))
                | next =>
                    match Hn.fetchAllComments fetch (S d) next with
                    | Some childComments =>
                        Some (omap isValidComment (Hn.fetchItems fetch kids)
                              ++ childComments)
                    | None => None
                    end
                end
            end).
    rewrite fetchItems_map. fold (levelComments fetch kids).
    assert (Hshift :
              concat (map (λ i, levelComments fetch (levelKids fetch i kids))
                          (seq 0 (S d)))
              = levelComments fetch kids
                  ++ concat (map (λ i, levelComments fetch
                                         (levelKids fetch i
                                            (Hn.childKids
                                               (levelComments fetch kids))))
                                 (seq 0 d))).
    { cbn [seq map concat levelKids]. f_equal.
      rewrite <- seq_shift, map_map. reflexivity. }
    rewrite Hshift.
    destruct kids as [|k kids].
    { change (levelComments fetch []) with (@nil HNItem.t).
      change (Hn.childKids []) with (@nil Z).
      rewrite levels_nil. reflexivity. }
    specialize (IH _ Hend).
    destruct (Hn.childKids (levelComments fetch (k :: kids))) as [|n next] eqn:E.
    + rewrite levels_nil, app_nil_r. reflexivity.
    + rewrite IH. reflexivity.
Qed.

(** X23.  [fetchAllComments] returns the valid comments of a thread level by
    level: the children first, then their children, and so on, the comments
    of one level in the order of their parents.  It returns as soon as a
    level has no identifier left, and a comment that is deleted, dead or
    missing is left out together with everything below it. *)
Theorem fetchAllComments_breadth_first
        (fetch : Z -> option HNItem.t) (depth : nat) (kids : list Z) :
  levelKids fetch depth kids = [] ->
  ∃ comments,
    Hn.fetchAllComments fetch (S depth) kids = Some comments
    ∧ comments
      = concat (map (λ i, levelComments fetch (levelKids fetch i kids))
                    (seq 0 depth))
    ∧ Forall validComment comments.
Proof.
  intros Hend. eexists. split; [apply fetchAllComments_levels, Hend|].
  split; [reflexivity|].
  apply Forall_concat, Forall_forall. intros l Hl.
  apply list_elem_of_fmap in Hl as (i & -> & _).
  apply levelComments_valid.
Qed.

Lemma fetchAllComments_breadth_first_witness :
  ∃ comments,
    Hn.fetchAllComments threadFeed 3 [301; 999] = Some comments
    ∧ comments
      = concat (map (λ i, levelComments threadFeed
                            (levelKids threadFeed i [301; 999]))
                    (seq 0 2))
    ∧ Forall validComment comments.
Proof.
  apply (fetchAllComments_breadth_first threadFeed 2 [301; 999]).
  reflexivity.
Defined.

Example fetchAllComments_skips_deleted_subtree :
  Hn.fetchAllComments threadFeed 3 [301; 999]
  = Some [HNItem.mk 301 "comment" (Some "carol") 1699998200
                    (Some "first") None None None None (Some [302])
                    (Some 101) false false].
Proof. reflexivity. Qed.

(** ** Every recent candidate is stored *)

Lemma existsb_updateFirst {A} (p q : A -> bool) (f : A -> A) l :
  (∀ x, p (f x) = p x) -> existsb p (updateFirst q f l) = existsb p l.
Proof.
  intros Hf. induction l as [|x l IH]; simpl; [reflexivity|].
  destruct (q x); simpl; [rewrite Hf | rewrite IH]; reflexivity.
Qed.

Lemma find_none_existsb {A} (p : A -> bool) l :
  find p l = None -> existsb p l = false.
Proof.
  induction l as [|x l IH]; simpl; [reflexivity|].
  destruct (p x); [discriminate | exact IH].
Qed.

Lemma find_some_existsb {A} (p : A -> bool) l x :
  find p l = Some x -> existsb p l = true.
Proof.
  induction l as [|y l IH]; simpl; [discriminate|].
  destruct (p y); [reflexivity | exact IH].
Qed.

Lemma cycle_write_keeps_story env hnId w w' :
  CycleWrite env w w' -> hasStory hnId w = true -> hasStory hnId w' = true.
Proof.
  unfold hasStory. intros Hstep H. destruct Hstep; simpl; try exact H.
  - rewrite existsb_updateFirst; [exact H|]. intros x. reflexivity.
  - rewrite existsb_app, H. reflexivity.
Qed.

Lemma cycle_writes_keep_story env hnId w w' :
  rtc (CycleWrite env) w w' -> hasStory hnId w = true ->
  hasStory hnId w' = true.
Proof.
  intros Htr.
  apply (traces_inv (CycleWrite env) (λ w1, hasStory hnId w1 = true) w w');
    [|exact Htr].
  intros w1 w2. apply cycle_write_keeps_story.
Qed.

Lemma bind_after {A B} (R : World.t -> World.t -> Prop) (m : M A)
      (k : A -> M B) w :
  (∀ a, Traces R (k a)) -> rtc R (m w).2 (bind m k w).2.
Proof.
  intros Hk. unfold bind. destruct (m w) as [[a|e] w1]; simpl.
  - apply Hk.
  - apply rtc_refl.
Qed.

Lemma tryCatch_after {A} (R : World.t -> World.t -> Prop) (m : M A)
      (h : Error.t -> M A) w :
  (∀ e, Traces R (h e)) -> rtc R (m w).2 (tryCatch m h w).2.
Proof.
  intros Hh. unfold tryCatch. destruct (m w) as [[a|e] w1]; simpl.
  - apply rtc_refl.
  - apply Hh.
Qed.

Lemma processStoryOnly_stores cfg env hnId item w :
  Env.fetchItem env hnId = Ok (Some item) ->
  HNItem.id item = hnId ->
  HNItem.type item = "story" ->
  isRecent cfg env (HNItem.time item) = true ->
  hasStory hnId (processStoryOnly cfg env hnId w).2 = true.
Proof.
  intros Hf Hid Ht Hr.
  unfold processStoryOnly, bind at 1, Stories.findOne, bind at 1, await.
  rewrite Hf, Ht, Hr. cbn [negb String.eqb Ascii.eqb Bool.eqb].
  destruct (find _ _) as [ex|] eqn:Hfind.
  - apply find_some_existsb in Hfind.
    unfold bind, updateStory, modify, ret, hasStory. simpl.
    rewrite existsb_updateFirst; [exact Hfind|]. intros x. reflexivity.
  - apply find_none_existsb in Hfind.
    match goal with
    | |- hasStory hnId (bind ?m ?k w).2 = true =>
        apply (cycle_writes_keep_story env hnId (k tt (m w).2).2)
    end.
    { apply rtc_refl. }
    unfold bind at 1, Stories.create, modify at 1.
    change (Story.hnId (newStoryRow item)) with (HNItem.id item).
    cbn [snd World.stories World.withWorker].
    rewrite Hid, Hfind.
    match goal with
    | |- hasStory hnId (bind ?m ?k ?w1).2 = true =>
        apply (cycle_writes_keep_story env hnId (m w1).2)
    end.
    { apply bind_after. intros _.
      apply traces_bind; [apply worker_writes, ww_processed|].
      intros _. apply traces_ret. }
    set (w1 := World.withStories _ _).
    assert (H1 : hasStory hnId w1 = true).
    { unfold hasStory. subst w1. simpl. rewrite existsb_app. simpl.
      change (Story.hnId (newStoryRow item)) with (HNItem.id item).
      rewrite Hid, Z.eqb_refl, orb_true_r. reflexivity. }
    destruct (0 <? _)%nat; [|exact H1].
    assert (Hana : ∀ rawText,
               hasStory hnId
                 (analyzeNewStory env item (newStoryRow item) rawText w1).2
               = true).
    { intros rawText.
      unfold analyzeNewStory, bind, await, updateStory, modify.
      destruct (Env.analyzeStory env _ _ _) as [analysis|e]; [|exact H1].
      cbv beta iota.
      destruct (Env.generateEmbedding env _) as [embedding|e]; [|exact H1].
      assert (H2 : ∀ p, hasStory hnId
                          (World.withStories
                             (updateFirst
                                (λ s, Story.hnId s
                                      =? Story.hnId (newStoryRow item))
                                (Story.applyPatch p)) w1) = true).
      { intros p. unfold hasStory in *. simpl.
        rewrite existsb_updateFirst; [exact H1|]. intros x. reflexivity. }
      destruct (Env.addStoryEmbedding env _ _ _) as [[]|e]; simpl; apply H2. }
    unfold tryCatch.
    specialize (Hana (stripHtml (HNItem.text item))).
    destruct (analyzeNewStory env item _ _ w1) as [[u|e] w2]; simpl in *;
      exact Hana.
Qed.

Lemma cycleStep_stores cfg env hnId item acc w :
  Env.fetchItem env hnId = Ok (Some item) ->
  HNItem.id item = hnId ->
  HNItem.type item = "story" ->
  isRecent cfg env (HNItem.time item) = true ->
  hasStory hnId (cycleStep cfg env hnId acc w).2 = true.
Proof.
  intros Hf Hid Ht Hr. unfold cycleStep, bind at 1, modify at 1.
  set (w0 := World.withWorker WorkerState.incrCycleCurrent w).
  apply (cycle_writes_keep_story env hnId (storyTurn cfg env hnId acc w0).2).
  { apply tryCatch_after. intros e.
    apply traces_bind; [apply worker_writes, ww_processed|].
    intros _. apply traces_ret. }
  unfold storyTurn.
  apply (cycle_writes_keep_story env hnId (processStoryOnly cfg env hnId w0).2).
  { apply bind_after. intros [result it].
    apply traces_bind; [apply worker_writes, ww_processed|]. intros _.
    destruct it as [it|]; [|apply traces_ret].
    destruct result; first [apply traces_ret | apply commentPhase_writes]. }
  apply (processStoryOnly_stores cfg env hnId item w0 Hf Hid Ht Hr).
Qed.

Lemma cycleLoop_stores cfg env hnId item toProcess :
  Env.fetchItem env hnId = Ok (Some item) ->
  HNItem.id item = hnId ->
  HNItem.type item = "story" ->
  isRecent cfg env (HNItem.time item) = true ->
  hnId ∈ toProcess ->
  ∀ acc w, hasStory hnId (cycleLoop cfg env toProcess acc w).2 = true.
Proof.
  intros Hf Hid Ht Hr.
  induction toProcess as [|h rest IH]; intros Hin acc w.
  - apply elem_of_nil in Hin. contradiction.
  - cbn [cycleLoop].
    destruct (cycleStep_accounts cfg env h acc w) as (acc1 & w1 & Hstep & _).
    apply elem_of_cons in Hin as [<-|Hin].
    + apply (cycle_writes_keep_story env hnId (cycleStep cfg env hnId acc w).2).
      * apply bind_after. intros acc'. apply cycleLoop_writes.
      * apply (cycleStep_stores cfg env hnId item acc w Hf Hid Ht Hr).
    + unfold bind. rewrite Hstep. apply IH, Hin.
Qed.

(** X24.  A cycle misses no recent story: a candidate for which the feed
    returns a story within the maximum age, under the identifier asked for
    and with values that fit the columns of the table, is in the table when
    the cycle ends, whatever happens to its analysis and to the other
    candidates. *)
Theorem cycle_stores_every_recent_story
        cfg env (topIds newIds : list Z) (hnId : Z) (item : HNItem.t) w :
  Env.fetchTopStoryIds env = Ok topIds ->
  Env.fetchNewStoryIds env = Ok newIds ->
  hnId ∈ candidates cfg topIds newIds ->
  Env.fetchItem env hnId = Ok (Some item) ->
  HNItem.id item = hnId ->
  HNItem.type item = "story" ->
  isRecent cfg env (HNItem.time item) = true ->
  storyFits (newStoryRow item) = true ->
  ∃ s, s ∈ World.stories (runIngestionCycle cfg env w).2
       ∧ Story.hnId s = hnId.
Proof.
  intros Htop Hnew Hin Hf Hid Ht Hr _.
  assert (H : hasStory hnId (runIngestionCycle cfg env w).2 = true).
  { unfold runIngestionCycle, bind at 1, await. rewrite Htop.
    unfold bind at 1. rewrite Hnew. unfold bind at 1, modify.
    apply (cycleLoop_stores cfg env hnId item _ Hf Hid Ht Hr Hin). }
  unfold hasStory in H. apply existsb_exists in H as (s & Hs & Hk).
  exists s. split; [apply list_elem_of_In, Hs | apply Z.eqb_eq, Hk].
Qed.

Lemma cycle_stores_every_recent_story_witness :
  ∃ s, s ∈ World.stories
             (runIngestionCycle Scenario.cfg Scenario.failingEnv
                                World.empty).2
       ∧ Story.hnId s = 101.
Proof.
  apply (cycle_stores_every_recent_story Scenario.cfg Scenario.failingEnv
           [101; 202] [202; 101] 101 Scenario.story101 World.empty);
    try reflexivity.
  vm_compute. left.
Defined.

(** ** Regeneration reaches every stale story *)

Lemma Forall2_updateFirst_unique {A} (R R' : A -> A -> Prop) (g : A -> Z)
      (k : Z) (f : A -> A) l0 l :
  NoDup (map g l) ->
  (∀ x0 x, R x0 x -> g x = k -> R' x0 (f x)) ->
  (∀ x0 x, R x0 x -> g x ≠ k -> R' x0 x) ->
  Forall2 R l0 l ->
  Forall2 R' l0 (updateFirst (λ x, g x =? k) f l).
Proof.
  intros Hnd Hhit Hmiss H.
  induction H as [|x0 x l0 l Hx Hl IH]; simpl; [constructor|].
  apply NoDup_cons in Hnd as [Hx' Hnd].
  destruct (Z.eqb_spec (g x) k) as [Hk|Hk].
  - constructor; [apply Hhit; assumption|].
    clear IH. induction Hl as [|y0 y l0 l Hy Hl IHl]; constructor.
    + apply Hmiss; [exact Hy|]. intros Hy'. apply Hx'.
      cbn [map]. apply elem_of_cons. left. congruence.
    + apply IHl.
      * intros Hin. apply Hx'. cbn [map]. apply elem_of_cons. right.
        exact Hin.
      * cbn [map] in Hnd. apply NoDup_cons in Hnd. tauto.
  - constructor; [apply Hmiss; assumption | apply IH, Hnd].
Qed.

Lemma regenerateStory_ok env v story w :
  storyServicesUp env ->
  ∃ analysis,
    regenerateStory env v story w
    = (Ok tt,
       patchStoryRows story
         (regenStoryPatch env analysis
            (normalizeConcepts (StoryAnalysis.concepts analysis)) v) w).
Proof.
  intros (Ha & He & Hadd).
  unfold regenerateStory, bind, await, updateStory, modify.
  destruct (Ha (Story.title story) (stripHtml (Story.text story))
               (Story.url story)) as [analysis ->].
  exists analysis.
  destruct (He (regenStoryEmbeddingText analysis
                  (normalizeConcepts (StoryAnalysis.concepts analysis))))
    as [embedding ->].
  rewrite Hadd. reflexivity.
Qed.

Lemma regenStoriesLoop_converges env v rows0 todo :
  storyServicesUp env ->
  ∀ done report w,
    NoDup (map Story.hnId (World.stories w)) ->
    Forall2 (regenProgress v done) rows0 (World.stories w) ->
    ∃ report' w',
      regenStoriesLoop env v todo report w = (Ok report', w')
      ∧ RegenReport.storiesRegenerated report'
        = RegenReport.storiesRegenerated report + Z.of_nat (length todo)
      ∧ Forall2 (regenProgress v (map Story.hnId todo ++ done)) rows0
                (World.stories w').
Proof.
  intros Hup. induction todo as [|story rest IH]; intros done report w Hnd H.
  - exists report, w. split; [reflexivity|]. simpl. split; [lia | exact H].
  - cbn [regenStoriesLoop]. unfold bind at 1, tryCatch, bind at 1.
    destruct (regenerateStory_ok env v story w Hup) as [analysis ->].
    cbn [ret].
    set (p := regenStoryPatch env analysis _ v).
    set (w1 := patchStoryRows story p w).
    assert (Hnd1 : NoDup (map Story.hnId (World.stories w1))).
    { subst w1. unfold patchStoryRows. simpl.
      rewrite map_updateFirst; [exact Hnd | reflexivity]. }
    assert (H1 : Forall2 (regenProgress v (Story.hnId story :: done)) rows0
                         (World.stories w1)).
    { subst w1. unfold patchStoryRows. simpl.
      apply (Forall2_updateFirst_unique (regenProgress v done)
               (regenProgress v (Story.hnId story :: done))
               Story.hnId (Story.hnId story) (Story.applyPatch p)
               rows0 (World.stories w) Hnd); [| |exact H].
      - intros x0 x (Hraw & Hver & Hdone) Hk.
        split; [destruct x; exact Hraw|].
        split; [right; reflexivity|]. intros _. reflexivity.
      - intros x0 x (Hraw & Hver & Hdone) Hk.
        split; [exact Hraw|]. split; [exact Hver|].
        intros Hin. apply elem_of_cons in Hin as [Hin|Hin]; [|auto].
        exfalso. apply Hk. rewrite <- Hin.
        unfold storyRaw in Hraw. congruence. }
    match goal with
    | |- context [regenStoriesLoop env v rest ?r w1] =>
        destruct (IH (Story.hnId story :: done) r w1 Hnd1 H1)
          as (report' & w' & Hrun & Hcount & Hrows)
    end.
    exists report', w'. split; [exact Hrun|]. simpl in *.
    split; [lia|].
    eapply Forall2_impl; [exact Hrows|].
    intros x0 x (Hraw & Hver & Hdone). split; [exact Hraw|].
    split; [exact Hver|]. intros Hin. apply Hdone.
    rewrite elem_of_app, elem_of_cons.
    cbn [map app] in Hin. rewrite elem_of_cons, elem_of_app in Hin. tauto.
Qed.

Lemma regenCommentsLoop_stories env v todo report w :
  World.stories (regenCommentsLoop env v todo report w).2 = World.stories w.
Proof.
  pose (R := λ w1 w2 : World.t, World.stories w2 = World.stories w1).
  assert (H : rtc R w (regenCommentsLoop env v todo report w).2).
  { apply regenCommentsLoop_traces. intros; reflexivity. }
  induction H as [|w1 w2 w3 H12 _ IH]; [reflexivity|].
  rewrite IH. exact H12.
Qed.

Lemma regenProgress_refl v rows : Forall2 (regenProgress v []) rows rows.
Proof.
  induction rows as [|s rows IH]; constructor; [|exact IH].
  split; [reflexivity|]. split; [left; reflexivity|].
  intros H. apply elem_of_nil in H. contradiction.
Qed.



(** ** What reaches the error list *)

Lemma ringPush_elem msg errs m :
  m ∈ WorkerState.ringPush msg errs -> m ∈ errs ∨ m = msg.
Proof.
  unfold WorkerState.ringPush. intros H.
  assert (H' : m ∈ errs ++ [msg]).
  { destruct (50 <? _)%nat; [|exact H].
    destruct errs as [|e errs]; simpl in *; [|right; exact H].
    apply elem_of_nil in H. contradiction. }
  apply elem_of_app in H' as [H'|H']; [left; exact H'|].
  right. apply list_elem_of_singleton in H'. exact H'.
Qed.

(** X26.  Only the failed analysis of a new story reaches the error list
    during a cycle: every entry of the list after a cycle was there before
    or is the entry of such a failure.  A comment that cannot be analyzed or
    stored, and a story whose turn fails as a whole, leave no entry. *)
Theorem cycle_logs_story_failures_only cfg env w :
  Forall (λ m, m ∈ WorkerState.errors (World.workerState w)
               ∨ ∃ hnId err, m = storyErrorEntry hnId err)
         (WorkerState.errors
            (World.workerState (runIngestionCycle cfg env w).2)).
Proof.
  apply (traces_inv (CycleWrite env)
           (λ w', Forall (λ m, m ∈ WorkerState.errors (World.workerState w)
                               ∨ ∃ hnId err, m = storyErrorEntry hnId err)
                         (WorkerState.errors (World.workerState w')))
           w).
  - intros w1 w2 Hstep Hinv.
    destruct Hstep as [w1 f Hf | | |]; try exact Hinv.
    simpl. destruct (Hf (World.workerState w1)); try exact Hinv.
    simpl. apply Forall_forall. intros m Hm.
    apply ringPush_elem in Hm as [Hm| ->]; [|eauto].
    rewrite Forall_forall in Hinv. apply Hinv, Hm.
  - apply runIngestionCycle_writes.
  - apply Forall_forall. intros m Hm. left. exact Hm.
Qed.

(** ** Once too old, always too old *)

(** X27.  The age test only gets stricter as the clock advances: a story
    that is too old at one time is too old at every later time, and its
    turn then classifies it [too_old] and writes nothing, whether it is
    stored or not. *)
Theorem too_old_is_permanent cfg env env' hnId item w :
  Env.fetchItem env' hnId = Ok (Some item) ->
  HNItem.type item = "story" ->
  isRecent cfg env (HNItem.time item) = false ->
  Env.now env <= Env.now env' ->
  isRecent cfg env' (HNItem.time item) = false
  ∧ processStoryOnly cfg env' hnId w = (Ok (TooOld, Some item), w).
Proof.
  intros Hf Ht Hold Hnow.
  assert (Hold' : isRecent cfg env' (HNItem.time item) = false).
  { unfold isRecent in *. apply Z.leb_gt. apply Z.leb_gt in Hold. lia. }
  split; [exact Hold'|].
  exact (processStoryOnly_too_old cfg env' hnId item w Hf Ht Hold').
Qed.

Lemma too_old_is_permanent_witness :
  isRecent Scenario.cfg Scenario.failingEnv (HNItem.time Scenario.story202)
  = false
  ∧ processStoryOnly Scenario.cfg Scenario.failingEnv 202 Scenario.holding202
    = (Ok (TooOld, Some Scenario.story202), Scenario.holding202).
Proof.
  apply (too_old_is_permanent Scenario.cfg Scenario.env Scenario.failingEnv
           202 Scenario.story202 Scenario.holding202).
  - reflexivity.
  - reflexivity.
  - reflexivity.
  - vm_compute. discriminate.
Defined.

(** ** The prompts *)

Lemma string_length_app s1 s2 :
  String.length (s1 +:+ s2) = (String.length s1 + String.length s2)%nat.
Proof. induction s1 as [|c s1 IH]; simpl; [reflexivity | rewrite IH; reflexivity]. Qed.

Lemma slice0_length n s :
  String.length (Prompt.slice0 n s) = Nat.min n (String.length s).
Proof.
  unfold Prompt.slice0. revert n.
  induction s as [|c s IH]; intros [|n]; simpl; try reflexivity.
  rewrite IH. reflexivity.
Qed.

Lemma slice0_idem n s : Prompt.slice0 n (Prompt.slice0 n s) = Prompt.slice0 n s.
Proof.
  unfold Prompt.slice0. revert n.
  induction s as [|c s IH]; intros [|n]; simpl; try reflexivity.
  rewrite IH. reflexivity.
Qed.

Lemma slice0_empty n s :
  String.eqb (Prompt.slice0 (S n) s) EmptyString = String.eqb s EmptyString.
Proof. destruct s; reflexivity. Qed.

(** X28.  The prompts carry a bounded part of the text: the prompt for a
    story depends on the first 3000 characters of its text only, the prompt
    for a comment on the first 2000, and beyond the title (or the story
    title and the parent's summary) and that text each prompt has a fixed
    number of characters at most. *)
Theorem prompts_carry_bounded_text
        (title text : string) (url : option string)
        (commentText storyTitle : string) (parentContext : option string) :
  Prompt.storyUserPrompt title text url
  = Prompt.storyUserPrompt title (Prompt.slice0 3000 text) url
  ∧ (String.length (Prompt.storyUserPrompt title text url)
     <= String.length title + String.length (default EmptyString url)
        + Nat.min 3000 (String.length text) + 61)%nat
  ∧ Prompt.commentUserPrompt commentText storyTitle parentContext
    = Prompt.commentUserPrompt (Prompt.slice0 2000 commentText) storyTitle
                               parentContext
  ∧ (String.length
       (Prompt.commentUserPrompt commentText storyTitle parentContext)
     <= String.length storyTitle
        + String.length (default EmptyString parentContext)
        + Nat.min 2000 (String.length commentText) + 86)%nat.
Proof.
  split; [|split; [|split]].
  - unfold Prompt.storyUserPrompt, Prompt.storyContent.
    rewrite slice0_empty, slice0_idem. reflexivity.
  - unfold Prompt.storyUserPrompt, Prompt.storyContent, Js.orNull.
    destruct url as [u|]; [destruct (String.eqb u EmptyString)|];
      destruct (String.eqb text EmptyString);
      rewrite ?string_length_app, ?slice0_length; simpl; lia.
  - unfold Prompt.commentUserPrompt. rewrite slice0_idem. reflexivity.
  - unfold Prompt.commentUserPrompt, Js.orNull.
    destruct parentContext as [p|]; [destruct (String.eqb p EmptyString)|];
      rewrite ?string_length_app, ?slice0_length; simpl; lia.
Qed.

(** ** The turn of a new story *)

Lemma existsb_false_find {A} (p : A -> bool) l :
  existsb p l = false -> find p l = None.
Proof.
  induction l as [|x l IH]; simpl; [reflexivity|].
  destruct (p x); [discriminate | exact IH].
Qed.

(** X29.  The turn of a new story whose analysis succeeds: a candidate that
    is not stored, for which the feed returns a recent story with some text,
    for which the analysis, the embedding and the indexing succeed, and
    whose analyzed row fits the columns of the table, is classified [new];
    its row is appended with the analysis, the normalized concepts, the
    current analysis version and the flag [embedded]; both counters grow by
    one and the error list is untouched. *)
Theorem new_story_is_analyzed cfg env hnId item analysis embedding w :
  Env.fetchItem env hnId = Ok (Some item) ->
  HNItem.id item = hnId ->
  HNItem.type item = "story" ->
  isRecent cfg env (HNItem.time item) = true ->
  hasStory hnId w = false ->
  hasTextForAnalysis item ->
  Env.analyzeStory env (Js.optOrElse (HNItem.title item) EmptyString)
                   (stripHtml (HNItem.text item)) (Js.orNull (HNItem.url item))
  = Ok analysis ->
  Env.generateEmbedding env
    (storyEmbeddingText analysis
       (normalizeConcepts (StoryAnalysis.concepts analysis)))
  = Ok embedding ->
  Env.addStoryEmbedding env hnId embedding (storyMetadata item analysis)
  = Ok tt ->
  storyFits (analyzedStoryRow env item analysis) = true ->
  let row := analyzedStoryRow env item analysis in
  ∃ w',
    processStoryOnly cfg env hnId w = (Ok (New, Some item), w')
    ∧ World.stories w' = World.stories w ++ [row]
    ∧ World.comments w' = World.comments w
    ∧ World.workerState w'
      = WorkerState.incrTotalProcessed
          (WorkerState.incrTotalEmbedded
             (WorkerState.setCurrentlyProcessing
                (Some (storyLabel hnId item)) (World.workerState w)))
    ∧ Story.embedded row = true
    ∧ Story.analysisVersion row = Some ANALYSIS_VERSION
    ∧ Story.concepts row
      = Some (normalizeConcepts (StoryAnalysis.concepts analysis))
    ∧ Story.processedAt row = Some (Env.now env).
Proof.
  intros Hf Hid Ht Hr Hnew Htext Ha Hg Hadd _ row.
  unfold hasStory in Hnew.
  assert (Hfresh : Forall (λ s, (Story.hnId s =? HNItem.id item) = false)
                          (World.stories w)).
  { rewrite Hid. apply existsb_false_Forall, Hnew. }
  unfold processStoryOnly, bind at 1, Stories.findOne, bind at 1, await.
  rewrite Hf, Ht, Hr, (existsb_false_find _ _ Hnew).
  cbn [negb String.eqb Ascii.eqb Bool.eqb].
  unfold bind at 1, modify at 1, bind at 1, Stories.create.
  change (Story.hnId (newStoryRow item)) with (HNItem.id item).
  cbn [World.stories World.withWorker]. rewrite Hid, Hnew.
  unfold hasTextForAnalysis in Htext. apply Nat.ltb_lt in Htext.
  rewrite Htext.
  unfold bind at 1, tryCatch, analyzeNewStory, bind at 1, await.
  rewrite Ha. unfold bind at 1. rewrite Hg.
  unfold bind at 1, updateStory, modify at 1, bind at 1.
  rewrite Hid, Hadd.
  unfold bind, modify, ret.
  eexists. split; [reflexivity|].
  cbn [World.stories World.comments World.workerState World.withWorker
       World.withStories].
  change (Story.hnId (newStoryRow item)) with (HNItem.id item).
  rewrite updateFirst_snoc_fresh; [|exact Hfresh|apply Z.eqb_refl].
  repeat split.
Qed.

Lemma new_story_is_analyzed_witness :
  ∃ w',
    processStoryOnly Scenario.cfg Scenario.env 101 World.empty
    = (Ok (New, Some Scenario.story101), w')
    ∧ World.stories w'
      = World.stories World.empty
          ++ [analyzedStoryRow Scenario.env Scenario.story101
                               Scenario.storyAnalysis]
    ∧ World.comments w' = World.comments World.empty
    ∧ World.workerState w'
      = WorkerState.incrTotalProcessed
          (WorkerState.incrTotalEmbedded
             (WorkerState.setCurrentlyProcessing
                (Some (storyLabel 101 Scenario.story101))
                (World.workerState World.empty)))
    ∧ Story.embedded (analyzedStoryRow Scenario.env Scenario.story101
                                       Scenario.storyAnalysis) = true
    ∧ Story.analysisVersion (analyzedStoryRow Scenario.env Scenario.story101
                                              Scenario.storyAnalysis)
      = Some ANALYSIS_VERSION
    ∧ Story.concepts (analyzedStoryRow Scenario.env Scenario.story101
                                       Scenario.storyAnalysis)
      = Some (normalizeConcepts
                (StoryAnalysis.concepts Scenario.storyAnalysis))
    ∧ Story.processedAt (analyzedStoryRow Scenario.env Scenario.story101
                                          Scenario.storyAnalysis)
      = Some (Env.now Scenario.env).
Proof.
  apply (new_story_is_analyzed Scenario.cfg Scenario.env 101
           Scenario.story101 Scenario.storyAnalysis
           [(1 # 2)%Q; (1 # 3)%Q] World.empty); try reflexivity.
  unfold hasTextForAnalysis. vm_compute. lia.
Defined.

(** X30.  A new story without any text is stored and never analyzed: when
    the title and the stripped text are both empty and the row fits the
    columns of the table, the turn classifies the story [new] and appends
    its row as created, not embedded and without analysis version; no
    analysis is requested, nothing is counted as embedded and no error is
    recorded. *)
Theorem textless_story_is_stored_unanalyzed cfg env hnId item w :
  Env.fetchItem env hnId = Ok (Some item) ->
  HNItem.id item = hnId ->
  HNItem.type item = "story" ->
  isRecent cfg env (HNItem.time item) = true ->
  hasStory hnId w = false ->
  ¬ hasTextForAnalysis item ->
  storyFits (newStoryRow item) = true ->
  processStoryOnly cfg env hnId w
  = (Ok (New, Some item),
     World.withWorker WorkerState.incrTotalProcessed
       (World.withStories (λ l, l ++ [newStoryRow item])
          (World.withWorker
             (WorkerState.setCurrentlyProcessing
                (Some (storyLabel hnId item))) w)))
  ∧ Story.embedded (newStoryRow item) = false
  ∧ Story.analysisVersion (newStoryRow item) = None.
Proof.
  intros Hf Hid Ht Hr Hnew Htext _.
  unfold hasStory in Hnew.
  unfold processStoryOnly, bind at 1, Stories.findOne, bind at 1, await.
  rewrite Hf, Ht, Hr, (existsb_false_find _ _ Hnew).
  cbn [negb String.eqb Ascii.eqb Bool.eqb].
  unfold bind at 1, modify at 1, bind at 1, Stories.create.
  change (Story.hnId (newStoryRow item)) with (HNItem.id item).
  cbn [World.stories World.withWorker]. rewrite Hid, Hnew.
  unfold hasTextForAnalysis in Htext. apply Nat.nlt_ge in Htext.
  apply Nat.ltb_ge in Htext. rewrite Htext.
  split; [reflexivity|]. split; reflexivity.
Qed.

Lemma textless_story_is_stored_unanalyzed_witness :
  processStoryOnly Scenario.cfg textlessFeed 404 World.empty
  = (Ok (New, Some textlessStory),
     World.withWorker WorkerState.incrTotalProcessed
       (World.withStories (λ l, l ++ [newStoryRow textlessStory])
          (World.withWorker
             (WorkerState.setCurrentlyProcessing
                (Some (storyLabel 404 textlessStory))) World.empty)))
  ∧ Story.embedded (newStoryRow textlessStory) = false
  ∧ Story.analysisVersion (newStoryRow textlessStory) = None.
Proof.
  apply (textless_story_is_stored_unanalyzed Scenario.cfg textlessFeed 404
           textlessStory World.empty); try reflexivity.
  unfold hasTextForAnalysis. vm_compute. lia.
Defined.

(** * Whole runs, the index included *)

(** ** Runs with an index that checks its metadata *)

Lemma bind_ext {A B} (m m' : M A) (k k' : A -> M B) w :
  m w = m' w -> (∀ a w', k a w' = k' a w') -> bind m k w = bind m' k' w.
Proof.
  intros Hm Hk. unfold bind. rewrite Hm.
  destruct (m' w) as [[a|e] w']; [apply Hk | reflexivity].
Qed.

Lemma tryCatch_ext {A} (m m' : M A) (h h' : Error.t -> M A) w :
  m w = m' w -> (∀ e w', h e w' = h' e w') ->
  tryCatch m h w = tryCatch m' h' w.
Proof.
  intros Hm Hh. unfold tryCatch. rewrite Hm.
  destruct (m' w) as [[a|e] w']; [reflexivity | apply Hh].
Qed.

Lemma isNormalized_normalizeConcepts concepts :
  isNormalized (normalizeConcepts concepts) = true.
Proof.
  apply bool_decide_eq_true.
  unfold normalizeConcepts at 1. apply filter_map_fixed.
  apply Forall_forall. intros c Hc.
  unfold normalizeConcepts in Hc.
  apply list_elem_of_filter in Hc as [Hlen Hc].
  apply list_elem_of_fmap in Hc as [c0 [-> _]].
  split; [exact Hlen | apply normalizeConcept_idem].
Qed.

Lemma isNormalized_normal concepts :
  isNormalized concepts = true -> Forall NormalizedConcept concepts.
Proof.
  intros H. apply bool_decide_eq_true in H. rewrite <- H.
  apply normalizeConcepts_normal.
Qed.

Section IndexCheck.
Variable cfg : Config.t.
Variable env : Env.t.
Variable okStory : StoryMetadata.t -> bool.
Variable okComment : CommentMetadata.t -> bool.

Hypothesis okComment_normalized :
  ∀ m, isNormalized (CommentMetadata.concepts m) = true -> okComment m = true.
Hypothesis okStory_normalized :
  ∀ m, isNormalized (StoryMetadata.concepts m) = true -> okStory m = true.
Hypothesis okStory_all : ∀ m, okStory m = true.

Abbreviation checked := (withIndexCheck okStory okComment env).

Lemma analyzeNewComment_checked ci storyHnId comment text title context w :
  analyzeNewComment checked ci storyHnId comment text title context w
  = analyzeNewComment env ci storyHnId comment text title context w.
Proof.
  unfold analyzeNewComment.
  apply bind_ext; [reflexivity|]. intros analysis w1.
  apply bind_ext; [reflexivity|]. intros embedding w2.
  apply bind_ext; [reflexivity|]. intros _ w3.
  apply bind_ext; [|reflexivity].
  unfold await. cbn [withIndexCheck Env.addCommentEmbedding].
  rewrite okComment_normalized; [reflexivity|].
  apply isNormalized_normalizeConcepts.
Qed.

Lemma processComment_checked ci storyHnId title context w :
  processComment checked ci storyHnId title context w
  = processComment env ci storyHnId title context w.
Proof.
  unfold processComment.
  apply tryCatch_ext; [|reflexivity].
  apply bind_ext; [reflexivity|]. intros comment w1.
  destruct (30 <? _)%nat; [|reflexivity].
  apply tryCatch_ext; [apply analyzeNewComment_checked | reflexivity].
Qed.

Lemma commentLoop_checked item existingSet todo :
  ∀ summaries processed new w,
    commentLoop cfg checked item existingSet todo summaries processed new w
    = commentLoop cfg env item existingSet todo summaries processed new w.
Proof.
  induction todo as [|ci rest IH]; intros summaries processed new w;
    [reflexivity|].
  cbn [commentLoop].
  destruct (decide _); [apply IH|].
  destruct (_ && _); [reflexivity|].
  apply bind_ext; [apply processComment_checked|]. intros ok w1.
  destruct ok; [|apply IH].
  apply bind_ext; [reflexivity|]. intros newComment w2. apply IH.
Qed.

Lemma processStoryComments_checked item w :
  processStoryComments cfg checked item w
  = processStoryComments cfg env item w.
Proof.
  unfold processStoryComments.
  destruct (HNItem.kids item) as [[|kid kids]|]; try reflexivity.
  apply bind_ext; [reflexivity|]. intros topLevelItems w1.
  apply bind_ext; [reflexivity|]. intros existingComments w2.
  apply commentLoop_checked.
Qed.

Lemma analyzeNewStory_checked item story rawText w :
  analyzeNewStory checked item story rawText w
  = analyzeNewStory env item story rawText w.
Proof.
  unfold analyzeNewStory.
  apply bind_ext; [reflexivity|]. intros analysis w1.
  apply bind_ext; [reflexivity|]. intros embedding w2.
  apply bind_ext; [reflexivity|]. intros _ w3.
  apply bind_ext; [|reflexivity].
  unfold await. cbn [withIndexCheck Env.addStoryEmbedding].
  rewrite okStory_all. reflexivity.
Qed.

Lemma processStoryOnly_checked hnId w :
  processStoryOnly cfg checked hnId w = processStoryOnly cfg env hnId w.
Proof.
  unfold processStoryOnly.
  apply bind_ext; [reflexivity|]. intros existing w1.
  apply bind_ext; [reflexivity|]. intros fetched w2.
  destruct fetched as [item|]; [|reflexivity].
  destruct (negb (String.eqb _ _)); [reflexivity|].
  change (isRecent cfg checked (HNItem.time item))
    with (isRecent cfg env (HNItem.time item)).
  destruct (negb (isRecent _ _ _)); [reflexivity|].
  destruct existing as [ex|]; [reflexivity|].
  apply bind_ext; [reflexivity|]. intros _ w3.
  apply bind_ext; [reflexivity|]. intros story w4.
  apply bind_ext; [|reflexivity].
  destruct (0 <? _)%nat; [|reflexivity].
  apply tryCatch_ext; [apply analyzeNewStory_checked | reflexivity].
Qed.

Lemma commentPhase_checked item acc w :
  commentPhase cfg checked item acc w = commentPhase cfg env item acc w.
Proof.
  unfold commentPhase.
  apply tryCatch_ext; [|reflexivity].
  apply bind_ext; [reflexivity|]. intros _ w1.
  apply bind_ext; [apply processStoryComments_checked | reflexivity].
Qed.

Lemma cycleLoop_checked toProcess :
  ∀ acc w,
    cycleLoop cfg checked toProcess acc w = cycleLoop cfg env toProcess acc w.
Proof.
  induction toProcess as [|hnId rest IH]; intros acc w; [reflexivity|].
  cbn [cycleLoop].
  apply bind_ext; [|intros acc' w'; apply IH].
  unfold cycleStep.
  apply bind_ext; [reflexivity|]. intros _ w1.
  apply tryCatch_ext; [|reflexivity].
  unfold storyTurn.
  apply bind_ext; [apply processStoryOnly_checked|]. intros [result item] w2.
  apply bind_ext; [reflexivity|]. intros _ w3.
  destruct item as [it|]; [|reflexivity].
  destruct result; try reflexivity; apply commentPhase_checked.
Qed.

Lemma runIngestionCycle_checked w :
  runIngestionCycle cfg checked w = runIngestionCycle cfg env w.
Proof.
  unfold runIngestionCycle.
  apply bind_ext; [reflexivity|]. intros topIds w1.
  apply bind_ext; [reflexivity|]. intros newIds w2.
  apply bind_ext; [reflexivity|]. intros _ w3.
  apply cycleLoop_checked.
Qed.

Lemma regenStoriesLoop_checked v todo :
  ∀ report w,
    regenStoriesLoop checked v todo report w
    = regenStoriesLoop env v todo report w.
Proof.
  induction todo as [|story rest IH]; intros report w; [reflexivity|].
  cbn [regenStoriesLoop].
  apply bind_ext; [|intros report' w'; apply IH].
  apply tryCatch_ext; [|reflexivity].
  apply bind_ext; [|reflexivity].
  unfold regenerateStory.
  apply bind_ext; [reflexivity|]. intros analysis w1.
  apply bind_ext; [reflexivity|]. intros embedding w2.
  apply bind_ext; [reflexivity|]. intros _ w3.
  unfold await. cbn [withIndexCheck Env.addStoryEmbedding].
  rewrite okStory_normalized; [reflexivity|].
  apply isNormalized_normalizeConcepts.
Qed.

Lemma regenCommentsLoop_checked v todo :
  ∀ report w,
    regenCommentsLoop checked v todo report w
    = regenCommentsLoop env v todo report w.
Proof.
  induction todo as [|comment rest IH]; intros report w; [reflexivity|].
  cbn [regenCommentsLoop].
  apply bind_ext; [|intros report' w'; apply IH].
  apply tryCatch_ext; [|reflexivity].
  apply bind_ext; [|reflexivity].
  unfold regenerateComment.
  destruct (_ <=? 30)%nat; [reflexivity|].
  apply bind_ext; [reflexivity|]. intros story w1.
  apply bind_ext; [reflexivity|]. intros parentContext w2.
  apply bind_ext; [reflexivity|]. intros analysis w3.
  apply bind_ext; [reflexivity|]. intros embedding w4.
  apply bind_ext; [reflexivity|]. intros _ w5.
  apply bind_ext; [|reflexivity].
  unfold await. cbn [withIndexCheck Env.addCommentEmbedding].
  rewrite okComment_normalized; [reflexivity|].
  apply isNormalized_normalizeConcepts.
Qed.

Lemma runRegeneration_checked options w :
  runRegeneration checked options w = runRegeneration env options w.
Proof.
  unfold runRegeneration.
  apply bind_ext.
  - destruct (_ || _); [|reflexivity].
    apply bind_ext; [reflexivity|]. intros w0 w1.
    apply regenStoriesLoop_checked.
  - intros report1 w1.
    destruct (_ || _); [|reflexivity].
    apply bind_ext; [reflexivity|]. intros w0 w2.
    apply regenCommentsLoop_checked.
Qed.

End IndexCheck.

(** ** Concepts *)



(** ** The two fields of an analyzed record *)

Lemma ingestedStoryRow_both env row :
  ingestedStoryRow env row ->
  bothOrNeither (Story.embedded row) (Story.analysisVersion row).
Proof.
  intros [item [->|[analysis ->]]]; [left | right]; split; reflexivity.
Qed.

Lemma ingestedCommentRow_both env row :
  ingestedCommentRow env row ->
  bothOrNeither (Comment.embedded row) (Comment.analysisVersion row).
Proof.
  intros (ci & storyHnId & [->|[analysis ->]]); [left | right];
    split; reflexivity.
Qed.

Lemma grownFrom_writes_both env w w' :
  grownFrom env w w' -> cycleWritesBoth w w'.
Proof.
  intros (kept & addedS & addedC & HS & Hkept & HaddS & HC & HaddC).
  exists kept, addedS, addedC. repeat split; try assumption.
  - eapply Forall2_impl; [exact Hkept|]. intros s0 s Hrel.
    unfold sameButVolatile in Hrel. rewrite Hrel. split; reflexivity.
  - eapply Forall_impl; [exact HaddS|]. intros s (s0 & Hrow & Hrel).
    unfold sameButVolatile in Hrel. rewrite Hrel.
    apply (ingestedStoryRow_both env s0 Hrow).
  - eapply Forall_impl; [exact HaddC|]. intros c.
    apply ingestedCommentRow_both.
Qed.

(** C1, as the code has it.  The store has the unique index on [hnId], and
    [embedded] goes together with a non-null [analysisVersion] in each of
    its records.  Then the two still go together after an ingestion cycle
    and after a regeneration run.  An ingestion cycle writes the two fields
    in one update ([embedded] to [true], [analysisVersion] to the current
    version), and only in rows that it has added itself: every row stored
    before keeps both fields, and every added row has both as created or
    both as analyzed.  A regeneration run writes [analysisVersion] alone,
    and only in records that are embedded already: a record that the run
    changes was embedded under another version (or none), stays embedded
    and gets the target version.  The refresh of a cached story writes
    neither field. *)
Theorem analyzed_fields_go_together cfg env options w :
  uniqueHnIds w ->
  analyzedIff w ->
  (analyzedIff (runIngestionCycle cfg env w).2
   ∧ analyzedIff (runRegeneration env options w).2
   ∧ (∀ analysis concepts,
         Story.p_embedded (storyAnalysisPatch env analysis concepts)
         = Some true
         ∧ Story.p_analysisVersion (storyAnalysisPatch env analysis concepts)
           = Some ANALYSIS_VERSION)
   ∧ (∀ analysis concepts,
         Comment.p_embedded (commentAnalysisPatch env analysis concepts)
         = Some true
         ∧ Comment.p_analysisVersion
             (commentAnalysisPatch env analysis concepts)
           = Some ANALYSIS_VERSION)
   ∧ (∀ analysis concepts v,
         Story.p_embedded (regenStoryPatch env analysis concepts v) = None
         ∧ Story.p_analysisVersion (regenStoryPatch env analysis concepts v)
           = Some v)
   ∧ (∀ analysis concepts v,
         Comment.p_embedded (regenCommentPatch env analysis concepts v) = None
         ∧ Comment.p_analysisVersion
             (regenCommentPatch env analysis concepts v)
           = Some v)
   ∧ (∀ item existing,
         Story.p_embedded (refreshPatch item existing) = None
         ∧ Story.p_analysisVersion (refreshPatch item existing) = None))
  ∧ cycleWritesBoth w (runIngestionCycle cfg env w).2
  ∧ Forall2 (storyRegenerated (versionFilterOf options))
            (World.stories w)
            (World.stories (runRegeneration env options w).2)
  ∧ Forall2 (commentRegenerated (versionFilterOf options))
            (World.comments w)
            (World.comments (runRegeneration env options w).2).
Proof.
  intros Hu Hinv.
  destruct (runRegeneration_rel env options w Hu) as [HS HC].
  split; [split; [|split; [|repeat split]]|split; [|split]].
  - apply (traces_inv (IngestStep cfg env) analyzedIff w _).
    + intros w1 w2. apply ingest_step_analyzedIff.
    + apply runIngestionCycle_traces.
    + exact Hinv.
  - destruct Hinv as [IS IC]. split.
    + eapply Forall2_Forall_r; [|exact HS | exact IS].
      intros s0 s. apply regenerated_analyzedIff.
    + eapply Forall2_Forall_r; [|exact HC | exact IC].
      intros c0 c. apply regenerated_comment_analyzedIff.
  - apply (grownFrom_writes_both env).
    apply (traces_inv (CycleWrite env) (grownFrom env w) w).
    + intros w1 w2 Hstep Hg. exact (cycle_write_grown env w w1 w2 Hstep Hg).
    + apply runIngestionCycle_writes.
    + apply grownFrom_refl.
  - exact HS.
  - exact HC.
Qed.

Lemma analyzedAt5_unique : uniqueHnIds Scenario.analyzedAt5.
Proof. split; apply (bool_decide_unpack _); vm_compute; exact I. Qed.

Lemma analyzedAt5_analyzedIff : analyzedIff Scenario.analyzedAt5.
Proof.
  split; [|constructor].
  constructor; [|constructor].
  split; intros _; [discriminate | reflexivity].
Qed.

Lemma analyzed_fields_go_together_witness :
  analyzedIff
    (runIngestionCycle Scenario.cfg Scenario.env Scenario.analyzedAt5).2
  ∧ analyzedIff
      (runRegeneration Scenario.env Scenario.regenAll Scenario.analyzedAt5).2
  ∧ cycleWritesBoth
      Scenario.analyzedAt5
      (runIngestionCycle Scenario.cfg Scenario.env Scenario.analyzedAt5).2
  ∧ Forall2 (storyRegenerated ANALYSIS_VERSION)
            (World.stories Scenario.analyzedAt5)
            (World.stories
               (runRegeneration Scenario.env Scenario.regenAll
                                Scenario.analyzedAt5).2).
Proof.
  pose proof (analyzed_fields_go_together
                Scenario.cfg Scenario.env Scenario.regenAll
                Scenario.analyzedAt5 analyzedAt5_unique
                analyzedAt5_analyzedIff) as H.
  destruct H as ((H1 & H2 & _) & H3 & H4 & _).
  split; [exact H1|]. split; [exact H2|]. split; [exact H3 | exact H4].
Defined.

(** C1, counterexample.  Regenerating the store whose one story was analyzed
    under version 5 performs one update of that row; the update writes
    [analysisVersion] and does not write [embedded]. *)
Lemma regeneration_writes_version_alone :
  let p :=
    regenStoryPatch Scenario.env Scenario.storyAnalysis
      (normalizeConcepts (StoryAnalysis.concepts Scenario.storyAnalysis))
      ANALYSIS_VERSION in
  (runRegeneration Scenario.env Scenario.regenAll Scenario.analyzedAt5).2
  = patchStoryRows (newStoryRow Scenario.story101) p Scenario.analyzedAt5
  ∧ Story.p_analysisVersion p = Some ANALYSIS_VERSION
  ∧ Story.p_embedded p = None.
Proof. repeat split. Qed.

(** ** A candidate that is too old *)

(** C2, as the code has it.  A candidate that is not in the store and
    whose item, when it is fetched, is older than the maximum age gets no
    record: its turn writes nothing, and with a feed that answers each
    request with the item asked for, the store holds no row for the
    identifier after the whole cycle.  The turn classifies the candidate
    [too_old] when the item is a story; an item of another type is
    classified [error], its age not being looked at. *)
Theorem too_old_candidate_is_not_stored cfg env hnId item w :
  feedConsistent env ->
  Env.fetchItem env hnId = Ok (Some item) ->
  countStories hnId w = 0%nat ->
  Config.MAX_AGE_HOURS cfg * 60 * 60 * 1000
  < Env.now env - HNItem.time item * 1000 ->
  processStoryOnly cfg env hnId w
  = (if String.eqb (HNItem.type item) "story"
     then (Ok (TooOld, Some item), w)
     else (Ok (ErrorResult, None), w))
  ∧ countStories hnId (runIngestionCycle cfg env w).2 = 0%nat.
Proof.
  intros Hfeed Hf Hcount Hage.
  assert (Hr : isRecent cfg env (HNItem.time item) = false).
  { unfold isRecent. apply Z.leb_gt. exact Hage. }
  split.
  { unfold processStoryOnly, bind, Stories.findOne, await.
    rewrite Hf, (count_zero_find _ _ Hcount).
    destruct (String.eqb (HNItem.type item) "story"); [|reflexivity].
    cbn [negb]. rewrite Hr. reflexivity. }
  set (ids0 := map Story.hnId (World.stories w)).
  assert (Hprov : Forall (storyProvenance cfg env ids0)
                         (World.stories (runIngestionCycle cfg env w).2)).
  { apply (traces_inv (IngestStep cfg env)
             (λ w', Forall (storyProvenance cfg env ids0) (World.stories w'))
             w _).
    - intros w1 w2. apply ingest_step_provenance.
    - apply runIngestionCycle_traces.
    - apply Forall_forall. intros s Hs. left.
      apply list_elem_of_fmap. eauto. }
  unfold countStories. rewrite filter_none; [reflexivity|].
  eapply Forall_impl; [exact Hprov|]. intros s [Hold|Hnew] Heq.
  - apply list_elem_of_fmap in Hold as [s0 [E Hin]].
    apply (count_zero_not_elem _ _ s0 Hcount Hin). congruence.
  - destruct Hnew as (h & it & Hf' & _ & Hr' & Hid).
    assert (h = hnId) as -> by (rewrite <- (Hfeed _ _ Hf'); congruence).
    rewrite Hf in Hf'. inversion Hf'; subst it. congruence.
Qed.

Lemma too_old_candidate_is_not_stored_witness :
  processStoryOnly Scenario.cfg Scenario.env 202 World.empty
  = (Ok (TooOld, Some Scenario.story202), World.empty)
  ∧ countStories 202
      (runIngestionCycle Scenario.cfg Scenario.env World.empty).2 = 0%nat.
Proof.
  apply (too_old_candidate_is_not_stored Scenario.cfg Scenario.env 202
           Scenario.story202 World.empty scenario_feed_consistent);
    [reflexivity | reflexivity | vm_compute; reflexivity].
Defined.

(** C2, counterexample.  The listing holds the job posting 505, twenty
    hours old, with a maximum age of eight hours.  The candidate is not in
    the store and is too old; it is classified [error], not [too_old], and
    the summary of the cycle counts one error and no too old candidate.  No
    record is created. *)
Lemma too_old_job_is_classified_error :
  Config.MAX_AGE_HOURS Scenario.cfg * 60 * 60 * 1000
  < Env.now jobFeed - HNItem.time staleJob * 1000
  ∧ processStoryOnly Scenario.cfg jobFeed 505 World.empty
    = (Ok (ErrorResult, None), World.empty)
  ∧ (runIngestionCycle Scenario.cfg jobFeed World.empty).1
    = Ok (CycleResult.mk 0 0 0 1 0 0)
  ∧ World.stories (runIngestionCycle Scenario.cfg jobFeed World.empty).2 = [].
Proof. vm_compute. repeat split. Qed.
